(** * Billing software: monetary computation, invoice numbering and ledger store

    A shallow embedding of [IEEE_BILLING.py] and [ROBOCEK_BILLING.py].

    The two programs are Tkinter applications.  What is embedded here is
    the part of each [BillingApp] that computes: the helper [D], the money
    formatter [fmt_money], the item ledger ([add_item],
    [remove_selected_item], [clear_item_fields]), the calculator
    [_recalc_totals], the invoice numbering [_gen_invoice_no] and the
    master database ([save_to_master_db], [refresh_history]).

    Modelling conventions.
    - Text is [string]; a character is a code point below 256 (Latin-1).
    - A Python exception is a value of [exn]; a computation that may raise
      returns [res A].  A method of the application is a state transformer
      that may raise after having changed the state.
    - The [decimal] module is modelled after its reference implementation
      ([_pydecimal]) for the default context: 28 digits, ROUND_HALF_EVEN,
      Emax = 999999, Emin = -999999, traps on InvalidOperation,
      DivisionByZero and Overflow.  Digit-string manipulations of the
      reference implementation are written as the arithmetic on the
      coefficient they compute.
    - The [csv] module is modelled after the state machine of its reader
      and the quoting rule of its writer, for the default dialect.
    - Widgets are modelled by what they hold: a [StringVar] by its text, the
      [Treeview] by the list of its rows, a message box by the message it
      shows.  The clock and the file holding the master database are inputs. *)

From Stdlib Require Import ZArith NArith Lia Ascii String Bool List.
From stdpp Require Import base option list strings gmap.

Local Open Scope Z_scope.

(** ** Exceptions *)

Inductive exn : Type :=
| InvalidOperation   (* decimal.InvalidOperation, with its subclasses *)
| DivisionByZero     (* decimal.DivisionByZero *)
| Overflow           (* decimal.Overflow *)
| ValueError
| CsvError           (* csv.Error *)
| OSError            (* open() failed, or the file does not decode *)
| TclError.          (* the widget has no such item *)

Inductive res (A : Type) : Type :=
| Ok (a : A)
| Raise (e : exn).
Arguments Ok {A} a.
Arguments Raise {A} e.

#[global] Instance res_ret : MRet res := fun A a => Ok a.
#[global] Instance res_bind : MBind res := fun A B f m =>
  match m with
  | Ok a => f a
  | Raise e => Raise e
  end.

Definition is_ok {A} (r : res A) : bool :=
  match r with Ok _ => true | Raise _ => false end.

(** A method of an application object of type [S]: it returns or raises,
    and leaves the object as it changed it up to there. *)
Definition M (S A : Type) : Type := S -> res A * S.

#[global] Instance M_ret {S} : MRet (M S) := fun A a s => (Ok a, s).
#[global] Instance M_bind {S} : MBind (M S) := fun A B f m s =>
  match m s with
  | (Ok a, s') => f a s'
  | (Raise e, s') => (Raise e, s')
  end.

Definition gets {S A} (f : S -> A) : M S A := fun s => (Ok (f s), s).
Definition modify {S} (f : S -> S) : M S unit := fun s => (Ok tt, f s).
Definition lift {S A} (r : res A) : M S A := fun s => (r, s).

(** A callback run by Tk (a variable trace): an exception it raises is
    reported and goes no further. *)
Definition callback {S A} (m : M S A) : M S unit := fun s => (Ok tt, (m s).2).

(** ** Text *)

Module Text.

Definition code (c : ascii) : N := N_of_ascii c.

(** [str.isspace] on one character, for code points below 256. *)
Definition isspace (c : ascii) : bool :=
  let n := code c in
  ((9 <=? n) && (n <=? 13) || (28 <=? n) && (n <=? 32)
   || (n =? 133) || (n =? 160))%N.

(** A decimal digit ([str.isdecimal] on one character). *)
Definition isdecimal (c : ascii) : bool :=
  let n := code c in ((48 <=? n) && (n <=? 57))%N.

(** [str.isdigit] on one character: the decimal digits and the
    superscripts two, three and one. *)
Definition isdigit_char (c : ascii) : bool :=
  let n := code c in
  (isdecimal c || (n =? 178) || (n =? 179) || (n =? 185))%N.

Definition digit_val (c : ascii) : N := (code c - 48)%N.
Definition digit_char (d : N) : ascii := ascii_of_N (48 + d).

Fixpoint forallb (p : ascii -> bool) (s : string) : bool :=
  match s with
  | EmptyString => true
  | String c s' => p c && forallb p s'
  end.

Definition nonempty (s : string) : bool :=
  match s with EmptyString => false | String _ _ => true end.

(** [s.isdigit()] *)
Definition isdigit (s : string) : bool := nonempty s && forallb isdigit_char s.

(** All characters are decimal digits (possibly none). *)
Definition all_decimal (s : string) : bool := forallb isdecimal s.

Fixpoint lstrip (s : string) : string :=
  match s with
  | String c s' => if isspace c then lstrip s' else s
  | EmptyString => EmptyString
  end.

Fixpoint rstrip (s : string) : string :=
  match s with
  | EmptyString => EmptyString
  | String c s' =>
      match rstrip s' with
      | EmptyString => if isspace c then EmptyString else String c EmptyString
      | r => String c r
      end
  end.

(** [s.strip()] *)
Definition strip (s : string) : string := rstrip (lstrip s).

(** [s.replace(c, "")] for a one-character [c]. *)
Fixpoint remove_char (x : ascii) (s : string) : string :=
  match s with
  | EmptyString => EmptyString
  | String c s' =>
      if Ascii.eqb c x then remove_char x s' else String c (remove_char x s')
  end.

(** ASCII lower-casing, for case-insensitive keywords. *)
Definition lower_char (c : ascii) : ascii :=
  let n := code c in
  if ((65 <=? n) && (n <=? 90))%N then ascii_of_N (n + 32) else c.

Fixpoint lower (s : string) : string :=
  match s with
  | EmptyString => EmptyString
  | String c s' => String (lower_char c) (lower s')
  end.

(** The longest prefix of decimal digits, and the rest. *)
Fixpoint span_decimal (s : string) : string * string :=
  match s with
  | String c s' =>
      if isdecimal c
      then let '(d, r) := span_decimal s' in (String c d, r)
      else (EmptyString, s)
  | EmptyString => (EmptyString, EmptyString)
  end.

(** The number written by a string of decimal digits (0 for none). *)
Fixpoint digits_value_from (acc : N) (s : string) : N :=
  match s with
  | EmptyString => acc
  | String c s' => digits_value_from (acc * 10 + digit_val c)%N s'
  end.
Definition digits_value (s : string) : N := digits_value_from 0 s.

(** [str(n)] for a natural number: the decimal digits, no leading zero. *)
Fixpoint str_N_go (fuel : nat) (n : N) (acc : string) : string :=
  match fuel with
  | O => acc
  | S fuel' =>
      let acc' := String (digit_char (n mod 10)) acc in
      if (n <? 10)%N then acc' else str_N_go fuel' (n / 10)%N acc'
  end.
Definition str_N (n : N) : string :=
  str_N_go (S (N.to_nat (N.log2 n))) n EmptyString.

(** [str(z)] for an integer. *)
Definition str_Z (z : Z) : string :=
  if z <? 0 then String "-" (str_N (Z.abs_N z)) else str_N (Z.abs_N z).

(** ["0" * k] *)
Fixpoint zeros (k : nat) : string :=
  match k with O => EmptyString | S k' => String "0" (zeros k') end.

(** [int(s)] in base 10.  Surrounding white space is dropped, a sign may
    lead, and single underscores may separate digits.  Integers are those
    of the language, without bound: the guard of the interpreter on the
    length of the text of an integer ([sys.set_int_max_str_digits]) is
    taken as lifted, here and in [str_N]. *)
Fixpoint int_digits (prev_digit : bool) (acc : N) (s : string) : option N :=
  match s with
  | EmptyString => if prev_digit then Some acc else None
  | String c s' =>
      if isdecimal c then int_digits true (acc * 10 + digit_val c)%N s'
      else if Ascii.eqb c "_" then
        if prev_digit then int_digits false acc s' else None
      else None
  end.

Definition int (s : string) : res Z :=
  let '(neg, body) :=
    match strip s with
    | String "-" r => (true, r)
    | String "+" r => (false, r)
    | r => (false, r)
    end in
  match int_digits false 0 body with
  | Some n => Ok (if neg : bool then - Z.of_N n else Z.of_N n)
  | None => Raise ValueError
  end.

End Text.

(** ** The [decimal] module, default context *)

Module decimal.

(** A [Decimal] is a signed coefficient and an exponent, standing for
    [(-1)^sign * coef * 10^exp], or an infinity, or a NaN (quiet or
    signaling) with its diagnostic payload. *)
Inductive Decimal : Type :=
| Finite (sign : bool) (coef : N) (exp : Z)
| Infinity (sign : bool)
| NaN (sign : bool) (signaling : bool) (payload : N).

Inductive rounding : Type := ROUND_HALF_UP | ROUND_HALF_EVEN.

(** The default context. *)
Definition prec : Z := 28.
Definition Emax : Z := 999999.
Definition Emin : Z := -999999.
Definition Etiny : Z := Emin - prec + 1.
Definition Etop : Z := Emax - prec + 1.
Definition context_rounding : rounding := ROUND_HALF_EVEN.

(** The widest exponents a literal may have (the limits within which
    [Decimal(text)] is converted exactly). *)
Definition MAX_EMAX : Z := 999999999999999999.
Definition MIN_ETINY : Z := -1999999999999999997.

Definition pow10 (k : Z) : N := (10 ^ Z.to_N k)%N.

(** [len(self._int)]: the number of digits of the coefficient. *)
Definition ndigits (c : N) : Z := Z.of_nat (String.length (Text.str_N c)).

Definition adjusted (c : N) (e : Z) : Z := e + ndigits c - 1.


Definition copy_negate (d : Decimal) : Decimal :=
  match d with
  | Finite s c e => Finite (negb s) c e
  | Infinity s => Infinity (negb s)
  | NaN s g p => NaN (negb s) g p
  end.

(** [Decimal(n)] for an integer. *)
Definition of_int (z : Z) : Decimal := Finite (z <? 0) (Z.abs_N z) 0.

(** *** Construction from text *)

(** The exponent part of a literal: nothing, or [E], an optional sign and
    at least one digit, up to the end of the text. *)
Definition parse_exponent (s : string) : option Z :=
  match s with
  | EmptyString => Some 0
  | String c r =>
      if Ascii.eqb (Text.lower_char c) "e" then
        let '(neg, ds) :=
          match r with
          | String "-" r' => (true, r')
          | String "+" r' => (false, r')
          | _ => (false, r)
          end in
        if Text.nonempty ds && Text.all_decimal ds then
          let v := Z.of_N (Text.digits_value ds) in
          Some (if neg : bool then - v else v)
        else None
      else None
  end.

(** A finite literal: digits, an optional point and digits, with a digit
    on at least one side, then the exponent part. *)
Definition parse_number (sign : bool) (s : string) : option Decimal :=
  let '(intpart, r1) := Text.span_decimal s in
  let '(fracpart, r2) :=
    match r1 with
    | String "." r => Text.span_decimal r
    | _ => (EmptyString, r1)
    end in
  if Text.nonempty intpart || Text.nonempty fracpart then
    match parse_exponent r2 with
    | Some e =>
        let c := Text.digits_value (intpart +:+ fracpart) in
        let exp := e - Z.of_nat (String.length fracpart) in
        if (MIN_ETINY <=? exp)
           && (if (c =? 0)%N then exp <=? MAX_EMAX
               else adjusted c exp <=? MAX_EMAX)
        then Some (Finite sign c exp) else None
    | None => None
    end
  else None.

(** [s] with the keyword [kw] (lower case) removed from its front,
    whatever the case of the letters of [s]. *)
Fixpoint strip_keyword (kw s : string) : option string :=
  match kw, s with
  | EmptyString, _ => Some s
  | String k kw', String c s' =>
      if Ascii.eqb (Text.lower_char c) k then strip_keyword kw' s' else None
  | String _ _, EmptyString => None
  end.

Definition parse_special (sign : bool) (s : string) : option Decimal :=
  let l := Text.lower s in
  if String.eqb l "inf" || String.eqb l "infinity" then Some (Infinity sign)
  else
    match strip_keyword "nan" s with
    | Some diag =>
        if Text.all_decimal diag
        then Some (NaN sign false (Text.digits_value diag)) else None
    | None =>
        match strip_keyword "snan" s with
        | Some diag =>
            if Text.all_decimal diag
            then Some (NaN sign true (Text.digits_value diag)) else None
        | None => None
        end
    end.

(** [Decimal(text)]: white space around the literal and underscores are
    dropped; a literal that is not a number raises ConversionSyntax, a
    subclass of InvalidOperation. *)
Definition of_str (text : string) : res Decimal :=
  let s := Text.remove_char "_" (Text.strip text) in
  let '(sign, body) :=
    match s with
    | String "-" r => (true, r)
    | String "+" r => (false, r)
    | _ => (false, s)
    end in
  match body with
  | String c _ =>
      let r := if Text.isdecimal c || Ascii.eqb c "."
               then parse_number sign body else parse_special sign body in
      match r with
      | Some d => Ok d
      | None => Raise InvalidOperation
      end
  | EmptyString => Raise InvalidOperation
  end.

(** *** Rounding *)

(** Whether coefficient [c], cut by its [k] low digits, is rounded away
    from zero. *)
Definition round_up (r : rounding) (c : N) (k : Z) : bool :=
  let q := (c / pow10 k)%N in
  let rem := (c mod pow10 k)%N in
  match r with
  | ROUND_HALF_UP => (pow10 k <=? 2 * rem)%N
  | ROUND_HALF_EVEN =>
      (pow10 k <? 2 * rem)%N || ((pow10 k =? 2 * rem)%N && N.odd q)
  end.

(** [self._rescale(exp, rounding)] *)
Definition _rescale (d : Decimal) (exp : Z) (r : rounding) : Decimal :=
  match d with
  | Finite s c e =>
      if (c =? 0)%N then Finite s 0 exp
      else if exp <=? e then Finite s (c * pow10 (e - exp)) exp
      else
        (* a coefficient wholly below the quantum is replaced by the
           one digit [1] just below it before it is rounded *)
        let '(c, e) :=
          if ndigits c + e - exp <? 0 then (1%N, exp - 1) else (c, e) in
        let coeff := (c / pow10 (exp - e))%N in
        Finite s (if round_up r c (exp - e) then coeff + 1 else coeff)%N exp
  | _ => d
  end.

(** [self._fix_nan(context)]: the payload keeps its low [prec] digits. *)
Definition _fix_nan (d : Decimal) : Decimal :=
  match d with
  | NaN s g p => NaN s g (p mod pow10 prec)
  | _ => d
  end.

(** [self._fix(context)]: round to the precision of the context and check
    the exponent; Overflow is trapped. *)
Definition _fix (d : Decimal) : res Decimal :=
  match d with
  | NaN _ _ _ => Ok (_fix_nan d)
  | Infinity _ => Ok d
  | Finite s c e =>
      if (c =? 0)%N then Ok (Finite s 0 (Z.min (Z.max e Etiny) Emax))
      else
        let exp_min := ndigits c + e - prec in
        if Etop <? exp_min then Raise Overflow
        else
          let exp_min := if exp_min <? Etiny then Etiny else exp_min in
          if e <? exp_min then
            let '(c, e) :=
              if ndigits c + e - exp_min <? 0 then (1%N, exp_min - 1)
              else (c, e) in
            let coeff := (c / pow10 (exp_min - e))%N in
            let '(coeff, exp_min) :=
              if round_up context_rounding c (exp_min - e) then
                if prec <? ndigits (coeff + 1)
                then (((coeff + 1) / 10)%N, exp_min + 1)
                else ((coeff + 1)%N, exp_min)
              else (coeff, exp_min) in
            if Etop <? exp_min then Raise Overflow
            else Ok (Finite s coeff exp_min)
          else Ok d
  end.

(** [self._check_nans(other, context)]: a signaling NaN raises, a quiet
    NaN is the result; [None] when neither operand is a NaN. *)
Definition _check_nans (self other : Decimal) : option (res Decimal) :=
  match self, other with
  | NaN _ true _, _ => Some (Raise InvalidOperation)
  | _, NaN _ true _ => Some (Raise InvalidOperation)
  | NaN _ false _, _ => Some (Ok (_fix_nan self))
  | _, NaN _ false _ => Some (Ok (_fix_nan other))
  | _, _ => None
  end.

(** [self.quantize(exp, rounding=r)] *)
Definition quantize (self exp : Decimal) (r : rounding) : res Decimal :=
  match _check_nans self exp with
  | Some ans => ans
  | None =>
      match self, exp with
      | Finite s c e, Finite _ _ ee =>
          if negb ((Etiny <=? ee) && (ee <=? Emax)) then Raise InvalidOperation
          else if (c =? 0)%N then _fix (Finite s 0 ee)
          else if Emax <? adjusted c e then Raise InvalidOperation
          else if prec <? adjusted c e - ee + 1 then Raise InvalidOperation
          else
            match _rescale self ee r with
            | Finite s' c' e' =>
                if Emax <? adjusted c' e' then Raise InvalidOperation
                else if prec <? ndigits c' then Raise InvalidOperation
                else _fix (Finite s' c' e')
            | ans => Ok ans
            end
      | Infinity _, Infinity _ => Ok self
      | _, _ => Raise InvalidOperation
      end
  end.

(** *** Arithmetic *)

(** [_normalize(op1, op2, prec)]: both coefficients at one exponent; an
    operand too small to matter is replaced by a small power of ten. *)
Definition _normalize (c1 : N) (e1 : Z) (c2 : N) (e2 : Z) : N * N * Z :=
  if e1 <? e2 then
    let exp := e2 + Z.min (-1) (ndigits c2 - prec - 2) in
    let '(co, eo) :=
      if ndigits c1 + e1 - 1 <? exp then (1%N, exp) else (c1, e1) in
    (co, (c2 * pow10 (e2 - eo))%N, eo)
  else
    let exp := e1 + Z.min (-1) (ndigits c1 - prec - 2) in
    let '(co, eo) :=
      if ndigits c2 + e2 - 1 <? exp then (1%N, exp) else (c2, e2) in
    ((c1 * pow10 (e1 - eo))%N, co, eo).

(** [self + other] *)
Definition __add__ (self other : Decimal) : res Decimal :=
  match _check_nans self other with
  | Some ans => ans
  | None =>
      match self, other with
      | Infinity s1, Infinity s2 =>
          if xorb s1 s2 then Raise InvalidOperation else Ok self
      | Infinity _, _ => Ok self
      | _, Infinity _ => Ok other
      | Finite s1 c1 e1, Finite s2 c2 e2 =>
          let exp := Z.min e1 e2 in
          if (c1 =? 0)%N && (c2 =? 0)%N then _fix (Finite (s1 && s2) 0 exp)
          else if (c1 =? 0)%N then
            _fix (_rescale other (Z.max exp (e2 - prec - 1)) context_rounding)
          else if (c2 =? 0)%N then
            _fix (_rescale self (Z.max exp (e1 - prec - 1)) context_rounding)
          else
            let '(n1, n2, e) := _normalize c1 e1 c2 e2 in
            if xorb s1 s2 then
              if (n1 =? n2)%N then _fix (Finite false 0 exp)
              else if (n1 <? n2)%N then _fix (Finite s2 (n2 - n1) e)
              else _fix (Finite s1 (n1 - n2) e)
            else _fix (Finite s1 (n1 + n2) e)
      | _, _ => Ok self
      end
  end.

(** [self - other] *)
Definition __sub__ (self other : Decimal) : res Decimal :=
  match _check_nans self other with
  | Some ans => ans
  | None => __add__ self (copy_negate other)
  end.

(** [self * other] *)
Definition __mul__ (self other : Decimal) : res Decimal :=
  match _check_nans self other with
  | Some ans => ans
  | None =>
      match self, other with
      | Infinity s1, Infinity s2 => Ok (Infinity (xorb s1 s2))
      | Infinity s1, Finite s2 c2 _ =>
          if (c2 =? 0)%N then Raise InvalidOperation
          else Ok (Infinity (xorb s1 s2))
      | Finite s1 c1 _, Infinity s2 =>
          if (c1 =? 0)%N then Raise InvalidOperation
          else Ok (Infinity (xorb s1 s2))
      | Finite s1 c1 e1, Finite s2 c2 e2 =>
          _fix (Finite (xorb s1 s2) (c1 * c2) (e1 + e2))
      | _, _ => Ok self
      end
  end.

(** The loop of [__truediv__] on an exact quotient: drop trailing zeros
    while the exponent is below the ideal one. *)
Fixpoint strip_to_ideal (fuel : nat) (coeff : N) (exp ideal : Z) : N * Z :=
  match fuel with
  | O => (coeff, exp)
  | S fuel' =>
      if (exp <? ideal) && (coeff mod 10 =? 0)%N
      then strip_to_ideal fuel' (coeff / 10)%N (exp + 1) ideal
      else (coeff, exp)
  end.

(** [self / other] *)
Definition __truediv__ (self other : Decimal) : res Decimal :=
  match _check_nans self other with
  | Some ans => ans
  | None =>
      match self, other with
      | Infinity _, Infinity _ => Raise InvalidOperation
      | Infinity s1, Finite s2 _ _ => Ok (Infinity (xorb s1 s2))
      | Finite s1 _ _, Infinity s2 => Ok (Finite (xorb s1 s2) 0 Etiny)
      | Finite s1 c1 e1, Finite s2 c2 e2 =>
          let sign := xorb s1 s2 in
          if (c2 =? 0)%N then
            if (c1 =? 0)%N then Raise InvalidOperation
            else Raise DivisionByZero
          else if (c1 =? 0)%N then _fix (Finite sign 0 (e1 - e2))
          else
            let shift := ndigits c2 - ndigits c1 + prec + 1 in
            let exp := e1 - e2 - shift in
            let '(coeff, remainder) :=
              if 0 <=? shift
              then ((c1 * pow10 shift) / c2, (c1 * pow10 shift) mod c2)%N
              else (c1 / (c2 * pow10 (- shift)),
                    c1 mod (c2 * pow10 (- shift)))%N in
            if (remainder =? 0)%N then
              let '(coeff, exp) :=
                strip_to_ideal (Z.to_nat (e1 - e2 - exp)) coeff exp (e1 - e2) in
              _fix (Finite sign coeff exp)
            else
              _fix (Finite sign
                      (if (coeff mod 5 =? 0)%N then coeff + 1 else coeff)%N exp)
      | _, _ => Ok self
      end
  end.

(** [sum(ds)]: the additions start from the integer 0. *)
Definition sum (ds : list Decimal) : res Decimal :=
  match ds with
  | [] => Ok (of_int 0)
  | d :: ds' =>
      first ← __add__ d (of_int 0);
      foldl (fun acc x => a ← acc; __add__ a x) (Ok first) ds'
  end.

(** *** Comparison *)

(** [self._cmp(other)] for operands that are not NaN. *)
Definition _cmp (self other : Decimal) : comparison :=
  match self, other with
  | Finite s1 c1 e1, Finite s2 c2 e2 =>
      if (c1 =? 0)%N then
        if (c2 =? 0)%N then Eq else if s2 then Gt else Lt
      else if (c2 =? 0)%N then (if s1 then Lt else Gt)
      else if s1 && negb s2 then Lt
      else if negb s1 && s2 then Gt
      else
        let a1 := adjusted c1 e1 in
        let a2 := adjusted c2 e2 in
        let magnitude :=
          if a1 =? a2 then
            (c1 * pow10 (e1 - e2) ?= c2 * pow10 (e2 - e1))%N
          else if a2 <? a1 then Gt else Lt in
        if s1 then CompOpp magnitude else magnitude
  | Infinity s1, Infinity s2 =>
      if eqb s1 s2 then Eq else if s1 then Lt else Gt
  | Infinity s1, _ => if s1 then Lt else Gt
  | _, Infinity s2 => if s2 then Gt else Lt
  | _, _ => Eq
  end.

Definition is_nan (d : Decimal) : bool :=
  match d with NaN _ _ _ => true | _ => false end.

(** [self <= other] and [self < other]: a NaN operand raises. *)
Definition __le__ (self other : Decimal) : res bool :=
  if is_nan self || is_nan other then Raise InvalidOperation
  else Ok (match _cmp self other with Gt => false | _ => true end).

Definition __lt__ (self other : Decimal) : res bool :=
  if is_nan self || is_nan other then Raise InvalidOperation
  else Ok (match _cmp self other with Lt => true | _ => false end).

(** *** Text of a number *)

Fixpoint take (n : nat) (s : string) : string :=
  match n, s with
  | S n', String c s' => String c (take n' s')
  | _, _ => EmptyString
  end.

Fixpoint drop (n : nat) (s : string) : string :=
  match n, s with
  | S n', String _ s' => drop n' s'
  | _, _ => s
  end.

(** The payload of a NaN as text: nothing for payload 0. *)
Definition payload_str (p : N) : string :=
  if (p =? 0)%N then EmptyString else Text.str_N p.

(** ["%+d" % z] *)
Definition str_signed (z : Z) : string :=
  if z <? 0 then Text.str_Z z else String "+" (Text.str_Z z).

(** [str(self)]: scientific notation, capitals. *)
Definition __str__ (d : Decimal) : string :=
  match d with
  | Infinity s => (if s then "-" else "") +:+ "Infinity"
  | NaN s g p =>
      (if s then "-" else "") +:+ (if g then "sNaN" else "NaN") +:+ payload_str p
  | Finite s c e =>
      let digits := Text.str_N c in
      let len := Z.of_nat (String.length digits) in
      let leftdigits := e + len in
      let dotplace := if (e <=? 0) && (-6 <? leftdigits) then leftdigits else 1 in
      let intpart :=
        if dotplace <=? 0 then "0"
        else if len <=? dotplace
             then digits +:+ Text.zeros (Z.to_nat (dotplace - len))
             else take (Z.to_nat dotplace) digits in
      let fracpart :=
        if dotplace <=? 0
        then String "." (Text.zeros (Z.to_nat (- dotplace)) +:+ digits)
        else if len <=? dotplace then ""
             else String "." (drop (Z.to_nat dotplace) digits) in
      let exp :=
        if leftdigits =? dotplace then ""
        else String "E" (str_signed (leftdigits - dotplace)) in
      (if s then "-" else "") +:+ intpart +:+ fracpart +:+ exp
  end.

(** The loop of [normalize]: drop trailing zeros of the coefficient. *)
Fixpoint strip_zeros (fuel : nat) (coeff : N) (exp : Z) : N * Z :=
  match fuel with
  | O => (coeff, exp)
  | S fuel' =>
      if (coeff mod 10 =? 0)%N && (exp <? Emax)
      then strip_zeros fuel' (coeff / 10)%N (exp + 1)
      else (coeff, exp)
  end.

(** [self.normalize()] *)
Definition normalize (d : Decimal) : res Decimal :=
  match d with
  | NaN _ true _ => Raise InvalidOperation
  | NaN _ false _ => Ok (_fix_nan d)
  | _ =>
      dup ← _fix d;
      match dup with
      | Finite s c e =>
          if (c =? 0)%N then Ok (Finite s 0 0)
          else
            let '(c', e') := strip_zeros (Z.to_nat (ndigits c)) c e in
            Ok (Finite s c' e')
      | _ => Ok dup
      end
  end.

(** Digits in groups of three from the right, separated by [sep];
    [rev_digits] is the digit string reversed and [room] the number of
    digits the current group can still take. *)
Fixpoint group_rev (sep : string) (room : nat) (rev_digits : string) : string :=
  match rev_digits with
  | EmptyString => EmptyString
  | String c r =>
      match room with
      | O => (sep +:+ String c (group_rev sep 2 r))
      | S room' => String c (group_rev sep room' r)
      end
  end.

(** [_insert_thousands_sep(digits, spec)] for groups of three, a
    separator of at most one character and no minimum width. *)
Definition _insert_thousands_sep (sep : string) (digits : string) : string :=
  String.rev (group_rev sep 3 (String.rev digits)).

(** [format(self, ".2f")] and, with [sep] a comma, [format(self, ",.2f")]. *)
Definition format_2f (sep : string) (d : Decimal) : string :=
  match d with
  | Finite _ _ _ =>
      match _rescale d (-2) context_rounding with
      | Finite s c e =>
          let digits := Text.str_N c in
          let len := Z.of_nat (String.length digits) in
          let dotplace := e + len in
          let intpart :=
            if dotplace <? 0 then "0"
            else match take (Z.to_nat dotplace) digits with
                 | EmptyString => "0"
                 | i => i
                 end in
          let fracpart :=
            if dotplace <? 0
            then Text.zeros (Z.to_nat (- dotplace)) +:+ digits
            else drop (Z.to_nat dotplace) digits in
          (if s then "-" else "") +:+ _insert_thousands_sep sep intpart
            +:+ "." +:+ fracpart
      | other => __str__ other
      end
  | _ => __str__ d
  end.

End decimal.

(** ** Files *)

(** The file a path names: no such file, a file that [open] cannot read or
    write, or the text of the file. *)
Inductive file : Type :=
| Absent
| Unreadable
| Content (text : string).

(** [os.path.exists] *)
Definition exists_ (f : file) : bool :=
  match f with Absent => false | _ => true end.

(** ** The [csv] module, default dialect ([excel]) *)

Module csv.

Definition delimiter : ascii := ",".
Definition quotechar : ascii := "034".
Definition CR : ascii := "013".
Definition LF : ascii := "010".
Definition lineterminator : string := String CR (String LF EmptyString).
Definition field_limit : N := 131072.

(** *** Writer *)

(** A character that makes the writer quote the field: the delimiter, the
    quote character, or a character of the line terminator. *)
Definition special (c : ascii) : bool :=
  Ascii.eqb c delimiter || Ascii.eqb c quotechar
  || Ascii.eqb c CR || Ascii.eqb c LF.

Fixpoint has_special (s : string) : bool :=
  match s with
  | EmptyString => false
  | String c s' => special c || has_special s'
  end.

(** The field with each quote character doubled. *)
Fixpoint double_quotes (s : string) : string :=
  match s with
  | EmptyString => EmptyString
  | String c s' =>
      if Ascii.eqb c quotechar
      then String quotechar (String quotechar (double_quotes s'))
      else String c (double_quotes s')
  end.

(** One field as the writer puts it in the record (QUOTE_MINIMAL). *)
Definition join_append (field : string) : string :=
  if has_special field
  then String quotechar (double_quotes field +:+ String quotechar EmptyString)
  else field.

Fixpoint join_fields (fields : list string) : string :=
  match fields with
  | [] => EmptyString
  | [f] => join_append f
  | f :: fs => join_append f +:+ String delimiter (join_fields fs)
  end.

(** The text [writer.writerow(fields)] writes.  A record of one empty
    field is written as a pair of quotes. *)
Definition writerow (fields : list string) : string :=
  match fields with
  | [EmptyString] => String quotechar (String quotechar lineterminator)
  | _ => join_fields fields +:+ lineterminator
  end.

(** *** Text files opened for reading *)

(** Reading a file opened in text mode without [newline=""] turns each of
    CR LF and CR into LF. *)
Fixpoint universal_newlines (s : string) : string :=
  match s with
  | EmptyString => EmptyString
  | String c r =>
      if Ascii.eqb c CR then
        match r with
        | String c' r' =>
            if Ascii.eqb c' LF then String LF (universal_newlines r')
            else String LF (universal_newlines r)
        | EmptyString => String LF EmptyString
        end
      else String c (universal_newlines r)
  end.

(** The lines a text file yields: each ends with its LF, the last one
    possibly without. *)
Fixpoint lines_from (cur : list ascii) (s : string) : list string :=
  match s with
  | EmptyString =>
      match cur with
      | [] => []
      | _ => [string_of_list_ascii (rev cur)]
      end
  | String c r =>
      if Ascii.eqb c LF
      then string_of_list_ascii (rev (c :: cur)) :: lines_from [] r
      else lines_from (c :: cur) r
  end.
Definition lines (s : string) : list string := lines_from [] s.

(** *** Reader *)

(** The states of the parser that the default dialect can reach (it has
    no escape character). *)
Inductive ParserState : Type :=
| START_RECORD | START_FIELD | IN_FIELD | IN_QUOTED_FIELD
| QUOTE_IN_QUOTED_FIELD | EAT_CRNL.

(** The parser: its state, the field being read (last character first)
    with its length, and the fields of the record read so far. *)
Record Reader : Type := mkReader {
  state : ParserState;
  field : list ascii;
  field_len : N;
  fields : list string
}.

Definition parse_reset : Reader := mkReader START_RECORD [] 0 [].

Definition set_state (r : Reader) (st : ParserState) : Reader :=
  mkReader st (field r) (field_len r) (fields r).

Definition parse_add_char (r : Reader) (c : ascii) : res Reader :=
  if (field_limit <=? field_len r)%N then Raise CsvError
  else Ok (mkReader (state r) (c :: field r) (field_len r + 1) (fields r)).

Definition parse_save_field (r : Reader) : Reader :=
  mkReader (state r) [] 0
    (fields r ++ [string_of_list_ascii (rev (field r))]).

Definition is_newline (c : ascii) : bool := Ascii.eqb c LF || Ascii.eqb c CR.

(** One step of the parser; [None] is the end-of-line mark the reader
    feeds after each line. *)
Definition parse_process_char (r : Reader) (c : option ascii) : res Reader :=
  let start_field (r : Reader) : res Reader :=
    match c with
    | None => Ok (set_state (parse_save_field r) START_RECORD)
    | Some ch =>
        if is_newline ch then Ok (set_state (parse_save_field r) EAT_CRNL)
        else if Ascii.eqb ch quotechar then Ok (set_state r IN_QUOTED_FIELD)
        else if Ascii.eqb ch delimiter then Ok (parse_save_field r)
        else parse_add_char (set_state r IN_FIELD) ch
    end in
  match state r with
  | START_RECORD =>
      match c with
      | None => Ok r
      | Some ch =>
          if is_newline ch then Ok (set_state r EAT_CRNL)
          else start_field (set_state r START_FIELD)
      end
  | START_FIELD => start_field r
  | IN_FIELD =>
      match c with
      | None => Ok (set_state (parse_save_field r) START_RECORD)
      | Some ch =>
          if is_newline ch then Ok (set_state (parse_save_field r) EAT_CRNL)
          else if Ascii.eqb ch delimiter
          then Ok (set_state (parse_save_field r) START_FIELD)
          else parse_add_char r ch
      end
  | IN_QUOTED_FIELD =>
      match c with
      | None => Ok r
      | Some ch =>
          if Ascii.eqb ch quotechar then Ok (set_state r QUOTE_IN_QUOTED_FIELD)
          else parse_add_char r ch
      end
  | QUOTE_IN_QUOTED_FIELD =>
      match c with
      | None => Ok (set_state (parse_save_field r) START_RECORD)
      | Some ch =>
          if Ascii.eqb ch quotechar
          then parse_add_char (set_state r IN_QUOTED_FIELD) ch
          else if Ascii.eqb ch delimiter
          then Ok (set_state (parse_save_field r) START_FIELD)
          else if is_newline ch
          then Ok (set_state (parse_save_field r) EAT_CRNL)
          else parse_add_char (set_state r IN_FIELD) ch
      end
  | EAT_CRNL =>
      match c with
      | None => Ok (set_state r START_RECORD)
      | Some ch => if is_newline ch then Ok r else Raise CsvError
      end
  end.

(** The characters of a line, then the end-of-line mark. *)
Fixpoint parse_chars (r : Reader) (s : string) : res Reader :=
  match s with
  | EmptyString => Ok r
  | String c s' => r' ← parse_process_char r (Some c); parse_chars r' s'
  end.

Definition parse_line (r : Reader) (line : string) : res Reader :=
  r' ← parse_chars r line; parse_process_char r' None.

(** What iterating over a reader gives: the records read, and the
    exception that ended the iteration, if one did. *)
Definition rows : Type := list (list string) * option exn.

Definition yield (row : list string) (rest : rows) : rows :=
  (row :: rest.1, rest.2).

(** The records of the lines left, the parser being at [r] inside a
    record ([parse_reset] between records). *)
Fixpoint reader_from (r : Reader) (lines : list string) : rows :=
  match lines with
  | [] =>
      if negb (field_len r =? 0)%N
         || match state r with IN_QUOTED_FIELD => true | _ => false end
      then ([fields (parse_save_field r)], None)
      else ([], None)
  | line :: rest =>
      match parse_line r line with
      | Raise e => ([], Some e)
      | Ok r' =>
          match state r' with
          | START_RECORD => yield (fields r') (reader_from parse_reset rest)
          | _ => reader_from r' rest
          end
      end
  end.

(** [csv.reader(f)] iterated to its end, [f] a file opened for reading
    in text mode with this text. *)
Definition reader (text : string) : rows :=
  reader_from parse_reset (lines (universal_newlines text)).

(** *** DictReader *)

(** A row of a DictReader: the dict of the named fields, a field missing
    from a short row being [None], and under the key [None] the fields a
    long row has beyond the names. *)
Record DictRow : Type := mkDictRow {
  named : gmap string (option string);
  rest : list string
}.

(** [dict(zip(fieldnames, row))] *)
Fixpoint dict_zip (fieldnames row : list string)
    (d : gmap string (option string)) : gmap string (option string) :=
  match fieldnames, row with
  | k :: ks, v :: vs => dict_zip ks vs (<[k := Some v]> d)
  | _, _ => d
  end.

Definition dict_row (fieldnames row : list string) : DictRow :=
  let d := dict_zip fieldnames row ∅ in
  let lr := length row in
  mkDictRow
    (foldl (fun d k => <[k := None]> d) d (drop lr fieldnames))
    (drop (length fieldnames) row).

(** [row.get(key, "")]: the value may be [None]. *)
Definition get (row : DictRow) (key : string) (default : string) : option string :=
  match named row !! key with
  | Some v => v
  | None => Some default
  end.

(** [csv.DictReader(f)] iterated to its end: the first record gives the
    names, and empty records are skipped after it. *)
Definition DictReader (text : string) : list DictRow * option exn :=
  match reader text with
  | ([], e) => ([], e)
  | (fieldnames :: records, e) =>
      (dict_row fieldnames <$>
         filter (fun row => row ≠ []) records, e)
  end.

End csv.

(** ** The clock *)

Module datetime.

(** What [datetime.datetime.now()] returns, to the second. *)
Record datetime : Type := mkDatetime {
  year : N; month : N; day : N; hour : N; minute : N; second : N
}.

(** A field printed on two digits. *)
Definition pad2 (n : N) : string :=
  if (n <? 10)%N then String "0" (Text.str_N n) else Text.str_N n.

(** [now.strftime("%Y%m%d%H%M%S")]; the year is printed as the C library
    does, on as many digits as it has. *)
Definition strftime_compact (now : datetime) : string :=
  Text.str_N (year now) +:+ pad2 (month now) +:+ pad2 (day now)
    +:+ pad2 (hour now) +:+ pad2 (minute now) +:+ pad2 (second now).

(** [now.strftime("%Y-%m-%d %H:%M:%S")] *)
Definition strftime_iso (now : datetime) : string :=
  Text.str_N (year now) +:+ "-" +:+ pad2 (month now) +:+ "-" +:+ pad2 (day now)
    +:+ " " +:+ pad2 (hour now) +:+ ":" +:+ pad2 (minute now)
    +:+ ":" +:+ pad2 (second now).

End datetime.

(** ** Values shared by the two applications *)

(** [os.path.join(folder, fname)] for a non-empty [folder] and a relative
    [fname], with the separator of POSIX. *)
Fixpoint ends_with_slash (s : string) : bool :=
  match s with
  | EmptyString => false
  | String c EmptyString => Ascii.eqb c "/"
  | String _ s' => ends_with_slash s'
  end.

Definition path_join (folder fname : string) : string :=
  if ends_with_slash folder then folder +:+ fname else folder +:+ "/" +:+ fname.


(** The argument of [D]: text read from a widget, or a Decimal. *)
Inductive pyval : Type :=
| VStr (s : string)
| VDec (d : decimal.Decimal).

(** [str(v)] *)
Definition str (v : pyval) : string :=
  match v with
  | VStr s => s
  | VDec d => decimal.__str__ d
  end.

(** The constants the programs write as [Decimal("...")]. *)
Definition Decimal_0 : decimal.Decimal := decimal.Finite false 0 0.
Definition Decimal_0_00 : decimal.Decimal := decimal.Finite false 0 (-2).
Definition Decimal_0_01 : decimal.Decimal := decimal.Finite false 1 (-2).
Definition Decimal_100 : decimal.Decimal := decimal.Finite false 100 0.

(** One entry of [self.items]: the dict with keys name, qty, price, total. *)
Record Item : Type := mkItem {
  name : string;
  qty : decimal.Decimal;
  price : decimal.Decimal;
  total : decimal.Decimal
}.

(** One row of the item table: the four values shown. *)
Record TreeRow : Type := mkTreeRow {
  col_item : string;
  col_qty : string;
  col_price : string;
  col_total : string
}.

(** A message box.  [cause] is the exception whose text ends the message,
    for the messages that report one. *)
Inductive MessageKind : Type := showwarning | showinfo | showerror.

Record Message : Type := mkMessage {
  kind : MessageKind;
  title : string;
  text : string;
  cause : option exn
}.

(** The values of the locals of [_recalc_totals] when it completes. *)
Record Totals : Type := mkTotals {
  subtotal : decimal.Decimal;
  discount_pct_value : decimal.Decimal;
  discount_amt : decimal.Decimal;
  tax_pct_value : decimal.Decimal;
  taxable : decimal.Decimal;
  tax_amt : decimal.Decimal;
  grand : decimal.Decimal
}.

(** One row of the history table: nine values, [None] where the record
    read back has no such field. *)
Definition HistoryRow : Type := list (option string).

(** ** IEEE_BILLING.py *)

Module IEEE.

Import decimal.

(** [D(v)]: the conversion is guarded, the rounding is not. *)
Definition D (v : pyval) : res Decimal :=
  d ← match of_str (str v) with
       | Raise InvalidOperation | Raise ValueError => Ok Decimal_0
       | r => r
       end;
  quantize d Decimal_0_01 ROUND_HALF_UP.

(** [fmt_money(d)] *)
Definition fmt_money (d : pyval) : res string :=
  x ← D d; Ok (format_2f "," x).

(** The application object.  [master_db] is the file that
    [self.master_db_file] names, [written] the files [save_csv] wrote (path
    and text, last one last), [messages] the message boxes shown (last one
    last), and [history_tree] the rows of [self.history_tree] once the
    history window has been opened. *)
Record BillingApp : Type := mkApp {
  chair_name : string;
  chair_position : string;
  recipient_name : string;
  recipient_phone : string;
  item_name : string;
  item_qty : string;
  item_price : string;
  discount_pct : string;
  tax_pct : string;
  items : list Item;
  master_db : file;
  invoice_no_var : string;
  date_var : string;
  tree : list TreeRow;
  subtotal_var : string;
  discount_amt_var : string;
  tax_amt_var : string;
  grand_total_var : string;
  history_tree : option (list HistoryRow);
  written : list (string * string);
  messages : list Message
}.

Definition set_chair_name (v : string) (a : BillingApp) : BillingApp :=
    mkApp v (chair_position a) (recipient_name a) (recipient_phone a)
      (item_name a) (item_qty a) (item_price a) (discount_pct a) (tax_pct a)
      (items a) (master_db a) (invoice_no_var a) (date_var a) (tree a)
      (subtotal_var a) (discount_amt_var a) (tax_amt_var a)
      (grand_total_var a) (history_tree a) (written a) (messages a).
Definition set_chair_position (v : string) (a : BillingApp) : BillingApp :=
    mkApp (chair_name a) v (recipient_name a) (recipient_phone a)
      (item_name a) (item_qty a) (item_price a) (discount_pct a) (tax_pct a)
      (items a) (master_db a) (invoice_no_var a) (date_var a) (tree a)
      (subtotal_var a) (discount_amt_var a) (tax_amt_var a)
      (grand_total_var a) (history_tree a) (written a) (messages a).
Definition set_recipient_name (v : string) (a : BillingApp) : BillingApp :=
    mkApp (chair_name a) (chair_position a) v (recipient_phone a)
      (item_name a) (item_qty a) (item_price a) (discount_pct a) (tax_pct a)
      (items a) (master_db a) (invoice_no_var a) (date_var a) (tree a)
      (subtotal_var a) (discount_amt_var a) (tax_amt_var a)
      (grand_total_var a) (history_tree a) (written a) (messages a).
Definition set_recipient_phone (v : string) (a : BillingApp) : BillingApp :=
    mkApp (chair_name a) (chair_position a) (recipient_name a) v
      (item_name a) (item_qty a) (item_price a) (discount_pct a) (tax_pct a)
      (items a) (master_db a) (invoice_no_var a) (date_var a) (tree a)
      (subtotal_var a) (discount_amt_var a) (tax_amt_var a)
      (grand_total_var a) (history_tree a) (written a) (messages a).
Definition set_item_name (v : string) (a : BillingApp) : BillingApp :=
    mkApp (chair_name a) (chair_position a) (recipient_name a)
      (recipient_phone a) v (item_qty a) (item_price a) (discount_pct a)
      (tax_pct a) (items a) (master_db a) (invoice_no_var a) (date_var a)
      (tree a) (subtotal_var a) (discount_amt_var a) (tax_amt_var a)
      (grand_total_var a) (history_tree a) (written a) (messages a).
Definition set_item_qty (v : string) (a : BillingApp) : BillingApp :=
    mkApp (chair_name a) (chair_position a) (recipient_name a)
      (recipient_phone a) (item_name a) v (item_price a) (discount_pct a)
      (tax_pct a) (items a) (master_db a) (invoice_no_var a) (date_var a)
      (tree a) (subtotal_var a) (discount_amt_var a) (tax_amt_var a)
      (grand_total_var a) (history_tree a) (written a) (messages a).
Definition set_item_price (v : string) (a : BillingApp) : BillingApp :=
    mkApp (chair_name a) (chair_position a) (recipient_name a)
      (recipient_phone a) (item_name a) (item_qty a) v (discount_pct a)
      (tax_pct a) (items a) (master_db a) (invoice_no_var a) (date_var a)
      (tree a) (subtotal_var a) (discount_amt_var a) (tax_amt_var a)
      (grand_total_var a) (history_tree a) (written a) (messages a).
Definition set_discount_pct (v : string) (a : BillingApp) : BillingApp :=
    mkApp (chair_name a) (chair_position a) (recipient_name a)
      (recipient_phone a) (item_name a) (item_qty a) (item_price a) v
      (tax_pct a) (items a) (master_db a) (invoice_no_var a) (date_var a)
      (tree a) (subtotal_var a) (discount_amt_var a) (tax_amt_var a)
      (grand_total_var a) (history_tree a) (written a) (messages a).
Definition set_tax_pct (v : string) (a : BillingApp) : BillingApp :=
    mkApp (chair_name a) (chair_position a) (recipient_name a)
      (recipient_phone a) (item_name a) (item_qty a) (item_price a)
      (discount_pct a) v (items a) (master_db a) (invoice_no_var a)
      (date_var a) (tree a) (subtotal_var a) (discount_amt_var a)
      (tax_amt_var a) (grand_total_var a) (history_tree a) (written a)
      (messages a).
Definition set_items (v : list Item) (a : BillingApp) : BillingApp :=
    mkApp (chair_name a) (chair_position a) (recipient_name a)
      (recipient_phone a) (item_name a) (item_qty a) (item_price a)
      (discount_pct a) (tax_pct a) v (master_db a) (invoice_no_var a)
      (date_var a) (tree a) (subtotal_var a) (discount_amt_var a)
      (tax_amt_var a) (grand_total_var a) (history_tree a) (written a)
      (messages a).
Definition set_master_db (v : file) (a : BillingApp) : BillingApp :=
    mkApp (chair_name a) (chair_position a) (recipient_name a)
      (recipient_phone a) (item_name a) (item_qty a) (item_price a)
      (discount_pct a) (tax_pct a) (items a) v (invoice_no_var a)
      (date_var a) (tree a) (subtotal_var a) (discount_amt_var a)
      (tax_amt_var a) (grand_total_var a) (history_tree a) (written a)
      (messages a).
Definition set_invoice_no_var (v : string) (a : BillingApp) : BillingApp :=
    mkApp (chair_name a) (chair_position a) (recipient_name a)
      (recipient_phone a) (item_name a) (item_qty a) (item_price a)
      (discount_pct a) (tax_pct a) (items a) (master_db a) v (date_var a)
      (tree a) (subtotal_var a) (discount_amt_var a) (tax_amt_var a)
      (grand_total_var a) (history_tree a) (written a) (messages a).
Definition set_date_var (v : string) (a : BillingApp) : BillingApp :=
    mkApp (chair_name a) (chair_position a) (recipient_name a)
      (recipient_phone a) (item_name a) (item_qty a) (item_price a)
      (discount_pct a) (tax_pct a) (items a) (master_db a)
      (invoice_no_var a) v (tree a) (subtotal_var a) (discount_amt_var a)
      (tax_amt_var a) (grand_total_var a) (history_tree a) (written a)
      (messages a).
Definition set_tree (v : list TreeRow) (a : BillingApp) : BillingApp :=
    mkApp (chair_name a) (chair_position a) (recipient_name a)
      (recipient_phone a) (item_name a) (item_qty a) (item_price a)
      (discount_pct a) (tax_pct a) (items a) (master_db a)
      (invoice_no_var a) (date_var a) v (subtotal_var a)
      (discount_amt_var a) (tax_amt_var a) (grand_total_var a)
      (history_tree a) (written a) (messages a).
Definition set_subtotal_var (v : string) (a : BillingApp) : BillingApp :=
    mkApp (chair_name a) (chair_position a) (recipient_name a)
      (recipient_phone a) (item_name a) (item_qty a) (item_price a)
      (discount_pct a) (tax_pct a) (items a) (master_db a)
      (invoice_no_var a) (date_var a) (tree a) v (discount_amt_var a)
      (tax_amt_var a) (grand_total_var a) (history_tree a) (written a)
      (messages a).
Definition set_discount_amt_var (v : string) (a : BillingApp) : BillingApp :=
    mkApp (chair_name a) (chair_position a) (recipient_name a)
      (recipient_phone a) (item_name a) (item_qty a) (item_price a)
      (discount_pct a) (tax_pct a) (items a) (master_db a)
      (invoice_no_var a) (date_var a) (tree a) (subtotal_var a) v
      (tax_amt_var a) (grand_total_var a) (history_tree a) (written a)
      (messages a).
Definition set_tax_amt_var (v : string) (a : BillingApp) : BillingApp :=
    mkApp (chair_name a) (chair_position a) (recipient_name a)
      (recipient_phone a) (item_name a) (item_qty a) (item_price a)
      (discount_pct a) (tax_pct a) (items a) (master_db a)
      (invoice_no_var a) (date_var a) (tree a) (subtotal_var a)
      (discount_amt_var a) v (grand_total_var a) (history_tree a)
      (written a) (messages a).
Definition set_grand_total_var (v : string) (a : BillingApp) : BillingApp :=
    mkApp (chair_name a) (chair_position a) (recipient_name a)
      (recipient_phone a) (item_name a) (item_qty a) (item_price a)
      (discount_pct a) (tax_pct a) (items a) (master_db a)
      (invoice_no_var a) (date_var a) (tree a) (subtotal_var a)
      (discount_amt_var a) (tax_amt_var a) v (history_tree a) (written a)
      (messages a).
Definition set_history_tree (v : option (list HistoryRow)) (a : BillingApp) : BillingApp :=
    mkApp (chair_name a) (chair_position a) (recipient_name a)
      (recipient_phone a) (item_name a) (item_qty a) (item_price a)
      (discount_pct a) (tax_pct a) (items a) (master_db a)
      (invoice_no_var a) (date_var a) (tree a) (subtotal_var a)
      (discount_amt_var a) (tax_amt_var a) (grand_total_var a) v (written a)
      (messages a).
Definition set_written (v : list (string * string)) (a : BillingApp) : BillingApp :=
    mkApp (chair_name a) (chair_position a) (recipient_name a)
      (recipient_phone a) (item_name a) (item_qty a) (item_price a)
      (discount_pct a) (tax_pct a) (items a) (master_db a)
      (invoice_no_var a) (date_var a) (tree a) (subtotal_var a)
      (discount_amt_var a) (tax_amt_var a) (grand_total_var a)
      (history_tree a) v (messages a).
Definition set_messages (v : list Message) (a : BillingApp) : BillingApp :=
    mkApp (chair_name a) (chair_position a) (recipient_name a)
      (recipient_phone a) (item_name a) (item_qty a) (item_price a)
      (discount_pct a) (tax_pct a) (items a) (master_db a)
      (invoice_no_var a) (date_var a) (tree a) (subtotal_var a)
      (discount_amt_var a) (tax_amt_var a) (grand_total_var a)
      (history_tree a) (written a) v.

Definition messagebox (k : MessageKind) (title text : string)
    : M BillingApp unit :=
  modify (fun a => set_messages (messages a ++ [mkMessage k title text None]) a).

Definition messagebox_exn (k : MessageKind) (title text : string) (e : exn)
    : M BillingApp unit :=
  modify (fun a => set_messages (messages a ++ [mkMessage k title text (Some e)]) a).

(** [_gen_invoice_no]: the next number after the last one of the master
    database, the time stamp of [now] when that one is not a number, and
    ["1"] when there is none or the database cannot be read. *)
Definition _gen_invoice_no (db : file) (now : datetime.datetime) : string :=
  match db with
  | Absent => "1"
  | Unreadable => "1"
  | Content text =>
      match csv.DictReader text with
      | (_, Some _) => "1"
      | (rows, None) =>
          let last_invoice :=
            foldl (fun _ row => Some (csv.get row "Invoice No" "")) None rows in
          match last_invoice with
          | Some (Some last) =>
              if Text.nonempty last then
                if Text.isdigit last then
                  match Text.int last with
                  | Ok n => Text.str_Z (n + 1)
                  | Raise ValueError => datetime.strftime_compact now
                  | Raise _ => "1"
                  end
                else datetime.strftime_compact now
              else "1"
          | _ => "1"
          end
      end
  end.

Definition clear_item_fields : M BillingApp unit :=
  modify (set_item_name "");;
  modify (set_item_qty "1");;
  modify (set_item_price "0.00").

(** [_recalc_totals]; it returns the values of its locals. *)
Definition _recalc_totals : M BillingApp Totals :=
  its ← gets items;
  subtotal ← lift (match its with
                   | [] => Ok Decimal_0_00
                   | _ => sum (total <$> its)
                   end);
  shown ← lift (fmt_money (VDec subtotal));
  modify (set_subtotal_var shown);;
  pct_text ← gets discount_pct;
  let discount_pct :=
    match D (VStr pct_text) with Ok d => d | Raise _ => Decimal_0 end in
  discount_amt ← lift (p ← __mul__ subtotal discount_pct;
                       q ← __truediv__ p Decimal_100;
                       quantize q Decimal_0_01 ROUND_HALF_UP);
  shown ← lift (fmt_money (VDec discount_amt));
  modify (set_discount_amt_var shown);;
  pct_text ← gets tax_pct;
  let tax_pct :=
    match D (VStr pct_text) with Ok d => d | Raise _ => Decimal_0 end in
  taxable ← lift (d ← __sub__ subtotal discount_amt;
                  quantize d Decimal_0_01 ROUND_HALF_UP);
  tax_amt ← lift (p ← __mul__ taxable tax_pct;
                  q ← __truediv__ p Decimal_100;
                  quantize q Decimal_0_01 ROUND_HALF_UP);
  shown ← lift (fmt_money (VDec tax_amt));
  modify (set_tax_amt_var shown);;
  grand ← lift (s ← __add__ taxable tax_amt;
                quantize s Decimal_0_01 ROUND_HALF_UP);
  shown ← lift (fmt_money (VDec grand));
  modify (set_grand_total_var shown);;
  mret (mkTotals subtotal discount_pct discount_amt tax_pct taxable tax_amt grand).

(** [add_item] *)
Definition add_item : M BillingApp unit :=
  raw ← gets item_name;
  let name := Text.strip raw in
  if negb (Text.nonempty name) then
    messagebox showwarning "Validation" "Item name cannot be empty."
  else
    qty_text ← gets item_qty;
    price_text ← gets item_price;
    match (qty ← D (VStr qty_text); price ← D (VStr price_text); Ok (qty, price)) with
    | Raise _ =>
        messagebox showwarning "Validation" "Quantity and price must be numeric."
    | Ok (qty, price) =>
        nonpositive ← lift (__le__ qty (of_int 0));
        if nonpositive : bool then
          messagebox showwarning "Validation" "Quantity must be greater than 0."
        else
          negative ← lift (__lt__ price (of_int 0));
          if negative : bool then
            messagebox showwarning "Validation" "Price cannot be negative."
          else
            total ← lift (p ← __mul__ qty price;
                          quantize p Decimal_0_01 ROUND_HALF_UP);
            modify (fun a => set_items (items a ++ [mkItem name qty price total]) a);;
            shown_qty ← lift (normalize qty);
            modify (fun a =>
              set_tree (tree a ++ [mkTreeRow name (__str__ shown_qty)
                                     (format_2f "" price) (format_2f "" total)]) a);;
            clear_item_fields;;
            _recalc_totals;;
            mret tt
    end.

(** [remove_selected_item]; [sel] is the position of the selected row of
    the item table, if one is selected.  A position that names no row
    stands for an item the table does not have. *)
Definition remove_selected_item (sel : option nat) : M BillingApp unit :=
  match sel with
  | None => messagebox showinfo "Info" "No item selected."
  | Some idx =>
      rows ← gets tree;
      if decide (idx < length rows)%nat then
        modify (fun a => set_tree (delete idx (tree a)) a);;
        (* del self.items[idx], an IndexError being passed over *)
        modify (fun a => set_items (delete idx (items a)) a);;
        _recalc_totals;;
        mret tt
      else lift (Raise TclError)
  end.

(** The user, or the program, writes the discount or tax percentage: the
    trace on the variable runs the calculator. *)
Definition write_discount_pct (v : string) : M BillingApp unit :=
  modify (set_discount_pct v);; callback _recalc_totals.

Definition write_tax_pct (v : string) : M BillingApp unit :=
  modify (set_tax_pct v);; callback _recalc_totals.

(** The text [save_csv] writes. *)
Definition invoice_csv (a : BillingApp) : string :=
  csv.writerow ["Invoice No"; invoice_no_var a]
  +:+ csv.writerow ["Date"; date_var a]
  +:+ csv.writerow ["Recipient"; recipient_name a]
  +:+ csv.writerow ["Phone Number"; recipient_phone a]
  +:+ csv.writerow []
  +:+ csv.writerow ["Item"; "Qty"; "Unit Price"; "Total"]
  +:+ foldr (fun it acc =>
        csv.writerow [name it; __str__ (qty it); format_2f "" (price it);
                      format_2f "" (total it)] +:+ acc) "" (items a)
  +:+ csv.writerow []
  +:+ csv.writerow ["Subtotal"; subtotal_var a]
  +:+ csv.writerow ["Discount (" +:+ discount_pct a +:+ "%)"; discount_amt_var a]
  +:+ csv.writerow ["Tax (" +:+ tax_pct a +:+ "%)"; tax_amt_var a]
  +:+ csv.writerow ["Grand Total"; grand_total_var a].

(** [save_csv]; [folder] is what the directory chooser returns (empty when
    it is dismissed) and [can_write] whether the file can be opened for
    writing there. *)
Definition save_csv (folder : string) (can_write : bool) : M BillingApp unit :=
  its ← gets items;
  match its with
  | [] => messagebox showwarning "No items" "Add at least one item before saving CSV."
  | _ =>
      rn ← gets recipient_name;
      if negb (Text.nonempty (Text.strip rn)) then
        messagebox showerror "Required Field Missing"
          "Recipient name is required. Please enter the recipient's name."
      else
        rp ← gets recipient_phone;
        if negb (Text.nonempty (Text.strip rp)) then
          messagebox showerror "Required Field Missing"
            "Phone number is required. Please enter the recipient's phone number."
        else if negb (Text.nonempty folder) then mret tt
        else
          no ← gets invoice_no_var;
          let path := path_join folder ("invoice_" +:+ no +:+ ".csv") in
          if can_write then
            modify (fun a => set_written (written a ++ [(path, invoice_csv a)]) a);;
            messagebox showinfo "Saved" ("CSV saved to:" +:+ String csv.LF path)
          else lift (Raise OSError)
  end.

(** The header of the master database. *)
Definition master_header : list string :=
  ["Invoice No"; "Date"; "Recipient"; "Phone Number"; "Items Count"; "Subtotal";
   "Discount %"; "Discount Amount"; "Tax %"; "Tax Amount"; "Grand Total";
   "Chairperson"; "Chair Position"].

(** The record of the current invoice in the master database. *)
Definition master_row (a : BillingApp) : list string :=
  [invoice_no_var a; date_var a; recipient_name a; recipient_phone a;
   Text.str_N (N.of_nat (length (items a))); subtotal_var a; discount_pct a;
   discount_amt_var a; tax_pct a; tax_amt_var a; grand_total_var a;
   chair_name a; chair_position a].

(** [save_to_master_db]: nothing without items; else the record is
    appended, after the header when the file is new.  (The summary of the
    items that the method builds is not written.) *)
Definition save_to_master_db : M BillingApp unit :=
  its ← gets items;
  match its with
  | [] => mret tt
  | _ =>
      db ← gets master_db;
      match db with
      | Unreadable => lift (Raise OSError)
      | Absent =>
          modify (fun a => set_master_db
            (Content (csv.writerow master_header +:+ csv.writerow (master_row a))) a)
      | Content old =>
          modify (fun a => set_master_db
            (Content (old +:+ csv.writerow (master_row a))) a)
      end
  end.

(** The nine values of a history row. *)
Definition history_row (row : csv.DictRow) : HistoryRow :=
  (fun key => csv.get row key "") <$>
    ["Invoice No"; "Date"; "Recipient"; "Phone Number"; "Items Count";
     "Subtotal"; "Discount Amount"; "Tax Amount"; "Grand Total"].

(** [refresh_history(tree)]: the rows of the table afterwards.  The rows
    read before an exception stay. *)
Definition refresh_history (tree : list HistoryRow) : M BillingApp (list HistoryRow) :=
  db ← gets master_db;
  match db with
  | Absent => mret []
  | Unreadable =>
      messagebox_exn showerror "Error" "Error refreshing history: " OSError;;
      mret []
  | Content text =>
      match csv.DictReader text with
      | (rows, None) => mret (history_row <$> rows)
      | (rows, Some e) =>
          messagebox_exn showerror "Error" "Error refreshing history: " e;;
          mret (history_row <$> rows)
      end
  end.

(** [view_invoice_history]: the history window and its table, kept as
    [self.history_tree] when the database was read to its end. *)
Definition view_invoice_history : M BillingApp unit :=
  db ← gets master_db;
  match db with
  | Absent =>
      messagebox showinfo "No History"
        "No invoice history found. Generate some invoices first!"
  | Unreadable =>
      messagebox_exn showerror "Error" "Error reading invoice history: " OSError
  | Content text =>
      match csv.DictReader text with
      | (rows, None) => modify (set_history_tree (Some (history_row <$> rows)))
      | (_, Some e) =>
          messagebox_exn showerror "Error" "Error reading invoice history: " e
      end
  end.

(** [reset_invoice]; [confirmed] is the answer to the question asked, and
    [now] and [now'] the two readings of the clock. *)
Definition reset_invoice (confirmed : bool) (now now' : datetime.datetime)
    : M BillingApp unit :=
  if negb confirmed then mret tt
  else
    modify (set_items []);;
    modify (set_tree []);;
    modify (set_recipient_name "");;
    modify (set_recipient_phone "");;
    modify (set_chair_position "IEEE RAS SB Chairperson");;
    write_discount_pct "0";;
    write_tax_pct "18";;
    db ← gets master_db;
    modify (set_invoice_no_var (_gen_invoice_no db now));;
    modify (set_date_var (datetime.strftime_iso now'));;
    _recalc_totals;;
    mret tt.

(** [BillingApp()]: the application as it starts, given the master
    database and the two readings of the clock. *)
Definition __init__ (db : file) (now now' : datetime.datetime) : BillingApp :=
  mkApp "Harikesh O P" "IEEE RAS SB Chairperson" "" "" "" "1" "0.00" "0" "18"
    [] db (_gen_invoice_no db now) (datetime.strftime_iso now') []
    "0.00" "0.00" "0.00" "0.00" None [] [].

End IEEE.

(** ** ROBOCEK_BILLING.py *)

Module ROBOCEK.

Import decimal.

(** [D(v)] *)
Definition D (v : pyval) : res Decimal :=
  d ← match of_str (str v) with
       | Raise InvalidOperation | Raise ValueError => Ok Decimal_0
       | r => r
       end;
  quantize d Decimal_0_01 ROUND_HALF_UP.

(** [fmt_money(d)] *)
Definition fmt_money (d : pyval) : res string :=
  x ← D d; Ok (format_2f "," x).

(** The application object; [written] and [messages] as for the other
    program. *)
Record BillingApp : Type := mkApp {
  vp_name : string;
  recipient_name : string;
  item_name : string;
  item_qty : string;
  item_price : string;
  discount_pct : string;
  tax_pct : string;
  items : list Item;
  invoice_no_var : string;
  date_var : string;
  tree : list TreeRow;
  subtotal_var : string;
  discount_amt_var : string;
  tax_amt_var : string;
  grand_total_var : string;
  written : list (string * string);
  messages : list Message
}.

Definition set_vp_name (v : string) (a : BillingApp) : BillingApp :=
    mkApp v (recipient_name a) (item_name a) (item_qty a) (item_price a)
      (discount_pct a) (tax_pct a) (items a) (invoice_no_var a) (date_var a)
      (tree a) (subtotal_var a) (discount_amt_var a) (tax_amt_var a)
      (grand_total_var a) (written a) (messages a).
Definition set_recipient_name (v : string) (a : BillingApp) : BillingApp :=
    mkApp (vp_name a) v (item_name a) (item_qty a) (item_price a)
      (discount_pct a) (tax_pct a) (items a) (invoice_no_var a) (date_var a)
      (tree a) (subtotal_var a) (discount_amt_var a) (tax_amt_var a)
      (grand_total_var a) (written a) (messages a).
Definition set_item_name (v : string) (a : BillingApp) : BillingApp :=
    mkApp (vp_name a) (recipient_name a) v (item_qty a) (item_price a)
      (discount_pct a) (tax_pct a) (items a) (invoice_no_var a) (date_var a)
      (tree a) (subtotal_var a) (discount_amt_var a) (tax_amt_var a)
      (grand_total_var a) (written a) (messages a).
Definition set_item_qty (v : string) (a : BillingApp) : BillingApp :=
    mkApp (vp_name a) (recipient_name a) (item_name a) v (item_price a)
      (discount_pct a) (tax_pct a) (items a) (invoice_no_var a) (date_var a)
      (tree a) (subtotal_var a) (discount_amt_var a) (tax_amt_var a)
      (grand_total_var a) (written a) (messages a).
Definition set_item_price (v : string) (a : BillingApp) : BillingApp :=
    mkApp (vp_name a) (recipient_name a) (item_name a) (item_qty a) v
      (discount_pct a) (tax_pct a) (items a) (invoice_no_var a) (date_var a)
      (tree a) (subtotal_var a) (discount_amt_var a) (tax_amt_var a)
      (grand_total_var a) (written a) (messages a).
Definition set_discount_pct (v : string) (a : BillingApp) : BillingApp :=
    mkApp (vp_name a) (recipient_name a) (item_name a) (item_qty a)
      (item_price a) v (tax_pct a) (items a) (invoice_no_var a) (date_var a)
      (tree a) (subtotal_var a) (discount_amt_var a) (tax_amt_var a)
      (grand_total_var a) (written a) (messages a).
Definition set_tax_pct (v : string) (a : BillingApp) : BillingApp :=
    mkApp (vp_name a) (recipient_name a) (item_name a) (item_qty a)
      (item_price a) (discount_pct a) v (items a) (invoice_no_var a)
      (date_var a) (tree a) (subtotal_var a) (discount_amt_var a)
      (tax_amt_var a) (grand_total_var a) (written a) (messages a).
Definition set_items (v : list Item) (a : BillingApp) : BillingApp :=
    mkApp (vp_name a) (recipient_name a) (item_name a) (item_qty a)
      (item_price a) (discount_pct a) (tax_pct a) v (invoice_no_var a)
      (date_var a) (tree a) (subtotal_var a) (discount_amt_var a)
      (tax_amt_var a) (grand_total_var a) (written a) (messages a).
Definition set_invoice_no_var (v : string) (a : BillingApp) : BillingApp :=
    mkApp (vp_name a) (recipient_name a) (item_name a) (item_qty a)
      (item_price a) (discount_pct a) (tax_pct a) (items a) v (date_var a)
      (tree a) (subtotal_var a) (discount_amt_var a) (tax_amt_var a)
      (grand_total_var a) (written a) (messages a).
Definition set_date_var (v : string) (a : BillingApp) : BillingApp :=
    mkApp (vp_name a) (recipient_name a) (item_name a) (item_qty a)
      (item_price a) (discount_pct a) (tax_pct a) (items a)
      (invoice_no_var a) v (tree a) (subtotal_var a) (discount_amt_var a)
      (tax_amt_var a) (grand_total_var a) (written a) (messages a).
Definition set_tree (v : list TreeRow) (a : BillingApp) : BillingApp :=
    mkApp (vp_name a) (recipient_name a) (item_name a) (item_qty a)
      (item_price a) (discount_pct a) (tax_pct a) (items a)
      (invoice_no_var a) (date_var a) v (subtotal_var a)
      (discount_amt_var a) (tax_amt_var a) (grand_total_var a) (written a)
      (messages a).
Definition set_subtotal_var (v : string) (a : BillingApp) : BillingApp :=
    mkApp (vp_name a) (recipient_name a) (item_name a) (item_qty a)
      (item_price a) (discount_pct a) (tax_pct a) (items a)
      (invoice_no_var a) (date_var a) (tree a) v (discount_amt_var a)
      (tax_amt_var a) (grand_total_var a) (written a) (messages a).
Definition set_discount_amt_var (v : string) (a : BillingApp) : BillingApp :=
    mkApp (vp_name a) (recipient_name a) (item_name a) (item_qty a)
      (item_price a) (discount_pct a) (tax_pct a) (items a)
      (invoice_no_var a) (date_var a) (tree a) (subtotal_var a) v
      (tax_amt_var a) (grand_total_var a) (written a) (messages a).
Definition set_tax_amt_var (v : string) (a : BillingApp) : BillingApp :=
    mkApp (vp_name a) (recipient_name a) (item_name a) (item_qty a)
      (item_price a) (discount_pct a) (tax_pct a) (items a)
      (invoice_no_var a) (date_var a) (tree a) (subtotal_var a)
      (discount_amt_var a) v (grand_total_var a) (written a) (messages a).
Definition set_grand_total_var (v : string) (a : BillingApp) : BillingApp :=
    mkApp (vp_name a) (recipient_name a) (item_name a) (item_qty a)
      (item_price a) (discount_pct a) (tax_pct a) (items a)
      (invoice_no_var a) (date_var a) (tree a) (subtotal_var a)
      (discount_amt_var a) (tax_amt_var a) v (written a) (messages a).
Definition set_written (v : list (string * string)) (a : BillingApp) : BillingApp :=
    mkApp (vp_name a) (recipient_name a) (item_name a) (item_qty a)
      (item_price a) (discount_pct a) (tax_pct a) (items a)
      (invoice_no_var a) (date_var a) (tree a) (subtotal_var a)
      (discount_amt_var a) (tax_amt_var a) (grand_total_var a) v
      (messages a).
Definition set_messages (v : list Message) (a : BillingApp) : BillingApp :=
    mkApp (vp_name a) (recipient_name a) (item_name a) (item_qty a)
      (item_price a) (discount_pct a) (tax_pct a) (items a)
      (invoice_no_var a) (date_var a) (tree a) (subtotal_var a)
      (discount_amt_var a) (tax_amt_var a) (grand_total_var a) (written a) v.

Definition messagebox (k : MessageKind) (title text : string)
    : M BillingApp unit :=
  modify (fun a => set_messages (messages a ++ [mkMessage k title text None]) a).

(** [_gen_invoice_no]: the time stamp. *)
Definition _gen_invoice_no (now : datetime.datetime) : string :=
  datetime.strftime_compact now.

Definition clear_item_fields : M BillingApp unit :=
  modify (set_item_name "");;
  modify (set_item_qty "1");;
  modify (set_item_price "0.00").

(** [_recalc_totals]; it returns the values of its locals. *)
Definition _recalc_totals : M BillingApp Totals :=
  its ← gets items;
  subtotal ← lift (match its with
                   | [] => Ok Decimal_0_00
                   | _ => sum (total <$> its)
                   end);
  shown ← lift (fmt_money (VDec subtotal));
  modify (set_subtotal_var shown);;
  pct_text ← gets discount_pct;
  let discount_pct :=
    match D (VStr pct_text) with Ok d => d | Raise _ => Decimal_0 end in
  discount_amt ← lift (p ← __mul__ subtotal discount_pct;
                       q ← __truediv__ p Decimal_100;
                       quantize q Decimal_0_01 ROUND_HALF_UP);
  shown ← lift (fmt_money (VDec discount_amt));
  modify (set_discount_amt_var shown);;
  pct_text ← gets tax_pct;
  let tax_pct :=
    match D (VStr pct_text) with Ok d => d | Raise _ => Decimal_0 end in
  taxable ← lift (d ← __sub__ subtotal discount_amt;
                  quantize d Decimal_0_01 ROUND_HALF_UP);
  tax_amt ← lift (p ← __mul__ taxable tax_pct;
                  q ← __truediv__ p Decimal_100;
                  quantize q Decimal_0_01 ROUND_HALF_UP);
  shown ← lift (fmt_money (VDec tax_amt));
  modify (set_tax_amt_var shown);;
  grand ← lift (s ← __add__ taxable tax_amt;
                quantize s Decimal_0_01 ROUND_HALF_UP);
  shown ← lift (fmt_money (VDec grand));
  modify (set_grand_total_var shown);;
  mret (mkTotals subtotal discount_pct discount_amt tax_pct taxable tax_amt grand).

(** [add_item] *)
Definition add_item : M BillingApp unit :=
  raw ← gets item_name;
  let name := Text.strip raw in
  if negb (Text.nonempty name) then
    messagebox showwarning "Validation" "Item name cannot be empty."
  else
    qty_text ← gets item_qty;
    price_text ← gets item_price;
    match (qty ← D (VStr qty_text); price ← D (VStr price_text); Ok (qty, price)) with
    | Raise _ =>
        messagebox showwarning "Validation" "Quantity and price must be numeric."
    | Ok (qty, price) =>
        nonpositive ← lift (__le__ qty (of_int 0));
        if nonpositive : bool then
          messagebox showwarning "Validation" "Quantity must be greater than 0."
        else
          negative ← lift (__lt__ price (of_int 0));
          if negative : bool then
            messagebox showwarning "Validation" "Price cannot be negative."
          else
            total ← lift (p ← __mul__ qty price;
                          quantize p Decimal_0_01 ROUND_HALF_UP);
            modify (fun a => set_items (items a ++ [mkItem name qty price total]) a);;
            shown_qty ← lift (normalize qty);
            modify (fun a =>
              set_tree (tree a ++ [mkTreeRow name (__str__ shown_qty)
                                     (format_2f "" price) (format_2f "" total)]) a);;
            clear_item_fields;;
            _recalc_totals;;
            mret tt
    end.

(** [remove_selected_item] *)
Definition remove_selected_item (sel : option nat) : M BillingApp unit :=
  match sel with
  | None => messagebox showinfo "Info" "No item selected."
  | Some idx =>
      rows ← gets tree;
      if decide (idx < length rows)%nat then
        modify (fun a => set_tree (delete idx (tree a)) a);;
        modify (fun a => set_items (delete idx (items a)) a);;
        _recalc_totals;;
        mret tt
      else lift (Raise TclError)
  end.

Definition write_discount_pct (v : string) : M BillingApp unit :=
  modify (set_discount_pct v);; callback _recalc_totals.

Definition write_tax_pct (v : string) : M BillingApp unit :=
  modify (set_tax_pct v);; callback _recalc_totals.

(** The text [save_csv] writes. *)
Definition invoice_csv (a : BillingApp) : string :=
  csv.writerow ["Invoice No"; invoice_no_var a]
  +:+ csv.writerow ["Date"; date_var a]
  +:+ csv.writerow ["Recipient"; recipient_name a]
  +:+ csv.writerow []
  +:+ csv.writerow ["Item"; "Qty"; "Unit Price"; "Total"]
  +:+ foldr (fun it acc =>
        csv.writerow [name it; __str__ (qty it); format_2f "" (price it);
                      format_2f "" (total it)] +:+ acc) "" (items a)
  +:+ csv.writerow []
  +:+ csv.writerow ["Subtotal"; subtotal_var a]
  +:+ csv.writerow ["Discount (" +:+ discount_pct a +:+ "%)"; discount_amt_var a]
  +:+ csv.writerow ["Tax (" +:+ tax_pct a +:+ "%)"; tax_amt_var a]
  +:+ csv.writerow ["Grand Total"; grand_total_var a].

(** [save_csv] *)
Definition save_csv (folder : string) (can_write : bool) : M BillingApp unit :=
  its ← gets items;
  match its with
  | [] => messagebox showwarning "No items" "Add at least one item before saving CSV."
  | _ =>
      if negb (Text.nonempty folder) then mret tt
      else
        no ← gets invoice_no_var;
        let path := path_join folder ("invoice_" +:+ no +:+ ".csv") in
        if can_write then
          modify (fun a => set_written (written a ++ [(path, invoice_csv a)]) a);;
          messagebox showinfo "Saved" ("CSV saved to:" +:+ String csv.LF path)
        else lift (Raise OSError)
  end.

(** [reset_invoice] *)
Definition reset_invoice (confirmed : bool) (now now' : datetime.datetime)
    : M BillingApp unit :=
  if negb confirmed then mret tt
  else
    modify (set_items []);;
    modify (set_tree []);;
    modify (set_recipient_name "");;
    write_discount_pct "0";;
    write_tax_pct "18";;
    modify (set_invoice_no_var (_gen_invoice_no now));;
    modify (set_date_var (datetime.strftime_iso now'));;
    _recalc_totals;;
    mret tt.

(** [BillingApp()] *)
Definition __init__ (now now' : datetime.datetime) : BillingApp :=
  mkApp "Harikesh O P" "" "" "1" "0.00" "0" "18"
    [] (_gen_invoice_no now) (datetime.strftime_iso now') []
    "0.00" "0.00" "0.00" "0.00" [] [].

End ROBOCEK.

(** * Vocabulary of the properties *)

(** A clock reading and a small master database, for the examples. *)
Definition noon : datetime.datetime := datetime.mkDatetime 2024 12 1 12 34 56.



Section AmountsVocabulary.
Import decimal.

(** A finite value with exponent -2 and at most [prec] digits. *)
Definition is_cents (d : Decimal) : bool :=
  match d with
  | Finite _ c e => (e =? -2) && (ndigits c <=? prec)
  | _ => false
  end.



(** The line total [add_item] computes. *)
Definition line_total (q p : Decimal) : res Decimal :=
  x ← __mul__ q p; quantize x Decimal_0_01 ROUND_HALF_UP.

(** [a'] is [a] but for the four totals shown. *)
Definition same_but_totals (a a' : IEEE.BillingApp) : Prop :=
  a' = IEEE.set_grand_total_var (IEEE.grand_total_var a')
         (IEEE.set_tax_amt_var (IEEE.tax_amt_var a')
            (IEEE.set_discount_amt_var (IEEE.discount_amt_var a')
               (IEEE.set_subtotal_var (IEEE.subtotal_var a') a))).

(** Quantity, unit price and line total of an item have two places. *)
Definition item_cents (it : Item) : bool :=
  is_cents (qty it) && is_cents (price it) && is_cents (total it).

(** The application as it starts with no master database, and an add
    request typed in its entry fields. *)
Definition fresh : IEEE.BillingApp := IEEE.__init__ Absent noon noon.

Definition request (name qty price : string) (a : IEEE.BillingApp) : IEEE.BillingApp :=
  IEEE.set_item_price price (IEEE.set_item_qty qty (IEEE.set_item_name name a)).

(** The vocabulary of the totals: rounding half up to two places, a
    percentage of an amount, the percentage a text stands for (zero when
    [D] raises on it), and the sum of the line totals. *)
Definition round_half_up_2 (x : res Decimal) : res Decimal :=
  d ← x; quantize d Decimal_0_01 ROUND_HALF_UP.

Definition percent_of (x pct : Decimal) : res Decimal :=
  p ← __mul__ x pct; __truediv__ p Decimal_100.

Definition pct_of_text (text : string) : Decimal :=
  match IEEE.D (VStr text) with Ok d => d | Raise _ => Decimal_0 end.

Definition items_subtotal (its : list Item) : res Decimal :=
  match its with
  | [] => Ok Decimal_0_00
  | _ => sum (total <$> its)
  end.

(** The totals [T] are those of the items [its] under the percentages
    written [dtext] and [ttext]: the discount is taken on the subtotal and
    the tax on the subtotal less the discount. *)
Definition totals_of (its : list Item) (dtext ttext : string) (T : Totals) : Prop :=
  items_subtotal its = Ok (subtotal T)
  /\ discount_pct_value T = pct_of_text dtext
  /\ tax_pct_value T = pct_of_text ttext
  /\ round_half_up_2 (percent_of (subtotal T) (discount_pct_value T))
     = Ok (discount_amt T)
  /\ round_half_up_2 (__sub__ (subtotal T) (discount_amt T)) = Ok (taxable T)
  /\ round_half_up_2 (percent_of (taxable T) (tax_pct_value T)) = Ok (tax_amt T)
  /\ round_half_up_2 (__add__ (taxable T) (tax_amt T)) = Ok (grand T).

(** The four totals can be shown. *)
Definition can_be_shown (T : Totals) : bool :=
  is_ok (IEEE.fmt_money (VDec (subtotal T)))
  && is_ok (IEEE.fmt_money (VDec (discount_amt T)))
  && is_ok (IEEE.fmt_money (VDec (tax_amt T)))
  && is_ok (IEEE.fmt_money (VDec (grand T))).

(** The scenario: two speakers at 250.00, five cables at 20.00, a discount
    of 10% and the tax of 18%. *)
Definition scenario : IEEE.BillingApp :=
  (IEEE.write_discount_pct "10"
     (IEEE.add_item (request "Cable" "5" "20.00"
        (IEEE.add_item (request "Speaker" "2" "250.00" fresh)).2)).2).2.

Definition scenario_totals : Totals :=
  mkTotals (Finite false 60000 (-2)) (Finite false 1000 (-2))
    (Finite false 6000 (-2)) (Finite false 1800 (-2))
    (Finite false 54000 (-2)) (Finite false 9720 (-2))
    (Finite false 63720 (-2)).

Definition robocek_scenario : ROBOCEK.BillingApp :=
  let ask name qty price b :=
    ROBOCEK.set_item_price price
      (ROBOCEK.set_item_qty qty (ROBOCEK.set_item_name name b)) in
  (ROBOCEK.write_discount_pct "10"
     (ROBOCEK.add_item (ask "Cable" "5" "20.00"
        (ROBOCEK.add_item (ask "Speaker" "2" "250.00"
           (ROBOCEK.__init__ noon noon))).2)).2).2.







(** The ledger and the table are the same in two applications. *)
Definition same_ledger (a a' : IEEE.BillingApp) : Prop :=
  IEEE.items a' = IEEE.items a /\ IEEE.tree a' = IEEE.tree a.

(** The totals of an invoice without items at 0% and 18%. *)
Definition zero_totals : Totals :=
  mkTotals Decimal_0_00 Decimal_0_00 Decimal_0_00 (Finite false 1800 (-2))
    Decimal_0_00 Decimal_0_00 Decimal_0_00.

(** The application with the four totals shown replaced. *)
Definition with_totals (s d t g : string) (a : IEEE.BillingApp) : IEEE.BillingApp :=
  IEEE.set_grand_total_var g
    (IEEE.set_tax_amt_var t (IEEE.set_discount_amt_var d (IEEE.set_subtotal_var s a))).

(** The application a confirmed reset leaves. *)
Definition reset_state (a : IEEE.BillingApp) (now now' : datetime.datetime)
    : IEEE.BillingApp :=
  IEEE.mkApp (IEEE.chair_name a) "IEEE RAS SB Chairperson" "" ""
    (IEEE.item_name a) (IEEE.item_qty a) (IEEE.item_price a) "0" "18" []
    (IEEE.master_db a) (IEEE._gen_invoice_no (IEEE.master_db a) now)
    (datetime.strftime_iso now') [] "0.00" "0.00" "0.00" "0.00"
    (IEEE.history_tree a) (IEEE.written a) (IEEE.messages a).

(** A character of the text of a number: not a space, not an underscore. *)
Definition plain_char (c : ascii) : bool :=
  negb (Text.isspace c) && negb (Ascii.eqb c "_").

(** A value [D] returns: two places, or a NaN as [quantize] leaves it. *)
Definition rounded (d : Decimal) : Prop :=
  is_cents d = true \/ exists s p, d = NaN s false (p mod pow10 prec).

(** The sign of a value. *)
Definition negative (d : Decimal) : bool :=
  match d with Finite s _ _ | Infinity s | NaN s _ _ => s end.


(** The two applications hold the same invoice form: the same entry
    fields for an item, the same percentages, the same ledger and table,
    the same totals shown and the same messages. *)
Definition same_form (a : IEEE.BillingApp) (b : ROBOCEK.BillingApp) : Prop :=
  IEEE.item_name a = ROBOCEK.item_name b
  /\ IEEE.item_qty a = ROBOCEK.item_qty b
  /\ IEEE.item_price a = ROBOCEK.item_price b
  /\ IEEE.discount_pct a = ROBOCEK.discount_pct b
  /\ IEEE.tax_pct a = ROBOCEK.tax_pct b
  /\ IEEE.items a = ROBOCEK.items b
  /\ IEEE.tree a = ROBOCEK.tree b
  /\ IEEE.subtotal_var a = ROBOCEK.subtotal_var b
  /\ IEEE.discount_amt_var a = ROBOCEK.discount_amt_var b
  /\ IEEE.tax_amt_var a = ROBOCEK.tax_amt_var b
  /\ IEEE.grand_total_var a = ROBOCEK.grand_total_var b
  /\ IEEE.messages a = ROBOCEK.messages b.

(** Two runs end alike: the same result or exception, and the same form. *)
Definition same_run {A} (x : res A * IEEE.BillingApp) (y : res A * ROBOCEK.BillingApp)
    : Prop :=
  x.1 = y.1 /\ same_form x.2 y.2.

(** The number of cents of a value with two places. *)
Definition cents_value (d : Decimal) : Z :=
  match d with
  | Finite s c _ => if s then - Z.of_N c else Z.of_N c
  | _ => 0
  end.

Definition signed (s : bool) (c : N) : Z := if s then - Z.of_N c else Z.of_N c.

(** The sum of the cents of values, and of their magnitudes. *)
Definition sum_cents (ds : list Decimal) : Z :=
  foldr (fun d acc => cents_value d + acc) 0 ds.

Definition sum_magnitudes (ds : list Decimal) : Z :=
  foldr (fun d acc => Z.abs (cents_value d) + acc) 0 ds.

(** The coefficient [c] without its [k] low digits, rounded half up:
    the nearest multiple of [10^k], the upper one of two equally near. *)
Definition half_up (c k : N) : N := ((2 * c + 10 ^ k) / (2 * 10 ^ k))%N.

(** The percentage [P] (in hundredths of a percent) of [S] cents, rounded
    half up to the cent, away from zero on a tie. *)
Definition percent_in_cents (S P : Z) : Z :=
  Z.sgn (S * P) * Z.of_N (half_up (Z.abs_N (S * P)) 4).

(** The second program with the four totals shown replaced. *)
Definition ROBOCEK_with_totals (s d t g : string) (b : ROBOCEK.BillingApp)
    : ROBOCEK.BillingApp :=
  ROBOCEK.set_grand_total_var g
    (ROBOCEK.set_tax_amt_var t
       (ROBOCEK.set_discount_amt_var d (ROBOCEK.set_subtotal_var s b))).

End AmountsVocabulary.

(** What the reader yields when its input ends with the parser at [r]. *)
Definition at_end (r : csv.Reader) : csv.rows :=
  if negb (csv.field_len r =? 0)%N
     || match csv.state r with csv.IN_QUOTED_FIELD => true | _ => false end
  then ([csv.fields (csv.parse_save_field r)], None)
  else ([], None).

(** The reader on a text that is not cut into lines first: [r] is the
    parser after the part of the current line already passed, [inline]
    says whether there is such a part, and [s] is the text still to come. *)
Fixpoint scan (r : csv.Reader) (inline : bool) (s : string) : csv.rows :=
  match s with
  | EmptyString =>
      if inline then
        match csv.parse_process_char r None with
        | Raise e => ([], Some e)
        | Ok r' =>
            match csv.state r' with
            | csv.START_RECORD => ([csv.fields r'], None)
            | _ => at_end r'
            end
        end
      else at_end r
  | String c s' =>
      match csv.parse_process_char r (Some c) with
      | Raise e => ([], Some e)
      | Ok r1 =>
          if Ascii.eqb c csv.LF then
            match csv.parse_process_char r1 None with
            | Raise e => ([], Some e)
            | Ok r2 =>
                match csv.state r2 with
                | csv.START_RECORD =>
                    csv.yield (csv.fields r2) (scan csv.parse_reset false s')
                | _ => scan r2 false s'
                end
            end
          else scan r1 true s'
      end
  end.

(** A field the reader takes whole: within the field size limit. *)
Definition fits (f : string) : bool :=
  (N.of_nat (String.length f) <=? csv.field_limit)%N.

(** The characters of a text, last first. *)
Definition rev_chars (s : string) : list ascii := rev (list_ascii_of_string s).

(** The parser holds the field [f] after the fields [fs]: it is at the
    start of an empty field, in an unquoted field, or after the closing
    quote of a quoted one. *)
Definition holding (r : csv.Reader) (fs : list string) (f : string) : Prop :=
  csv.fields r = fs
  /\ string_of_list_ascii (rev (csv.field r)) = f
  /\ (csv.state r = csv.START_FIELD \/ csv.state r = csv.IN_FIELD
      \/ csv.state r = csv.QUOTE_IN_QUOTED_FIELD).

(** A text without carriage return. *)
Definition no_CR (s : string) : bool :=
  Text.forallb (λ c, negb (Ascii.eqb c csv.CR)) s.

(** A record the master database gives back as it was written: it has a
    field, and its fields have no carriage return and fit the field size
    limit of the reader. *)
Definition readable_record (r : list string) : bool :=
  match r with [] => false | _ => true end
  && forallb fits r && forallb no_CR r.

(** The text of a record once the line ends are those of a text file. *)
Definition record_line (r : list string) : string :=
  match r with
  | [EmptyString] => String csv.quotechar (String csv.quotechar EmptyString)
  | _ => csv.join_fields r
  end.

(** The text the writer writes for the records, one after the other. *)
Definition written_records (records : list (list string)) : string :=
  foldr (λ r acc, csv.writerow r +:+ acc) "" records.

(** The master database after [a] saved its invoice into [db]. *)
Definition append_invoice (db : file) (a : IEEE.BillingApp) : file :=
  IEEE.master_db (IEEE.save_to_master_db (IEEE.set_master_db db a)).2.

(** The master database after the invoices were saved one after the other,
    there being no database before the first. *)
Definition ledger_after (invoices : list IEEE.BillingApp) : file :=
  foldl append_invoice Absent invoices.

(** An invoice that has an item, and whose record in the master database
    has no carriage return and no field above the field size limit. *)
Definition recorded_readably (a : IEEE.BillingApp) : bool :=
  match IEEE.items a with [] => false | _ => true end
  && readable_record (IEEE.master_row a).

(** The nine columns the history table shows of an invoice. *)
Definition shown_columns (a : IEEE.BillingApp) : HistoryRow :=
  [Some (IEEE.invoice_no_var a); Some (IEEE.date_var a);
   Some (IEEE.recipient_name a); Some (IEEE.recipient_phone a);
   Some (Text.str_N (N.of_nat (length (IEEE.items a))));
   Some (IEEE.subtotal_var a); Some (IEEE.discount_amt_var a);
   Some (IEEE.tax_amt_var a); Some (IEEE.grand_total_var a)].

(** An invoice with one item for the recipient A, carriage return, B. *)
Definition cr_name : string := String "A" (String csv.CR "B").

Definition lf_name : string := String "A" (String csv.LF "B").

Definition cr_invoice : IEEE.BillingApp :=
  IEEE.set_recipient_name cr_name
    (IEEE.add_item (request "Pen" "2" "10" fresh)).2.

(** Two invoices saved one after the other and read back. *)
Definition pen_invoice : IEEE.BillingApp :=
  IEEE.set_recipient_name "Asha, CS"
    (IEEE.add_item (request "Pen" "2" "10" fresh)).2.

Definition cable_invoice : IEEE.BillingApp :=
  IEEE.set_invoice_no_var "2"
    (IEEE.set_recipient_name "Ravi"
       (IEEE.add_item (request "Cable" "5" "20" fresh)).2).

(** A master database whose last identifier has letters. *)
Definition db_ending_INV7 : string :=
  csv.writerow ["Invoice No"; "Date"]
  +:+ csv.writerow ["41"; "2024-12-01 09:30:00"]
  +:+ csv.writerow ["INV-7"; "2024-12-01 09:45:00"].

(** A reading of the clock as [datetime] has them. *)
Definition clock_reading (now : datetime.datetime) : bool :=
  ((1 <=? datetime.year now) && (datetime.year now <=? 9999)
   && (1 <=? datetime.month now) && (datetime.month now <=? 12)
   && (1 <=? datetime.day now) && (datetime.day now <=? 31)
   && (datetime.hour now <=? 23) && (datetime.minute now <=? 59)
   && (datetime.second now <=? 59))%N.





(** * Properties *)

#[global] Arguments decimal.of_str : simpl never.

#[global] Arguments decimal.quantize : simpl never.

#[global] Arguments decimal._fix : simpl never.

#[global] Arguments decimal._rescale : simpl never.

#[global] Arguments decimal.__add__ : simpl never.

#[global] Arguments decimal.__sub__ : simpl never.

#[global] Arguments decimal.__mul__ : simpl never.

#[global] Arguments decimal.__truediv__ : simpl never.

#[global] Arguments decimal.__le__ : simpl never.

#[global] Arguments decimal.__lt__ : simpl never.

#[global] Arguments decimal.normalize : simpl never.

#[global] Arguments decimal.__str__ : simpl never.

#[global] Arguments decimal.format_2f : simpl never.

#[global] Arguments decimal.sum : simpl never.

#[global] Arguments decimal.ndigits : simpl never.

#[global] Arguments decimal.pow10 : simpl never.

#[global] Arguments Text.str_N : simpl never.

#[global] Arguments Text.strip : simpl never.

#[global] Arguments IEEE.D : simpl never.

#[global] Arguments IEEE.fmt_money : simpl never.

#[global] Arguments ROBOCEK.D : simpl never.

#[global] Arguments ROBOCEK.fmt_money : simpl never.

#[global] Arguments csv.reader : simpl never.

#[global] Arguments csv.DictReader : simpl never.

#[global] Arguments csv.writerow : simpl never.

#[global] Arguments csv.parse_process_char : simpl never.

Lemma bind_Ok {A B} (f : A -> res B) (a : A) : (x ← Ok a; f x) = f a.
Proof. reflexivity. Qed.

Lemma bind_assoc {A B C} (m : res A) (f : A -> res B) (g : B -> res C) :
  (m ≫= f) ≫= g = m ≫= (λ x, f x ≫= g).
Proof. by destruct m. Qed.

Lemma bind_Raise {A B} (f : A -> res B) (e : exn) : (x ← Raise e; f x) = Raise e.
Proof. reflexivity. Qed.

(** Destructs the computation a [match] on a result is stuck on. *)
Ltac case_res :=
  match goal with
  | |- context [match ?x with Ok _ => _ | Raise _ => _ end] =>
      let E := fresh "E" in destruct x eqn:E
  end.

(** Unfolds the operations of the monad of the methods. *)
Ltac unfold_M :=
  unfold IEEE.messagebox, IEEE.messagebox_exn, ROBOCEK.messagebox,
    mbind, M_bind, gets, lift, modify, mret, M_ret, callback;
  cbv beta iota.

(** ** Text *)

Lemma string_app_cons c (s t : string) : String c s +:+ t = String c (s +:+ t).
Proof. reflexivity. Qed.

Lemma string_app_nil_l (s : string) : "" +:+ s = s.
Proof. reflexivity. Qed.

Lemma string_app_nil_r (s : string) : s +:+ "" = s.
Proof. induction s as [|c s IH]; [done|]. by rewrite string_app_cons, IH. Qed.

Lemma string_app_assoc (s t u : string) : (s +:+ t) +:+ u = s +:+ t +:+ u.
Proof. induction s as [|c s IH]; [done|]. by rewrite !string_app_cons, IH. Qed.

Lemma string_app_length (s t : string) :
  String.length (s +:+ t) = (String.length s + String.length t)%nat.
Proof. induction s as [|c s IH]; [done|]. rewrite string_app_cons. cbn. by rewrite IH. Qed.

Lemma text_forallb_app p s t :
  Text.forallb p (s +:+ t) = Text.forallb p s && Text.forallb p t.
Proof.
  induction s as [|c s IH]; [done|]. rewrite string_app_cons. cbn.
  by rewrite <- andb_assoc, <- IH.
Qed.

Lemma isdecimal_digit_char d : (d < 10)%N -> Text.isdecimal (Text.digit_char d) = true.
Proof.
  intros Hd. unfold Text.isdecimal, Text.digit_char, Text.code.
  rewrite N_ascii_embedding by lia.
  apply andb_true_iff; split; apply N.leb_le; lia.
Qed.

Lemma digit_val_digit_char d : (d < 10)%N -> Text.digit_val (Text.digit_char d) = d.
Proof.
  intros Hd. unfold Text.digit_val, Text.digit_char, Text.code.
  rewrite N_ascii_embedding by lia. lia.
Qed.

Lemma digits_value_from_app a s t :
  Text.digits_value_from a (s +:+ t)
  = Text.digits_value_from (Text.digits_value_from a s) t.
Proof.
  revert a. induction s as [|c s IH]; intros a; [done|].
  rewrite string_app_cons. cbn. apply IH.
Qed.

Lemma str_N_go_S fuel n acc :
  Text.str_N_go (S fuel) n acc
  = if (n <? 10)%N then String (Text.digit_char (n mod 10)) acc
    else Text.str_N_go fuel (n / 10)%N (String (Text.digit_char (n mod 10)) acc).
Proof. reflexivity. Qed.

(** [str_N_go] puts the digits of [n] in front of [acc]: at least one digit,
    all decimal, no leading zero unless [n] is 0, and they read back as [n]. *)
Lemma str_N_go_spec fuel n acc :
  (n < 2 ^ N.of_nat (S fuel))%N ->
  exists ds, Text.str_N_go (S fuel) n acc = ds +:+ acc
    /\ Text.nonempty ds = true /\ Text.all_decimal ds = true
    /\ (10 ^ N.of_nat (String.length ds) <= 10 * n \/ n = 0 /\ String.length ds = 1%nat)%N
    /\ (n < 10 ^ N.of_nat (String.length ds))%N
    /\ forall a, Text.digits_value_from a ds
         = (a * 10 ^ N.of_nat (String.length ds) + n)%N.
Proof.
  revert n acc. induction fuel as [|fuel IH]; intros n acc Hn.
  - assert (n < 10)%N by (change (2 ^ N.of_nat 1)%N with 2%N in Hn; lia).
    rewrite str_N_go_S. destruct (N.ltb_spec n 10); [|lia].
    exists (String (Text.digit_char (n mod 10)) EmptyString).
    rewrite N.mod_small by done. cbn [String.length].
    change (N.of_nat 1) with 1%N. rewrite N.pow_1_r.
    split; [done|]. split; [done|].
    split; [unfold Text.all_decimal; cbn; by rewrite isdecimal_digit_char|].
    split; [destruct (N.eq_dec n 0%N); [right|left]; [done|lia]|].
    split; [done|].
    intros a. cbn. rewrite digit_val_digit_char by done. lia.
  - rewrite str_N_go_S. destruct (N.ltb_spec n 10) as [Hlt|Hge].
    + exists (String (Text.digit_char (n mod 10)) EmptyString).
      rewrite N.mod_small by done. cbn [String.length].
      change (N.of_nat 1) with 1%N. rewrite N.pow_1_r.
      split; [done|]. split; [done|].
      split; [unfold Text.all_decimal; cbn; by rewrite isdecimal_digit_char|].
      split; [destruct (N.eq_dec n 0%N); [right|left]; [done|lia]|].
      split; [done|].
      intros a. cbn. rewrite digit_val_digit_char by done. lia.
    + assert (Hdiv : (n / 10 < 2 ^ N.of_nat (S fuel))%N).
      { apply N.Div0.div_lt_upper_bound.
        replace (N.of_nat (S (S fuel))) with (N.succ (N.of_nat (S fuel))) in Hn by lia.
        rewrite N.pow_succ_r' in Hn. lia. }
      destruct (IH (n / 10)%N (String (Text.digit_char (n mod 10)) acc) Hdiv)
        as (ds & Heq & Hne & Hdec & Hlow & Hup & Hval).
      exists (ds +:+ String (Text.digit_char (n mod 10)) EmptyString).
      assert (Hmod : (n mod 10 < 10)%N) by (apply N.mod_lt; lia).
      assert (Hn10 : (n = 10 * (n / 10) + n mod 10)%N) by (apply N.div_mod; lia).
      rewrite string_app_length. cbn [String.length].
      replace (N.of_nat (String.length ds + 1)) with (N.succ (N.of_nat (String.length ds))) by lia.
      rewrite N.pow_succ_r'.
      split; [by rewrite Heq, string_app_assoc|].
      split; [by destruct ds|].
      split.
      { unfold Text.all_decimal in *. rewrite text_forallb_app, Hdec. cbn.
        by rewrite isdecimal_digit_char. }
      split.
      { left. assert (n / 10 <> 0)%N.
        { intros H0. rewrite H0 in Hn10. lia. }
        destruct Hlow as [Hlow|[? ?]]; [|done].
        revert Hlow Hn10. generalize (10 ^ N.of_nat (String.length ds))%N (n / 10)%N (n mod 10)%N.
        intros; lia. }
      split.
      { revert Hup Hn10 Hmod. generalize (10 ^ N.of_nat (String.length ds))%N (n / 10)%N (n mod 10)%N.
        intros; lia. }
      intros a. rewrite digits_value_from_app, Hval. cbn.
      rewrite digit_val_digit_char by done.
      revert Hn10. generalize (10 ^ N.of_nat (String.length ds))%N (n / 10)%N (n mod 10)%N.
      intros; lia.
Qed.

Lemma str_N_spec n :
  Text.nonempty (Text.str_N n) = true
  /\ Text.all_decimal (Text.str_N n) = true
  /\ Text.digits_value (Text.str_N n) = n
  /\ (n < 10 ^ N.of_nat (String.length (Text.str_N n)))%N
  /\ (n <> 0 -> 10 ^ N.of_nat (String.length (Text.str_N n)) <= 10 * n)%N.
Proof.
  unfold Text.str_N.
  destruct (str_N_go_spec (N.to_nat (N.log2 n)) n EmptyString)
    as (ds & Heq & Hne & Hdec & Hlow & Hup & Hval).
  { replace (N.of_nat (S (N.to_nat (N.log2 n)))) with (N.succ (N.log2 n)) by lia.
    destruct n as [|p]; [done|]. apply N.log2_spec. lia. }
  rewrite Heq, string_app_nil_r. repeat split; try done.
  - unfold Text.digits_value. rewrite Hval. lia.
  - intros Hn. destruct Hlow as [?|[? ?]]; [done|lia].
Qed.

Lemma isdecimal_not_space c : Text.isdecimal c = true -> Text.isspace c = false.
Proof. by destruct c as [[] [] [] [] [] [] [] []]. Qed.


Lemma all_decimal_cons c s :
  Text.all_decimal (String c s) = Text.isdecimal c && Text.all_decimal s.
Proof. reflexivity. Qed.

Lemma rstrip_all_decimal s : Text.all_decimal s = true -> Text.rstrip s = s.
Proof.
  induction s as [|c s IH]; [done|]. rewrite all_decimal_cons.
  intros [Hc Hs]%andb_true_iff. cbn. rewrite IH by done.
  destruct s; [|done]. by rewrite isdecimal_not_space.
Qed.

Lemma strip_all_decimal s : Text.all_decimal s = true -> Text.strip s = s.
Proof.
  intros H. unfold Text.strip.
  assert (Text.lstrip s = s) as ->; [|by apply rstrip_all_decimal].
  destruct s as [|c s]; [done|]. rewrite all_decimal_cons in H.
  apply andb_true_iff in H as [Hc _]. cbn. by rewrite isdecimal_not_space.
Qed.

Lemma int_digits_all_decimal b acc s :
  Text.all_decimal s = true -> (b = true \/ Text.nonempty s = true) ->
  Text.int_digits b acc s = Some (Text.digits_value_from acc s).
Proof.
  revert b acc. induction s as [|c s IH]; intros b acc Hs Hb.
  - destruct Hb as [->|?]; done.
  - rewrite all_decimal_cons in Hs. apply andb_true_iff in Hs as [Hc Hs].
    cbn. rewrite Hc. apply IH; auto.
Qed.

(** [int(s)] of a non-empty string of decimal digits is the number it writes. *)
Lemma int_all_decimal s :
  Text.nonempty s = true -> Text.all_decimal s = true ->
  Text.int s = Ok (Z.of_N (Text.digits_value s)).
Proof.
  intros Hne Hs. unfold Text.int. rewrite strip_all_decimal by done.
  destruct s as [|c s]; [done|].
  assert (Hc : Text.isdecimal c = true).
  { rewrite all_decimal_cons in Hs. by apply andb_true_iff in Hs as [? _]. }
  assert (Hbody : (let '(neg, body) :=
            match String c s with
            | String "-" r => (true, r)
            | String "+" r => (false, r)
            | r => (false, r)
            end in (neg, body)) = (false, String c s)).
  { by destruct c as [[] [] [] [] [] [] [] []]. }
  revert Hbody.
  destruct (match String c s with
            | String "-" r => (true, r)
            | String "+" r => (false, r)
            | r => (false, r)
            end) as [neg body].
  intros [= -> ->].
  by rewrite (int_digits_all_decimal false 0%N (String c s)) by auto.
Qed.



Lemma all_decimal_app s t :
  Text.all_decimal (s +:+ t) = Text.all_decimal s && Text.all_decimal t.
Proof. apply text_forallb_app. Qed.

Lemma nonempty_app_l s t : Text.nonempty s = true -> Text.nonempty (s +:+ t) = true.
Proof. by destruct s. Qed.

Lemma pad2_all_decimal n : Text.all_decimal (datetime.pad2 n) = true.
Proof.
  unfold datetime.pad2. destruct (n <? 10)%N.
  - rewrite all_decimal_cons. apply andb_true_iff; split; [done|apply str_N_spec].
  - apply str_N_spec.
Qed.

(** A time stamp is a non-empty string of decimal digits. *)
Lemma strftime_compact_digits now :
  Text.nonempty (datetime.strftime_compact now) = true
  /\ Text.all_decimal (datetime.strftime_compact now) = true.
Proof.
  unfold datetime.strftime_compact. split.
  - apply nonempty_app_l, str_N_spec.
  - rewrite !all_decimal_app, !pad2_all_decimal.
    by rewrite (proj1 (proj2 (str_N_spec _))).
Qed.

(** ** Invoice numbers *)

Lemma isdigit_char_not_space c : Text.isdigit_char c = true -> Text.isspace c = false.
Proof. by destruct c as [[] [] [] [] [] [] [] []]. Qed.

Lemma rstrip_digits s :
  Text.forallb Text.isdigit_char s = true -> Text.rstrip s = s.
Proof.
  induction s as [|c s IH]; [done|]. cbn.
  intros [Hc Hs]%andb_true_iff. rewrite IH by done.
  destruct s; [|done]. by rewrite isdigit_char_not_space.
Qed.

Lemma strip_digits s :
  Text.forallb Text.isdigit_char s = true -> Text.strip s = s.
Proof.
  intros H. unfold Text.strip.
  assert (Text.lstrip s = s) as ->; [|by apply rstrip_digits].
  destruct s as [|c s]; [done|]. cbn in H.
  apply andb_true_iff in H as [Hc _]. cbn. by rewrite isdigit_char_not_space.
Qed.

Lemma int_digits_decimal b acc s n :
  Text.forallb Text.isdigit_char s = true ->
  Text.int_digits b acc s = Some n -> Text.all_decimal s = true.
Proof.
  revert b acc. induction s as [|c s IH]; intros b acc Hs Hn; [done|].
  cbn in Hs. apply andb_true_iff in Hs as [Hc Hs].
  rewrite all_decimal_cons. cbn in Hn.
  destruct (Text.isdecimal c) eqn:Hd.
  - by apply IH in Hn.
  - exfalso. revert Hc Hd Hn. by destruct c as [[] [] [] [] [] [] [] []].
Qed.

(** When [s.isdigit()] holds and [int(s)] returns, [s] is made of decimal
    digits and [int(s)] is the number they write. *)
Lemma int_isdigit s n :
  Text.isdigit s = true -> Text.int s = Ok n ->
  Text.all_decimal s = true /\ n = Z.of_N (Text.digits_value s).
Proof.
  unfold Text.isdigit. intros [Hne Hs]%andb_true_iff Hint.
  assert (Hdec : Text.all_decimal s = true).
  { unfold Text.int in Hint. rewrite strip_digits in Hint by done.
    destruct s as [|c s]; [done|].
    assert (Hc : Text.isdigit_char c = true).
    { cbn in Hs. by apply andb_true_iff in Hs as [? _]. }
    assert (Hbody : match String c s with
            | String "-" r => (true, r)
            | String "+" r => (false, r)
            | r => (false, r)
            end = (false, String c s)).
    { revert Hc. by destruct c as [[] [] [] [] [] [] [] []]. }
    rewrite Hbody in Hint.
    destruct (Text.int_digits false 0%N (String c s)) eqn:Hd; [|done].
    by eapply int_digits_decimal. }
  split; [done|]. rewrite int_all_decimal in Hint by done. congruence.
Qed.

Lemma foldl_last_row {A B} (f : A -> B) (rows : list A) (r : A) (init : option B) :
  last rows = Some r -> foldl (fun _ row => Some (f row)) init rows = Some (f r).
Proof.
  revert init. induction rows as [|x rows IH]; intros init; [done|].
  destruct rows as [|y rows]; cbn.
  - by intros [= ->].
  - intros H. by apply (IH (Some (f x))).
Qed.

Lemma foldl_no_row {A B} (f : A -> B) (rows : list A) (init : option B) :
  rows = [] -> foldl (fun _ row => Some (f row)) init rows = init.
Proof. by intros ->. Qed.



(** C2 (as stated, refuted): with no master database the generator returns
    ["1"], which is not the time stamp of the clock. *)
Lemma C2_counterexample :
  IEEE._gen_invoice_no Absent noon = "1"
  /\ IEEE._gen_invoice_no Unreadable noon = "1"
  /\ IEEE._gen_invoice_no (Content "") noon = "1"
  /\ datetime.strftime_compact noon = "20241201123456"
  /\ IEEE._gen_invoice_no Absent noon <> datetime.strftime_compact noon.
Proof. by vm_compute. Qed.

(** C2 (amended): when the master database is absent, cannot be opened,
    cannot be read to its end, or holds no record after its header, the
    generator returns ["1"], whatever the clock. *)
Theorem C2_no_record_gives_1 (db : file) (now : datetime.datetime) :
  match db with
  | Absent | Unreadable => True
  | Content text =>
      (csv.DictReader text).2 <> None \/ (csv.DictReader text).1 = []
  end ->
  IEEE._gen_invoice_no db now = "1".
Proof.
  destruct db as [| |text]; [done..|]. unfold IEEE._gen_invoice_no.
  destruct (csv.DictReader text) as [rows [e|]]; [done|].
  cbn. intros [?| ->]; done.
Qed.

Lemma C2_no_record_gives_1_witness :
  IEEE._gen_invoice_no (Content (csv.writerow IEEE.master_header)) noon = "1".
Proof.
  apply (C2_no_record_gives_1 (Content (csv.writerow IEEE.master_header)) noon).
  right. vm_compute. reflexivity.
Defined.





Section Amounts.
Import decimal.

(** ** Decimal values with two places *)

Lemma fix_cents s c : ndigits c <= prec -> _fix (Finite s c (-2)) = Ok (Finite s c (-2)).
Proof.
  intros Hc. unfold _fix. destruct (N.eqb_spec c 0) as [->|Hnz]; [done|].
  destruct (Z.ltb_spec Etop (ndigits c + -2 - prec)) as [H|H].
  { unfold Etop, Emax, prec in *. lia. }
  destruct (Z.ltb_spec (ndigits c + -2 - prec) Etiny) as [H'|H'].
  - by vm_compute.
  - destruct (Z.ltb_spec (-2) (ndigits c + -2 - prec)); [lia|done].
Qed.

Lemma rescale_exp s c e exp r :
  exists s' c', _rescale (Finite s c e) exp r = Finite s' c' exp /\ s' = s.
Proof.
  unfold _rescale. destruct (c =? 0)%N; [by eexists _, _|].
  destruct (exp <=? e); [by eexists _, _|].
  destruct (ndigits c + e - exp <? 0); by eexists _, _.
Qed.

(** What [quantize] to two places returns, when it returns. *)
Lemma quantize_cents d r d' :
  quantize d Decimal_0_01 r = Ok d' ->
  match d with
  | Finite s _ _ => exists c', d' = Finite s c' (-2) /\ ndigits c' <= prec
  | Infinity _ => False
  | NaN s g p => g = false /\ d' = NaN s false (p mod pow10 prec)
  end.
Proof.
  destruct d as [s c e|s|s [] p]; unfold quantize, _check_nans, Decimal_0_01;
    cbv beta iota; try done.
  - change (negb ((Etiny <=? -2) && (-2 <=? Emax))) with false. cbv beta iota.
    destruct (N.eqb_spec c 0) as [->|Hnz].
    + intros [= <-]. by exists 0%N.
    + destruct (Emax <? adjusted c e); [done|].
      destruct (prec <? adjusted c e - -2 + 1); [done|].
      destruct (rescale_exp s c e (-2) r) as (s' & c' & -> & ->).
      destruct (Emax <? adjusted c' (-2)); [done|].
      destruct (Z.ltb_spec prec (ndigits c')); [done|].
      rewrite fix_cents by done. intros [= <-]. by exists c'.
  - by intros [= <-].
Qed.

(** ** The helper [D] *)

Lemma of_str_0 : of_str "0" = Ok Decimal_0.
Proof. reflexivity. Qed.

Lemma of_str_raises text :
  is_ok (of_str text) = false -> of_str text = Raise InvalidOperation.
Proof.
  unfold of_str.
  destruct (Text.remove_char "_" (Text.strip text)) as [|c s]; [done|].
  destruct (match String c s with
            | String "-" r => (true, r)
            | String "+" r => (false, r)
            | _ => (false, String c s)
            end) as [sign [|c' body]]; [done|].
  by destruct (if _ : bool then _ else _).
Qed.

(** When it returns, [D] returns a quiet NaN or a value with two places. *)
Lemma D_returns v d :
  IEEE.D v = Ok d -> is_cents d = true \/ exists s p, d = NaN s false p.
Proof.
  unfold IEEE.D. destruct (of_str (str v)) as [x|e] eqn:E.
  - cbn. intros H%quantize_cents. destruct x as [s c e|s|s g p].
    + destruct H as (c' & -> & Hc). left. cbn. by apply Z.leb_le.
    + done.
    + destruct H as [-> ->]. right. by eexists _, _.
  - assert (e = InvalidOperation) as ->.
    { pose proof (of_str_raises (str v)) as H. rewrite E in H.
      specialize (H eq_refl). congruence. }
    cbn. intros [= <-]. by left.
Qed.



Lemma D_checked v d :
  IEEE.D v = Ok d -> is_nan d = false -> is_cents d = true.
Proof. intros [?|(s & p & ->)]%D_returns; done. Qed.

Lemma mul_finite s1 c1 e1 s2 c2 e2 d :
  __mul__ (Finite s1 c1 e1) (Finite s2 c2 e2) = Ok d ->
  exists s c e, d = Finite s c e.
Proof.
  unfold __mul__, _check_nans. cbv beta iota. unfold _fix.
  repeat (match goal with |- context [if ?b then _ else _] => destruct b end);
    try done; intros [= <-]; by eexists _, _, _.
Qed.

Lemma quantize_finite s c e r d :
  quantize (Finite s c e) Decimal_0_01 r = Ok d -> is_cents d = true.
Proof.
  intros (c' & -> & Hc)%quantize_cents. cbn. by apply Z.leb_le.
Qed.


Lemma strip_zeros_finite fuel c e : exists c' e', strip_zeros fuel c e = (c', e').
Proof. by destruct (strip_zeros fuel c e); eexists _, _. Qed.


(** ** The item ledger *)




(** ** The calculator *)

(** The calculator changes nothing but the totals shown, whether it
    completes or raises. *)
Lemma recalc_frame a : same_but_totals a (IEEE._recalc_totals a).2.
Proof.
  unfold IEEE._recalc_totals. unfold_M.
  repeat (case_res; [|by destruct a]).
  by destruct a.
Qed.

Lemma items_same_but_totals a a' :
  same_but_totals a a' -> IEEE.items a' = IEEE.items a /\ IEEE.tree a' = IEEE.tree a.
Proof. intros ->. by destruct a. Qed.








Lemma ROBOCEK_D_eq v : ROBOCEK.D v = IEEE.D v.
Proof. reflexivity. Qed.

Lemma ROBOCEK_fmt_money_eq v : ROBOCEK.fmt_money v = IEEE.fmt_money v.
Proof. reflexivity. Qed.

Lemma IEEE_recalc_totals_of a T a' :
  IEEE._recalc_totals a = (Ok T, a') ->
  totals_of (IEEE.items a) (IEEE.discount_pct a) (IEEE.tax_pct a) T
  /\ IEEE.fmt_money (VDec (subtotal T)) = Ok (IEEE.subtotal_var a')
  /\ IEEE.fmt_money (VDec (discount_amt T)) = Ok (IEEE.discount_amt_var a')
  /\ IEEE.fmt_money (VDec (tax_amt T)) = Ok (IEEE.tax_amt_var a')
  /\ IEEE.fmt_money (VDec (grand T)) = Ok (IEEE.grand_total_var a').
Proof.
  unfold IEEE._recalc_totals. unfold_M.
  repeat (case_res; [|done]). intros [= <- <-].
  unfold totals_of, round_half_up_2, percent_of, pct_of_text, items_subtotal.
  cbn [subtotal discount_pct_value discount_amt tax_pct_value taxable tax_amt grand].
  destruct a; cbn in *.
  rewrite !bind_assoc. by repeat split.
Qed.


Lemma bind_inv {A B} (x : res A) (f : A -> res B) b :
  x ≫= f = Ok b -> exists a, x = Ok a /\ f a = Ok b.
Proof. destruct x as [a|e]; [|done]. intros H. by exists a. Qed.

Lemma is_ok_inv {A} (x : res A) : is_ok x = true -> exists a, x = Ok a.
Proof. destruct x as [a|e]; [|done]. intros _. by exists a. Qed.

Lemma IEEE_recalc_completes a T :
  totals_of (IEEE.items a) (IEEE.discount_pct a) (IEEE.tax_pct a) T ->
  can_be_shown T = true ->
  (IEEE._recalc_totals a).1 = Ok T.
Proof.
  destruct T as [sub dp da tp tx ta gr].
  unfold totals_of, round_half_up_2, percent_of, pct_of_text, items_subtotal, can_be_shown.
  cbn [subtotal discount_pct_value discount_amt tax_pct_value taxable tax_amt grand].
  intros (Hs & -> & -> & Hd & Ht & Hx & Hg).
  intros [[[(s1 & F1)%is_ok_inv (s2 & F2)%is_ok_inv]%andb_true_iff
            (s3 & F3)%is_ok_inv]%andb_true_iff (s4 & F4)%is_ok_inv]%andb_true_iff.
  rewrite bind_assoc in Hd, Hx. unfold mbind in Hd, Ht, Hx, Hg.
  unfold IEEE._recalc_totals. unfold_M. destruct a; cbn in *.
  rewrite Hs, F1. cbn. rewrite Hd, F2. cbn. rewrite Ht. cbn.
  rewrite Hx, F3. cbn. rewrite Hg, F4. reflexivity.
Qed.




(** C3 (as stated, refuted): on one item of 100.00 a discount of -10% is
    not taken as zero: the discount shown is -10.00 and the grand total
    129.80, where 0% gives 0.00 and 118.00. *)
Lemma C3_counterexample :
  let one_item := (IEEE.add_item (request "Speaker" "1" "100" fresh)).2 in
  IEEE.discount_amt_var (IEEE.write_discount_pct "-10" one_item).2 = "-10.00"
  /\ IEEE.grand_total_var (IEEE.write_discount_pct "-10" one_item).2 = "129.80"
  /\ IEEE.discount_amt_var (IEEE.write_discount_pct "0" one_item).2 = "0.00"
  /\ IEEE.grand_total_var (IEEE.write_discount_pct "0" one_item).2 = "118.00".
Proof. by vm_compute. Qed.

Lemma D_unparsable text :
  is_ok (of_str text) = false -> IEEE.D (VStr text) = IEEE.D (VStr "0").
Proof.
  intros H%of_str_raises. unfold IEEE.D. cbn [str]. by rewrite H, of_str_0.
Qed.

(** C3 (amended): a discount or tax percentage that is not the text of a
    number is taken as zero: the calculator does on it exactly what it does
    on ["0"], with the same totals or the same exception, and the same
    totals shown. *)
Theorem C3_unparsable_pct_is_zero (a : IEEE.BillingApp) (text : string) :
  is_ok (of_str text) = false ->
  IEEE._recalc_totals (IEEE.set_discount_pct text a)
  = ((IEEE._recalc_totals (IEEE.set_discount_pct "0" a)).1,
     IEEE.set_discount_pct text (IEEE._recalc_totals (IEEE.set_discount_pct "0" a)).2)
  /\ IEEE._recalc_totals (IEEE.set_tax_pct text a)
     = ((IEEE._recalc_totals (IEEE.set_tax_pct "0" a)).1,
        IEEE.set_tax_pct text (IEEE._recalc_totals (IEEE.set_tax_pct "0" a)).2).
Proof.
  intros H%D_unparsable. destruct a. unfold IEEE._recalc_totals. unfold_M.
  cbn [IEEE.items IEEE.discount_pct IEEE.tax_pct IEEE.set_discount_pct
       IEEE.set_tax_pct IEEE.set_subtotal_var IEEE.set_discount_amt_var
       IEEE.set_tax_amt_var IEEE.set_grand_total_var].
  rewrite H. split; repeat (case_res; [|reflexivity]); reflexivity.
Qed.

Lemma C3_unparsable_pct_is_zero_witness :
  IEEE._recalc_totals (IEEE.set_discount_pct "ten" scenario)
  = ((IEEE._recalc_totals (IEEE.set_discount_pct "0" scenario)).1,
     IEEE.set_discount_pct "ten"
       (IEEE._recalc_totals (IEEE.set_discount_pct "0" scenario)).2).
Proof.
  apply (proj1 (C3_unparsable_pct_is_zero scenario "ten" eq_refl)).
Defined.

(** C6 (the code departs from it): [D] raises InvalidOperation on the text
    of an infinity, of a signaling NaN and of a number of more than 26
    integer digits, and it returns NaN, not an amount, on the text of a
    NaN. *)
Lemma C6_D_raises :
  IEEE.D (VStr "Infinity") = Raise InvalidOperation
  /\ IEEE.D (VStr "sNaN") = Raise InvalidOperation
  /\ IEEE.D (VStr "1e26") = Raise InvalidOperation
  /\ IEEE.D (VStr "NaN") = Ok (NaN false false 0).
Proof. by vm_compute. Qed.

(** C8: on the same items and the same two percentage texts the
    calculators of the two programs do the same: the same totals or the
    same exception, and, when they complete, the same four totals shown. *)
Theorem C8_same_calculator (a : IEEE.BillingApp) (b : ROBOCEK.BillingApp) :
  IEEE.items a = ROBOCEK.items b ->
  IEEE.discount_pct a = ROBOCEK.discount_pct b ->
  IEEE.tax_pct a = ROBOCEK.tax_pct b ->
  (IEEE._recalc_totals a).1 = (ROBOCEK._recalc_totals b).1
  /\ (is_ok (IEEE._recalc_totals a).1 = true ->
      IEEE.subtotal_var (IEEE._recalc_totals a).2
        = ROBOCEK.subtotal_var (ROBOCEK._recalc_totals b).2
      /\ IEEE.discount_amt_var (IEEE._recalc_totals a).2
         = ROBOCEK.discount_amt_var (ROBOCEK._recalc_totals b).2
      /\ IEEE.tax_amt_var (IEEE._recalc_totals a).2
         = ROBOCEK.tax_amt_var (ROBOCEK._recalc_totals b).2
      /\ IEEE.grand_total_var (IEEE._recalc_totals a).2
         = ROBOCEK.grand_total_var (ROBOCEK._recalc_totals b).2).
Proof.
  destruct a, b. cbn [IEEE.items ROBOCEK.items IEEE.discount_pct
    ROBOCEK.discount_pct IEEE.tax_pct ROBOCEK.tax_pct].
  intros -> -> ->. unfold IEEE._recalc_totals, ROBOCEK._recalc_totals. unfold_M.
  change ROBOCEK.fmt_money with IEEE.fmt_money.
  change ROBOCEK.D with IEEE.D.
  cbn [IEEE.items ROBOCEK.items IEEE.discount_pct ROBOCEK.discount_pct
       IEEE.tax_pct ROBOCEK.tax_pct
       IEEE.set_subtotal_var IEEE.set_discount_amt_var
       IEEE.set_tax_amt_var IEEE.set_grand_total_var
       ROBOCEK.set_subtotal_var ROBOCEK.set_discount_amt_var
       ROBOCEK.set_tax_amt_var ROBOCEK.set_grand_total_var].
  repeat (case_res; [|by split]). by split.
Qed.

Lemma C8_same_calculator_witness :
  (IEEE._recalc_totals scenario).1 = (ROBOCEK._recalc_totals robocek_scenario).1.
Proof.
  apply (proj1 (C8_same_calculator scenario robocek_scenario
                  eq_refl eq_refl eq_refl)).
Defined.

(** ** The ledger and its table *)

Lemma same_but_totals_sym_fields a a' :
  same_but_totals a a' ->
  IEEE.chair_name a' = IEEE.chair_name a
  /\ IEEE.chair_position a' = IEEE.chair_position a
  /\ IEEE.recipient_name a' = IEEE.recipient_name a
  /\ IEEE.recipient_phone a' = IEEE.recipient_phone a
  /\ IEEE.item_name a' = IEEE.item_name a
  /\ IEEE.item_qty a' = IEEE.item_qty a
  /\ IEEE.item_price a' = IEEE.item_price a
  /\ IEEE.discount_pct a' = IEEE.discount_pct a
  /\ IEEE.tax_pct a' = IEEE.tax_pct a
  /\ IEEE.items a' = IEEE.items a
  /\ IEEE.master_db a' = IEEE.master_db a
  /\ IEEE.invoice_no_var a' = IEEE.invoice_no_var a
  /\ IEEE.date_var a' = IEEE.date_var a
  /\ IEEE.tree a' = IEEE.tree a
  /\ IEEE.history_tree a' = IEEE.history_tree a
  /\ IEEE.written a' = IEEE.written a
  /\ IEEE.messages a' = IEEE.messages a.
Proof. intros ->. by destruct a. Qed.


Lemma recalc_same_ledger a : same_ledger a (IEEE._recalc_totals a).2.
Proof. apply items_same_but_totals, recalc_frame. Qed.

Lemma callback_recalc_same_ledger a :
  same_ledger a (callback IEEE._recalc_totals a).2.
Proof.
  unfold callback. pose proof (recalc_same_ledger a) as H.
  by destruct (IEEE._recalc_totals a) as [[T|e] a'].
Qed.



(** What [remove_selected_item] leaves when a row is selected. *)
Lemma remove_selected_item_ledger a idx :
  (idx < length (IEEE.tree a))%nat ->
  IEEE.items (IEEE.remove_selected_item (Some idx) a).2 = delete idx (IEEE.items a)
  /\ IEEE.tree (IEEE.remove_selected_item (Some idx) a).2 = delete idx (IEEE.tree a).
Proof.
  intros Hidx. unfold IEEE.remove_selected_item. unfold_M.
  destruct (decide (idx < length (IEEE.tree a))%nat); [|done].
  set (a1 := IEEE.set_items _ _).
  destruct (recalc_same_ledger a1) as [Hi Ht].
  assert ((let '(r, s') := IEEE._recalc_totals a1 in
           match r with Ok _ => (Ok (), s') | Raise e => (Raise e, s') end).2
          = (IEEE._recalc_totals a1).2) as ->
    by (by destruct (IEEE._recalc_totals a1) as [[]]).
  rewrite Hi, Ht. subst a1. by destruct a.
Qed.



Lemma recalc_with_totals a :
  exists s d t g, (IEEE._recalc_totals a).2 = with_totals s d t g a.
Proof. eexists _, _, _, _. apply recalc_frame. Qed.

Lemma recalc_empty a :
  IEEE.items a = [] -> IEEE.discount_pct a = "0" -> IEEE.tax_pct a = "18" ->
  IEEE._recalc_totals a = (Ok zero_totals, with_totals "0.00" "0.00" "0.00" "0.00" a).
Proof.
  destruct a; cbn [IEEE.items IEEE.discount_pct IEEE.tax_pct].
  intros -> -> ->. by vm_compute.
Qed.

Lemma reset_invoice_confirmed a now now' :
  IEEE.reset_invoice true now now' a = (Ok tt, reset_state a now now').
Proof.
  unfold IEEE.reset_invoice, IEEE.write_discount_pct, IEEE.write_tax_pct.
  unfold_M. cbn [negb]. cbv beta iota.
  set (a1 := IEEE.set_discount_pct "0" _).
  destruct (recalc_with_totals a1) as (s & d & t & g & ->).
  set (a2 := IEEE.set_tax_pct "18" _).
  rewrite (recalc_empty a2) by (subst a2 a1; by destruct a).
  cbn [fst snd].
  set (a3 := IEEE.set_date_var _ _).
  rewrite (recalc_empty a3) by (subst a3 a2 a1; by destruct a).
  subst a3 a2 a1. by destruct a.
Qed.











(** X2.  The calculator changes nothing but the four totals shown: the
    ledger, the table, the entry fields, the two percentages, the invoice
    number and date, the master database, the files written and the
    messages are after it as they were before, whether it completes or
    raises on the way. *)
Theorem recalc_touches_only_totals (a : IEEE.BillingApp) :
  exists s d t g,
    (IEEE._recalc_totals a).2
    = IEEE.mkApp (IEEE.chair_name a) (IEEE.chair_position a)
        (IEEE.recipient_name a) (IEEE.recipient_phone a) (IEEE.item_name a)
        (IEEE.item_qty a) (IEEE.item_price a) (IEEE.discount_pct a)
        (IEEE.tax_pct a) (IEEE.items a) (IEEE.master_db a)
        (IEEE.invoice_no_var a) (IEEE.date_var a) (IEEE.tree a) s d t g
        (IEEE.history_tree a) (IEEE.written a) (IEEE.messages a).
Proof.
  destruct (recalc_with_totals a) as (s & d & t & g & ->).
  exists s, d, t, g. by destruct a.
Qed.

(** X3.  With the row at position [idx] selected, [remove_selected_item]
    takes that row out of the table and the item at the same position out
    of the ledger, and keeps the others in their order; with no row
    selected it shows a message and leaves the ledger and the table as
    they are. *)
Theorem remove_selected_item_removes (a : IEEE.BillingApp) (idx : nat) :
  (idx < length (IEEE.tree a))%nat ->
  (IEEE.items (IEEE.remove_selected_item (Some idx) a).2 = delete idx (IEEE.items a)
   /\ IEEE.tree (IEEE.remove_selected_item (Some idx) a).2 = delete idx (IEEE.tree a)
   /\ IEEE.messages (IEEE.remove_selected_item (Some idx) a).2 = IEEE.messages a)
  /\ IEEE.remove_selected_item None a
     = (Ok tt, IEEE.set_messages
                 (IEEE.messages a ++ [mkMessage showinfo "Info" "No item selected." None])
                 a).
Proof.
  intros Hidx. split; [|reflexivity].
  destruct (remove_selected_item_ledger a idx Hidx) as [Hi Ht].
  split; [done|]. split; [done|].
  unfold IEEE.remove_selected_item. unfold_M.
  destruct (decide (idx < length (IEEE.tree a))%nat); [|done].
  set (a1 := IEEE.set_items _ _).
  destruct (recalc_with_totals a1) as (s & d & t & g & Hs).
  assert ((let '(r, s') := IEEE._recalc_totals a1 in
           match r with Ok _ => (Ok (), s') | Raise e => (Raise e, s') end).2
          = (IEEE._recalc_totals a1).2) as ->
    by (by destruct (IEEE._recalc_totals a1) as [[]]).
  rewrite Hs. subst a1. by destruct a.
Qed.

Lemma remove_selected_item_removes_witness :
  IEEE.items (IEEE.remove_selected_item (Some 0%nat) scenario).2
  = [mkItem "Cable" (Finite false 500 (-2)) (Finite false 2000 (-2))
       (Finite false 10000 (-2))].
Proof.
  assert (H : (0 < length (IEEE.tree scenario))%nat) by (vm_compute; lia).
  destruct (remove_selected_item_removes scenario 0 H) as [[-> _] _].
  by vm_compute.
Defined.

(** X4.  A reset that is not confirmed changes nothing.  A confirmed
    reset gives the application as it starts on the same master database
    at the same readings of the clock (no item, no row, no recipient, the
    percentages 0 and 18, the four totals 0.00, the next invoice number
    and the date), but for the chair name, the three item entry fields,
    the history window, the files written and the messages shown, which
    it keeps. *)
Theorem reset_invoice_starts_afresh (a : IEEE.BillingApp) now now' :
  IEEE.reset_invoice false now now' a = (Ok tt, a)
  /\ IEEE.reset_invoice true now now' a
     = (Ok tt,
        IEEE.set_chair_name (IEEE.chair_name a)
          (IEEE.set_item_name (IEEE.item_name a)
             (IEEE.set_item_qty (IEEE.item_qty a)
                (IEEE.set_item_price (IEEE.item_price a)
                   (IEEE.set_history_tree (IEEE.history_tree a)
                      (IEEE.set_written (IEEE.written a)
                         (IEEE.set_messages (IEEE.messages a)
                            (IEEE.__init__ (IEEE.master_db a) now now')))))))).
Proof.
  split; [reflexivity|]. by rewrite reset_invoice_confirmed.
Qed.

(** ** The text of an amount, and the amount of the text *)

Lemma rstrip_plain s : Text.forallb plain_char s = true -> Text.rstrip s = s.
Proof.
  induction s as [|c s IH]; [done|]. cbn.
  intros [Hc Hs]%andb_true_iff. rewrite IH by done.
  destruct s; [|done]. unfold plain_char in Hc.
  apply andb_true_iff in Hc as [Hc%negb_true_iff _]. by rewrite Hc.
Qed.

Lemma strip_plain s : Text.forallb plain_char s = true -> Text.strip s = s.
Proof.
  intros H. unfold Text.strip.
  assert (Text.lstrip s = s) as ->; [|by apply rstrip_plain].
  destruct s as [|c s]; [done|]. cbn in H.
  apply andb_true_iff in H as [Hc _]. unfold plain_char in Hc.
  apply andb_true_iff in Hc as [Hc%negb_true_iff _]. cbn. by rewrite Hc.
Qed.

Lemma remove_char_plain s :
  Text.forallb plain_char s = true -> Text.remove_char "_" s = s.
Proof.
  induction s as [|c s IH]; [done|]. cbn.
  intros [Hc Hs]%andb_true_iff. unfold plain_char in Hc.
  apply andb_true_iff in Hc as [_ Hc%negb_true_iff]. by rewrite Hc, IH.
Qed.

Lemma isdecimal_plain c : Text.isdecimal c = true -> plain_char c = true.
Proof. by destruct c as [[] [] [] [] [] [] [] []]. Qed.

Lemma all_decimal_plain s :
  Text.all_decimal s = true -> Text.forallb plain_char s = true.
Proof.
  induction s as [|c s IH]; [done|]. cbn.
  intros [Hc Hs]%andb_true_iff. by rewrite isdecimal_plain, IH.
Qed.

Lemma span_decimal_all s :
  Text.all_decimal s = true -> Text.span_decimal s = (s, "").
Proof.
  induction s as [|c s IH]; [done|]. cbn.
  intros [Hc Hs]%andb_true_iff. by rewrite Hc, IH.
Qed.

Lemma span_decimal_stop d c r :
  Text.all_decimal d = true -> Text.isdecimal c = false ->
  Text.span_decimal (d +:+ String c r) = (d, String c r).
Proof.
  intros Hd Hc. induction d as [|x d IH].
  - rewrite string_app_nil_l. cbn. by rewrite Hc.
  - rewrite string_app_cons. cbn in *.
    apply andb_true_iff in Hd as [Hx Hd]. by rewrite Hx, IH.
Qed.

Lemma take_drop n s : take n s +:+ drop n s = s.
Proof.
  revert s. induction n as [|n IH]; intros [|c s]; try done.
  cbn [take drop]. by rewrite string_app_cons, IH.
Qed.

Lemma drop_length n s :
  String.length (drop n s) = (String.length s - n)%nat.
Proof. revert s. induction n as [|n IH]; intros [|c s]; cbn; done. Qed.

Lemma take_nonempty n s :
  (0 < n)%nat -> Text.nonempty s = true -> Text.nonempty (take n s) = true.
Proof. intros Hn Hs. destruct n, s; try lia; done. Qed.

Lemma zeros_all_decimal k : Text.all_decimal (Text.zeros k) = true.
Proof. by induction k. Qed.

Lemma zeros_length k : String.length (Text.zeros k) = k.
Proof. induction k; cbn; congruence. Qed.

Lemma digits_value_zeros k s :
  Text.digits_value (Text.zeros k +:+ s) = Text.digits_value s.
Proof. by induction k. Qed.

(** The text of a value with two places: a sign for a negative value, at
    least one digit, the point and two digits. *)
Lemma str_two_places s c :
  exists ip fp,
    __str__ (Finite s c (-2)) = (if s then "-" else "") +:+ ip +:+ String "." fp
    /\ Text.nonempty ip = true /\ Text.all_decimal ip = true
    /\ Text.all_decimal fp = true /\ String.length fp = 2%nat
    /\ Text.digits_value (ip +:+ fp) = c.
Proof.
  destruct (str_N_spec c) as (Hne & Hdec & Hval & _).
  unfold __str__. set (digits := Text.str_N c) in *.
  assert (Hlen : (1 <= String.length digits)%nat) by (destruct digits; [done|cbn; lia]).
  cbv zeta. change (-2 <=? 0) with true. cbn [andb].
  destruct (Z.ltb_spec (-6) (-2 + Z.of_nat (String.length digits))) as [_|]; [|lia].
  rewrite Z.eqb_refl.
  destruct (Z.leb_spec (-2 + Z.of_nat (String.length digits)) 0) as [Hs|Hl].
  - exists "0", (Text.zeros (Z.to_nat (- (-2 + Z.of_nat (String.length digits)))) +:+ digits).
    split; [by rewrite string_app_nil_r|].
    split; [done|]. split; [done|].
    split; [by rewrite all_decimal_app, zeros_all_decimal|].
    split; [rewrite string_app_length, zeros_length; lia|].
    change (Text.digits_value ("0" +:+ ?x)) with (Text.digits_value x).
    by rewrite digits_value_zeros.
  - destruct (Z.leb_spec (Z.of_nat (String.length digits))
                (-2 + Z.of_nat (String.length digits))); [lia|].
    exists (take (Z.to_nat (-2 + Z.of_nat (String.length digits))) digits),
           (drop (Z.to_nat (-2 + Z.of_nat (String.length digits))) digits).
    split; [by rewrite string_app_nil_r|].
    pose proof (take_drop (Z.to_nat (-2 + Z.of_nat (String.length digits))) digits) as Htd.
    assert (Hboth : Text.all_decimal
              (take (Z.to_nat (-2 + Z.of_nat (String.length digits))) digits
               +:+ drop (Z.to_nat (-2 + Z.of_nat (String.length digits))) digits) = true)
      by (by rewrite Htd).
    rewrite all_decimal_app in Hboth. apply andb_true_iff in Hboth as [Ht Hd].
    split; [apply take_nonempty; [lia|done]|].
    split; [done|]. split; [done|].
    split; [rewrite drop_length; lia|]. by rewrite Htd.
Qed.

Lemma plain_text s ip fp :
  Text.all_decimal ip = true -> Text.all_decimal fp = true ->
  Text.forallb plain_char ((if s : bool then "-" else "") +:+ ip +:+ String "." fp) = true.
Proof.
  intros Hi Hf. rewrite !text_forallb_app. cbn [Text.forallb].
  rewrite (all_decimal_plain ip), (all_decimal_plain fp) by done. by destruct s.
Qed.

(** [Decimal(text)] on the text of a number with a point. *)
Lemma of_str_plain s ip fp :
  Text.nonempty ip = true -> Text.all_decimal ip = true ->
  Text.all_decimal fp = true ->
  ndigits (Text.digits_value (ip +:+ fp)) <= prec ->
  (String.length fp <= 1000)%nat ->
  of_str ((if s : bool then "-" else "") +:+ ip +:+ String "." fp)
  = Ok (Finite s (Text.digits_value (ip +:+ fp)) (- Z.of_nat (String.length fp))).
Proof.
  intros Hne Hi Hf Hnd Hlen. unfold of_str.
  rewrite strip_plain, remove_char_plain by (by apply plain_text).
  destruct ip as [|i ip]; [done|]. rewrite all_decimal_cons in Hi.
  apply andb_true_iff in Hi as [Hi0 Hi].
  assert (Hsign : (let '(sign, body) :=
            match (if s : bool then "-" else "") +:+ String i ip +:+ String "." fp with
            | String "-" r => (true, r)
            | String "+" r => (false, r)
            | _ => (false, (if s : bool then "-" else "") +:+ String i ip +:+ String "." fp)
            end in (sign, body)) = (s, String i (ip +:+ String "." fp))).
  { destruct s.
    - reflexivity.
    - rewrite string_app_nil_l, string_app_cons.
      revert Hi0. by destruct i as [[] [] [] [] [] [] [] []]. }
  destruct (match (if s : bool then "-" else "") +:+ String i ip +:+ String "." fp with
            | String "-" r => (true, r)
            | String "+" r => (false, r)
            | _ => (false, (if s : bool then "-" else "") +:+ String i ip +:+ String "." fp)
            end) as [sign body].
  injection Hsign as -> ->. rewrite Hi0. cbn [orb].
  unfold parse_number.
  change (String i (ip +:+ String "." fp)) with (String i ip +:+ String "." fp).
  rewrite span_decimal_stop by (by rewrite ?all_decimal_cons, ?Hi0).
  rewrite span_decimal_all by done. cbn [Text.nonempty orb parse_exponent].
  destruct (Z.leb_spec MIN_ETINY (0 - Z.of_nat (String.length fp))) as [_|H];
    [|unfold MIN_ETINY in H; lia].
  cbn [andb].
  destruct (Text.digits_value (String i ip +:+ fp) =? 0)%N.
  - destruct (Z.leb_spec (0 - Z.of_nat (String.length fp)) MAX_EMAX) as [_|H];
      [|unfold MAX_EMAX in H; lia].
    by rewrite Z.sub_0_l.
  - unfold adjusted.
    destruct (Z.leb_spec
      (0 - Z.of_nat (String.length fp)
       + ndigits (Text.digits_value (String i ip +:+ fp)) - 1) MAX_EMAX) as [_|H];
      [|unfold MAX_EMAX, prec in *; lia].
    by rewrite Z.sub_0_l.
Qed.

(** The text of a value with two places is read back as that value. *)
Lemma of_str_str_cents d :
  is_cents d = true -> of_str (__str__ d) = Ok d.
Proof.
  destruct d as [s c e| |]; [|done..]. cbn.
  intros [->%Z.eqb_eq Hc%Z.leb_le]%andb_true_iff.
  destruct (str_two_places s c) as (ip & fp & -> & Hne & Hi & Hf & Hlen & Hval).
  rewrite of_str_plain by (rewrite ?Hval, ?Hlen; done || lia).
  by rewrite Hval, Hlen.
Qed.

(** Rounding to two places a value that has two places gives it back. *)
Lemma quantize_cents_same d r :
  is_cents d = true -> quantize d Decimal_0_01 r = Ok d.
Proof.
  destruct d as [s c e| |]; [|done..]. cbn.
  intros [->%Z.eqb_eq Hc%Z.leb_le]%andb_true_iff.
  unfold quantize, _check_nans, Decimal_0_01. cbv beta iota.
  change (negb ((Etiny <=? -2) && (-2 <=? Emax))) with false. cbv beta iota.
  destruct (N.eqb_spec c 0) as [->|Hnz]; [done|].
  unfold adjusted.
  destruct (Z.ltb_spec Emax (-2 + ndigits c - 1)); [unfold Emax, prec in *; lia|].
  destruct (Z.ltb_spec prec (-2 + ndigits c - 1 - -2 + 1)); [lia|].
  unfold _rescale. apply N.eqb_neq in Hnz. rewrite Hnz.
  change (-2 <=? -2) with true. cbv beta iota.
  change (pow10 (-2 - -2)) with 1%N. rewrite N.mul_1_r.
  destruct (Z.ltb_spec Emax (-2 + ndigits c - 1)); [lia|].
  destruct (Z.ltb_spec prec (ndigits c)); [lia|]. by apply fix_cents.
Qed.

(** [D] gives back a value with two places. *)
Lemma D_cents d : is_cents d = true -> IEEE.D (VDec d) = Ok d.
Proof.
  intros H. unfold IEEE.D. cbn [str]. rewrite of_str_str_cents by done.
  cbn. by apply quantize_cents_same.
Qed.

Lemma payload_str_spec p :
  Text.all_decimal (payload_str p) = true
  /\ Text.digits_value (payload_str p) = p.
Proof.
  unfold payload_str. destruct (N.eqb_spec p 0) as [->|_]; [done|].
  split; apply str_N_spec.
Qed.

Lemma parse_special_nan sign diag :
  Text.all_decimal diag = true ->
  parse_special sign (String "N" (String "a" (String "N" diag)))
  = Some (NaN sign false (Text.digits_value diag)).
Proof.
  intros Hdec. unfold parse_special.
  assert (String.eqb (Text.lower (String "N" (String "a" (String "N" diag)))) "inf"
          = false) as -> by (by vm_compute).
  assert (String.eqb (Text.lower (String "N" (String "a" (String "N" diag)))) "infinity"
          = false) as -> by (by vm_compute).
  assert (strip_keyword "nan" (String "N" (String "a" (String "N" diag))) = Some diag)
    as -> by (by vm_compute).
  cbn [orb]. by rewrite Hdec.
Qed.

(** The text of a quiet NaN is read back as that NaN. *)
Lemma of_str_str_nan s p : of_str (__str__ (NaN s false p)) = Ok (NaN s false p).
Proof.
  destruct (payload_str_spec p) as [Hdec Hval].
  unfold __str__, of_str.
  assert (Hplain : Text.forallb plain_char
            ((if s then "-" else "") +:+ "NaN" +:+ payload_str p) = true).
  { rewrite !text_forallb_app, (all_decimal_plain (payload_str p)) by done.
    by destruct s. }
  rewrite strip_plain, remove_char_plain by done.
  assert (Heq : (if s then "-" else "") +:+ "NaN" +:+ payload_str p
                = if s then String "-" (String "N" (String "a" (String "N" (payload_str p))))
                  else String "N" (String "a" (String "N" (payload_str p))))
    by (by destruct s).
  rewrite Heq.
  destruct s; cbv beta iota; change (Text.isdecimal "N" || Ascii.eqb "N" ".") with false;
    cbv beta iota; by rewrite parse_special_nan, Hval.
Qed.

Lemma D_nan s p : IEEE.D (VDec (NaN s false p)) = Ok (NaN s false (p mod pow10 prec)).
Proof. unfold IEEE.D. cbn [str]. by rewrite of_str_str_nan. Qed.

(** X10.  [D] gives back what it has returned: a value [D] returns has
    two places or is a NaN, its text is read back as the same value, and
    rounding it again changes nothing, so that [D(D(v))] is [D(v)]; and an
    exception [D] raises is InvalidOperation, no other. *)
Theorem D_idempotent (v : pyval) :
  (forall d, IEEE.D v = Ok d ->
     of_str (__str__ d) = Ok d /\ IEEE.D (VDec d) = Ok d
     /\ (is_cents d = true \/ is_nan d = true))
  /\ (forall e, IEEE.D v = Raise e -> e = InvalidOperation).
Proof.
  split.
  - intros d Hd.
    assert (H : is_cents d = true
                \/ exists s p, d = NaN s false (p mod pow10 prec)).
    { unfold IEEE.D in Hd. destruct (of_str (str v)) as [x|e] eqn:E.
      - cbn in Hd. apply quantize_cents in Hd. destruct x as [s c e|s|s g p].
        + destruct Hd as (c' & -> & Hc). left. cbn. by apply Z.leb_le.
        + done.
        + destruct Hd as [-> ->]. right. by eexists _, _.
      - assert (e = InvalidOperation) as ->.
        { pose proof (of_str_raises (str v)) as H. rewrite E in H.
          specialize (H eq_refl). congruence. }
        cbn in Hd. injection Hd as <-. by left. }
    destruct H as [Hc|(s & p & ->)].
    + split; [by apply of_str_str_cents|]. split; [by apply D_cents|by left].
    + split; [apply of_str_str_nan|]. split; [|by right].
      rewrite D_nan. by rewrite N.Div0.mod_mod.
  - intros e. unfold IEEE.D. destruct (of_str (str v)) as [x|e'] eqn:E.
    + cbn. unfold quantize.
      destruct (_check_nans x Decimal_0_01) as [[?|?]|] eqn:Hn.
      * done.
      * intros [= <-]. revert Hn. unfold _check_nans.
        destruct x as [? ? ?|?|? [] ?]; cbn; congruence.
      * destruct x as [s c ex|s|s g p]; cbn; [|by intros [= <-]..].
        unfold Decimal_0_01. 
        change (negb ((Etiny <=? -2) && (-2 <=? Emax))) with false. cbv beta iota.
        destruct (c =? 0)%N; [done|].
        destruct (Emax <? adjusted c ex); [by intros [= <-]|].
        destruct (prec <? adjusted c ex - -2 + 1); [by intros [= <-]|].
        destruct (rescale_exp s c ex (-2) ROUND_HALF_UP) as (s' & c' & -> & ->).
        destruct (Emax <? adjusted c' (-2)); [by intros [= <-]|].
        destruct (Z.ltb_spec prec (ndigits c')); [by intros [= <-]|].
        by rewrite fix_cents.
    + assert (e' = InvalidOperation) as ->.
      { pose proof (of_str_raises (str v)) as H. rewrite E in H.
        specialize (H eq_refl). congruence. }
      done.
Qed.

Lemma quantize_rounded d r d' :
  quantize d Decimal_0_01 r = Ok d' -> rounded d'.
Proof.
  intros H%quantize_cents. destruct d as [s c e|s|s g p].
  - destruct H as (c' & -> & Hc). left. cbn. by apply Z.leb_le.
  - done.
  - destruct H as [-> ->]. right. by eexists _, _.
Qed.

Lemma round_half_up_2_rounded x d : round_half_up_2 x = Ok d -> rounded d.
Proof.
  unfold round_half_up_2. destruct x as [y|]; [|done]. cbn. apply quantize_rounded.
Qed.

Lemma D_rounded d : rounded d -> IEEE.D (VDec d) = Ok d.
Proof.
  intros [Hc|(s & p & ->)]; [by apply D_cents|].
  rewrite D_nan. by rewrite N.Div0.mod_mod.
Qed.

(** [fmt_money] on a value [D] returns. *)
Lemma fmt_money_rounded d :
  rounded d -> IEEE.fmt_money (VDec d) = Ok (format_2f "," d).
Proof. intros H. unfold IEEE.fmt_money. by rewrite D_rounded. Qed.

(** X11.  The calculator completes whenever the arithmetic of the totals
    is defined and the subtotal has two places (which the sum of line
    totals has unless it takes more than 28 digits): it then shows the
    subtotal, the discount, the tax and the grand total with two decimals
    and the thousands separated by commas, and changes nothing else. *)
Theorem recalc_completes (a : IEEE.BillingApp) (T : Totals) :
  totals_of (IEEE.items a) (IEEE.discount_pct a) (IEEE.tax_pct a) T ->
  rounded (subtotal T) ->
  IEEE._recalc_totals a
  = (Ok T, with_totals (format_2f "," (subtotal T)) (format_2f "," (discount_amt T))
             (format_2f "," (tax_amt T)) (format_2f "," (grand T)) a).
Proof.
  intros HT Hs.
  assert (Hd : rounded (discount_amt T)).
  { destruct HT as (_ & _ & _ & H & _). by apply round_half_up_2_rounded in H. }
  assert (Hx : rounded (tax_amt T)).
  { destruct HT as (_ & _ & _ & _ & _ & H & _). by apply round_half_up_2_rounded in H. }
  assert (Hg : rounded (grand T)).
  { destruct HT as (_ & _ & _ & _ & _ & _ & H). by apply round_half_up_2_rounded in H. }
  assert (Hshown : can_be_shown T = true).
  { unfold can_be_shown. by rewrite !fmt_money_rounded. }
  pose proof (IEEE_recalc_completes a T HT Hshown) as Hrun.
  destruct (IEEE._recalc_totals a) as [r a'] eqn:E. cbn in Hrun. subst r.
  destruct (IEEE_recalc_totals_of a T a' E) as (_ & F1 & F2 & F3 & F4).
  rewrite fmt_money_rounded in F1, F2, F3, F4 by done.
  injection F1 as F1. injection F2 as F2. injection F3 as F3. injection F4 as F4.
  f_equal. destruct (recalc_with_totals a) as (s & d & t & g & Hw).
  rewrite E in Hw. cbn in Hw. subst a'.
  rewrite F1, F2, F3, F4. revert F1 F2 F3 F4. destruct a; cbn. by intros <- <- <- <-.
Qed.

Lemma recalc_completes_witness :
  IEEE.grand_total_var (IEEE._recalc_totals scenario).2 = "637.20".
Proof.
  assert (HT : totals_of (IEEE.items scenario) (IEEE.discount_pct scenario)
                 (IEEE.tax_pct scenario) scenario_totals) by (by vm_compute).
  assert (Hs : rounded (subtotal scenario_totals)) by (by left).
  rewrite (recalc_completes scenario scenario_totals HT Hs). by vm_compute.
Defined.

(** The percentage a text stands for is zero with no place, or has two
    places, unless it is a NaN. *)
Lemma pct_of_text_finite text :
  is_nan (pct_of_text text) = false ->
  pct_of_text text = Decimal_0
  \/ exists s c, pct_of_text text = Finite s c (-2).
Proof.
  unfold pct_of_text. destruct (IEEE.D (VStr text)) as [d|] eqn:E; [|by left].
  intros Hn. right. apply D_checked in E; [|done].
  destruct d as [s c e| |]; [|done..]. cbn in E.
  apply andb_true_iff in E as [->%Z.eqb_eq _]. by eexists _, _.
Qed.




(** ** The two programs side by side *)

Ltac same_form_start a b H :=
  destruct a, b; unfold same_form in H;
  cbn [IEEE.item_name IEEE.item_qty IEEE.item_price IEEE.discount_pct IEEE.tax_pct
       IEEE.items IEEE.tree IEEE.subtotal_var IEEE.discount_amt_var
       IEEE.tax_amt_var IEEE.grand_total_var IEEE.messages
       ROBOCEK.item_name ROBOCEK.item_qty ROBOCEK.item_price ROBOCEK.discount_pct
       ROBOCEK.tax_pct ROBOCEK.items ROBOCEK.tree ROBOCEK.subtotal_var
       ROBOCEK.discount_amt_var ROBOCEK.tax_amt_var ROBOCEK.grand_total_var
       ROBOCEK.messages] in H;
  destruct H as (-> & -> & -> & -> & -> & -> & -> & -> & -> & -> & -> & ->).

Lemma recalc_same_run a b :
  same_form a b -> same_run (IEEE._recalc_totals a) (ROBOCEK._recalc_totals b).
Proof.
  intros H. same_form_start a b H.
  unfold IEEE._recalc_totals, ROBOCEK._recalc_totals. unfold_M.
  change ROBOCEK.fmt_money with IEEE.fmt_money.
  change ROBOCEK.D with IEEE.D.
  cbn [IEEE.items ROBOCEK.items IEEE.discount_pct ROBOCEK.discount_pct
       IEEE.tax_pct ROBOCEK.tax_pct
       IEEE.set_subtotal_var IEEE.set_discount_amt_var
       IEEE.set_tax_amt_var IEEE.set_grand_total_var
       ROBOCEK.set_subtotal_var ROBOCEK.set_discount_amt_var
       ROBOCEK.set_tax_amt_var ROBOCEK.set_grand_total_var].
  repeat (case_res; [|by repeat split]). by repeat split.
Qed.

Lemma add_item_same_run a b :
  same_form a b -> same_run (IEEE.add_item a) (ROBOCEK.add_item b).
Proof.
  intros H. same_form_start a b H.
  unfold IEEE.add_item, ROBOCEK.add_item, IEEE.clear_item_fields,
    ROBOCEK.clear_item_fields. unfold_M.
  change ROBOCEK.D with IEEE.D.
  cbv beta iota delta [IEEE.item_name IEEE.item_qty IEEE.item_price
       ROBOCEK.item_name ROBOCEK.item_qty ROBOCEK.item_price].
  destruct (negb (Text.nonempty (Text.strip item_name0))); [by repeat split|].
  destruct (IEEE.D (VStr item_qty0)) as [q|]; [|by repeat split]. cbn.
  destruct (IEEE.D (VStr item_price0)) as [p|]; [|by repeat split]. cbn.
  destruct (__le__ q (of_int 0)) as [[]|]; [by repeat split| |by repeat split].
  destruct (__lt__ p (of_int 0)) as [[]|]; [by repeat split| |by repeat split].
  destruct (res_bind _ _ _ (__mul__ q p)) as [t|]; [|by repeat split].
  destruct (normalize q) as [shown|]; [|by repeat split].
  match goal with
  | |- context [IEEE._recalc_totals ?x] =>
      match goal with
      | |- context [ROBOCEK._recalc_totals ?y] =>
          destruct (recalc_same_run x y) as [Hr Hs]; [by repeat split|];
          destruct (IEEE._recalc_totals x) as [r1 s1];
          destruct (ROBOCEK._recalc_totals y) as [r2 s2]
      end
  end.
  cbn in Hr, Hs. subst r2. by destruct r1.
Qed.

Lemma remove_selected_item_same_run a b sel :
  same_form a b ->
  same_run (IEEE.remove_selected_item sel a) (ROBOCEK.remove_selected_item sel b).
Proof.
  intros H. same_form_start a b H.
  unfold IEEE.remove_selected_item, ROBOCEK.remove_selected_item. unfold_M.
  destruct sel as [idx|]; [|by repeat split].
  cbv beta iota delta [IEEE.tree ROBOCEK.tree].
  destruct (decide (idx < length tree0)%nat); [|by repeat split].
  match goal with
  | |- context [IEEE._recalc_totals ?x] =>
      match goal with
      | |- context [ROBOCEK._recalc_totals ?y] =>
          destruct (recalc_same_run x y) as [Hr Hs]; [by repeat split|];
          destruct (IEEE._recalc_totals x) as [r1 s1];
          destruct (ROBOCEK._recalc_totals y) as [r2 s2]
      end
  end.
  cbn in Hr, Hs. subst r2. by destruct r1.
Qed.

Lemma write_pct_same_run a b v :
  same_form a b ->
  same_run (IEEE.write_discount_pct v a) (ROBOCEK.write_discount_pct v b)
  /\ same_run (IEEE.write_tax_pct v a) (ROBOCEK.write_tax_pct v b).
Proof.
  intros H. same_form_start a b H.
  unfold IEEE.write_discount_pct, ROBOCEK.write_discount_pct,
    IEEE.write_tax_pct, ROBOCEK.write_tax_pct. unfold_M.
  split.
  - match goal with
    | |- context [IEEE._recalc_totals ?x] =>
        match goal with
        | |- context [ROBOCEK._recalc_totals ?y] =>
            destruct (recalc_same_run x y) as [Hr Hs]; [by repeat split|]
        end
    end.
    by split.
  - match goal with
    | |- context [IEEE._recalc_totals ?x] =>
        match goal with
        | |- context [ROBOCEK._recalc_totals ?y] =>
            destruct (recalc_same_run x y) as [Hr Hs]; [by repeat split|]
        end
    end.
    by split.
Qed.

(** X13.  The two programs keep the same invoice form: started from the
    same entry fields, percentages, ledger, table, totals and messages,
    [add_item], [remove_selected_item], a change of either percentage and
    the calculator end in both with the same result or the same
    exception, and leave the same form. *)
Theorem both_programs_keep_the_same_form (a : IEEE.BillingApp)
    (b : ROBOCEK.BillingApp) :
  same_form a b ->
  same_run (IEEE.add_item a) (ROBOCEK.add_item b)
  /\ (forall sel,
        same_run (IEEE.remove_selected_item sel a) (ROBOCEK.remove_selected_item sel b))
  /\ (forall v,
        same_run (IEEE.write_discount_pct v a) (ROBOCEK.write_discount_pct v b)
        /\ same_run (IEEE.write_tax_pct v a) (ROBOCEK.write_tax_pct v b))
  /\ same_run (IEEE._recalc_totals a) (ROBOCEK._recalc_totals b).
Proof.
  intros H. split; [by apply add_item_same_run|].
  split; [intros sel; by apply remove_selected_item_same_run|].
  split; [intros v; by apply write_pct_same_run|]. by apply recalc_same_run.
Qed.

Lemma both_programs_keep_the_same_form_witness :
  ROBOCEK.items (ROBOCEK.remove_selected_item (Some 0%nat) robocek_scenario).2
  = IEEE.items (IEEE.remove_selected_item (Some 0%nat) scenario).2.
Proof.
  assert (H : same_form scenario robocek_scenario) by (by vm_compute).
  destruct (both_programs_keep_the_same_form scenario robocek_scenario H)
    as (_ & Hrem & _).
  destruct (Hrem (Some 0%nat)) as (_ & _ & _ & _ & _ & _ & Hitems & _).
  by symmetry.
Defined.

(** ** Amounts as numbers of cents *)

Lemma ndigits_pos c : 1 <= ndigits c.
Proof.
  unfold ndigits. destruct (str_N_spec c) as (Hne & _).
  destruct (Text.str_N c); [done|cbn; lia].
Qed.

Lemma ndigits_le c (k : N) : (1 <= k)%N -> (c < 10 ^ k)%N -> ndigits c <= Z.of_N k.
Proof.
  intros Hk Hc. unfold ndigits.
  destruct (str_N_spec c) as (Hne & _ & _ & _ & Hlow).
  destruct (N.eq_dec c 0%N) as [->|Hnz]; [change (Text.str_N 0) with "0"; cbn; lia|].
  specialize (Hlow Hnz).
  assert (N.of_nat (String.length (Text.str_N c)) <= k)%N; [|lia].
  apply N.lt_succ_r. apply (N.pow_lt_mono_r_iff 10); [lia|].
  rewrite N.pow_succ_r'. lia.
Qed.

Lemma ndigits_lt c : (c < 10 ^ Z.to_N (ndigits c))%N.
Proof.
  unfold ndigits. destruct (str_N_spec c) as (_ & _ & _ & Hup & _).
  replace (Z.to_N (Z.of_nat (String.length (Text.str_N c))))
    with (N.of_nat (String.length (Text.str_N c))) by lia. done.
Qed.

Lemma ndigits_ge c : c <> 0%N -> (10 ^ Z.to_N (ndigits c - 1) <= c)%N.
Proof.
  intros Hnz. pose proof (ndigits_pos c) as Hpos. unfold ndigits in *.
  destruct (str_N_spec c) as (_ & _ & _ & _ & Hlow). specialize (Hlow Hnz).
  destruct (String.length (Text.str_N c)) as [|k]; [lia|].
  replace (Z.to_N (Z.of_nat (S k) - 1)) with (N.of_nat k) by lia.
  replace (N.of_nat (S k)) with (N.succ (N.of_nat k)) in Hlow by lia.
  rewrite N.pow_succ_r' in Hlow. lia.
Qed.

Lemma ndigits_mono c k : (10 ^ k <= c)%N -> Z.of_N k + 1 <= ndigits c.
Proof.
  intros Hc. pose proof (ndigits_lt c) as Hup.
  assert (k < Z.to_N (ndigits c))%N; [|lia].
  apply (N.pow_lt_mono_r_iff 10); [lia|]. lia.
Qed.

(** The sum of two values with two places, before it is rounded to the
    precision of the context. *)
Lemma add_cents_unrounded s1 c1 s2 c2 :
  ndigits c1 <= prec -> ndigits c2 <= prec ->
  exists s c,
    __add__ (Finite s1 c1 (-2)) (Finite s2 c2 (-2)) = _fix (Finite s c (-2))
    /\ signed s c = signed s1 c1 + signed s2 c2.
Proof.
  intros H1 H2. unfold __add__, _check_nans. cbv beta iota.
  change (Z.min (-2) (-2)) with (-2).
  change (Z.max (-2) (-2 - prec - 1)) with (-2).
  destruct (N.eqb_spec c1 0) as [->|Hc1]; destruct (N.eqb_spec c2 0) as [->|Hc2];
    cbn [andb].
  - exists (s1 && s2), 0%N. split; [done|]. by destruct s1, s2.
  - exists s2, c2. split.
    + unfold _rescale. apply N.eqb_neq in Hc2. rewrite Hc2.
      change (-2 <=? -2) with true. cbv beta iota.
      change (pow10 (-2 - -2)) with 1%N. by rewrite N.mul_1_r.
    + destruct s1, s2; cbn; lia.
  - exists s1, c1. split.
    + unfold _rescale. apply N.eqb_neq in Hc1. rewrite Hc1.
      change (-2 <=? -2) with true. cbv beta iota.
      change (pow10 (-2 - -2)) with 1%N. by rewrite N.mul_1_r.
    + destruct s1, s2; cbn; lia.
  - unfold _normalize. change (-2 <? -2) with false. cbv beta iota zeta.
    pose proof (ndigits_pos c2) as Hp2.
    destruct (Z.ltb_spec (ndigits c2 + -2 - 1)
                (-2 + Z.min (-1) (ndigits c1 - prec - 2))) as [Hlt|_].
    { unfold prec in *. lia. }
    change (pow10 (-2 - -2)) with 1%N. rewrite N.mul_1_r.
    destruct s1, s2; cbn [xorb].
    + exists true, (c1 + c2)%N. split; [done|]. cbn. lia.
    + destruct (N.eqb_spec c1 c2) as [->|Hne].
      * exists false, 0%N. split; [done|]. cbn. lia.
      * destruct (N.ltb_spec c1 c2).
        -- exists false, (c2 - c1)%N. split; [done|]. cbn. lia.
        -- exists true, (c1 - c2)%N. split; [done|]. cbn. lia.
    + destruct (N.eqb_spec c1 c2) as [->|Hne].
      * exists false, 0%N. split; [done|]. cbn. lia.
      * destruct (N.ltb_spec c1 c2).
        -- exists true, (c2 - c1)%N. split; [done|]. cbn. lia.
        -- exists false, (c1 - c2)%N. split; [done|]. cbn. lia.
    + exists false, (c1 + c2)%N. split; [done|]. cbn. lia.
Qed.

(** Rounded to the precision of the context, a value of more than 28
    digits before its two places has 28 digits and fewer places. *)
Lemma fix_big s c :
  prec < ndigits c ->
  _fix (Finite s c (-2)) = Raise Overflow
  \/ exists c' e', _fix (Finite s c (-2)) = Ok (Finite s c' e')
       /\ (10 ^ 27 <= c')%N /\ -1 <= e'.
Proof.
  intros Hbig. unfold _fix.
  assert (Hnz : c <> 0%N) by (intros ->; by vm_compute in Hbig).
  pose proof (ndigits_ge c Hnz) as Hge.
  apply N.eqb_neq in Hnz. rewrite Hnz.
  destruct (Etop <? ndigits c + -2 - prec); [by left|].
  destruct (Z.ltb_spec (ndigits c + -2 - prec) Etiny) as [H|_];
    [unfold Etiny, Emin, prec in *; lia|].
  destruct (Z.ltb_spec (-2) (ndigits c + -2 - prec)) as [_|H];
    [|unfold prec in *; lia].
  destruct (Z.ltb_spec (ndigits c + -2 - (ndigits c + -2 - prec)) 0) as [H|_];
    [unfold prec in *; lia|].
  replace (ndigits c + -2 - prec - -2) with (ndigits c - prec) by lia.
  set (k := Z.to_N (ndigits c - prec)).
  assert (Hk : pow10 (ndigits c - prec) = (10 ^ k)%N) by done.
  rewrite Hk.
  assert (Hcoeff : (10 ^ 27 <= c / 10 ^ k)%N).
  { replace (Z.to_N (ndigits c - 1)) with (27 + k)%N in Hge
      by (unfold k, prec in *; lia).
    rewrite N.pow_add_r in Hge.
    apply (N.Div0.div_le_mono _ _ (10 ^ k)) in Hge.
    rewrite N.div_mul in Hge; [done|]. apply N.pow_nonzero. lia. }
  set (coeff := (c / 10 ^ k)%N) in *.
  destruct (round_up context_rounding c (ndigits c - prec)).
  - destruct (Z.ltb_spec prec (ndigits (coeff + 1))) as [Hcarry|_].
    + destruct (Etop <? ndigits c + -2 - prec + 1); [by left|].
      right. eexists _, _. split; [done|]. split; [|unfold prec in *; lia].
      assert (Hnz1 : (coeff + 1 <> 0)%N) by lia.
      pose proof (ndigits_ge _ Hnz1) as Hge1.
      assert (10 ^ 28 <= 10 ^ Z.to_N (ndigits (coeff + 1) - 1))%N
        by (apply N.pow_le_mono_r; unfold prec in *; lia).
      change (10 ^ 27)%N with (10 ^ 28 / 10)%N.
      apply N.Div0.div_le_mono. lia.
    + destruct (Etop <? ndigits c + -2 - prec); [by left|].
      right. eexists _, _. split; [done|]. split; [lia|unfold prec in *; lia].
  - destruct (Etop <? ndigits c + -2 - prec); [by left|].
    right. eexists _, _. split; [done|]. split; [lia|unfold prec in *; lia].
Qed.

(** A value of 28 digits or more before its places cannot be rounded to
    two places. *)
Lemma quantize_big s c e r :
  (10 ^ 27 <= c)%N -> -1 <= e ->
  quantize (Finite s c e) Decimal_0_01 r = Raise InvalidOperation.
Proof.
  intros Hc He. unfold quantize, _check_nans, Decimal_0_01. cbv beta iota.
  change (negb ((Etiny <=? -2) && (-2 <=? Emax))) with false. cbv beta iota.
  assert (Hnz : c <> 0%N) by (intros ->; by vm_compute in Hc).
  apply N.eqb_neq in Hnz. rewrite Hnz.
  destruct (Emax <? adjusted c e); [done|].
  pose proof (ndigits_mono c 27 Hc) as Hnd. unfold adjusted.
  destruct (Z.ltb_spec prec (e + ndigits c - 1 - -2 + 1)) as [_|H];
    [done|unfold prec in *; lia].
Qed.

Lemma fix_big_not_rounded s c r d :
  prec < ndigits c ->
  (x ← _fix (Finite s c (-2)); quantize x Decimal_0_01 r) <> Ok d.
Proof.
  intros Hbig. destruct (fix_big s c Hbig) as [->|(c' & e' & -> & Hc & He)]; [done|].
  cbn. by rewrite quantize_big.
Qed.

(** The sum of two values with two places, rounded to two places, is
    their exact sum whenever it is computed. *)
Lemma add_cents_exact x y d :
  is_cents x = true -> is_cents y = true ->
  round_half_up_2 (__add__ x y) = Ok d ->
  is_cents d = true /\ cents_value d = cents_value x + cents_value y.
Proof.
  destruct x as [s1 c1 e1| |]; [|done..]. destruct y as [s2 c2 e2| |]; [|done..].
  cbn [is_cents].
  intros [->%Z.eqb_eq H1%Z.leb_le]%andb_true_iff
         [->%Z.eqb_eq H2%Z.leb_le]%andb_true_iff.
  destruct (add_cents_unrounded s1 c1 s2 c2 H1 H2) as (s & c & -> & Hval).
  unfold round_half_up_2. intros Hd.
  destruct (Z.le_gt_cases (ndigits c) prec) as [Hsmall|Hbig].
  - rewrite fix_cents in Hd by done. cbn in Hd.
    rewrite quantize_cents_same in Hd by (cbn; by apply Z.leb_le).
    injection Hd as <-. split; [cbn; by apply Z.leb_le|done].
  - exfalso. by apply (fix_big_not_rounded s c ROUND_HALF_UP d); [lia|].
Qed.

Lemma sub_cents_exact x y d :
  is_cents x = true -> is_cents y = true ->
  round_half_up_2 (__sub__ x y) = Ok d ->
  is_cents d = true /\ cents_value d = cents_value x - cents_value y.
Proof.
  intros Hx Hy. unfold __sub__.
  destruct x as [s1 c1 e1| |]; [|done..]. destruct y as [s2 c2 e2| |]; [|done..].
  cbn [_check_nans copy_negate]. intros Hd.
  apply add_cents_exact in Hd as [? ->]; [|done..].
  split; [done|]. destruct s1, s2; cbn; lia.
Qed.

Lemma sum_magnitudes_nonneg ds : 0 <= sum_magnitudes ds.
Proof.
  induction ds as [|d ds IH]; [done|].
  change (sum_magnitudes (d :: ds)) with (Z.abs (cents_value d) + sum_magnitudes ds).
  lia.
Qed.

Lemma sum_magnitudes_cons d ds :
  sum_magnitudes (d :: ds) = Z.abs (cents_value d) + sum_magnitudes ds.
Proof. reflexivity. Qed.

Lemma sum_cents_cons d ds : sum_cents (d :: ds) = cents_value d + sum_cents ds.
Proof. reflexivity. Qed.

Lemma cents_small s c :
  Z.abs (signed s c) < 10 ^ 28 -> ndigits c <= prec.
Proof.
  intros H. apply (ndigits_le c 28); [lia|].
  assert (Z.of_N c < 10 ^ 28) by (destruct s; cbn in H; lia).
  change (10 ^ 28)%N with (Z.to_N (10 ^ 28)). lia.
Qed.

(** The sum of two values with two places whose exact sum has at most 28
    digits. *)
Lemma add_cents_small x y :
  is_cents x = true -> is_cents y = true ->
  Z.abs (cents_value x + cents_value y) < 10 ^ 28 ->
  exists d, __add__ x y = Ok d /\ is_cents d = true
    /\ cents_value d = cents_value x + cents_value y.
Proof.
  destruct x as [s1 c1 e1| |]; [|done..]. destruct y as [s2 c2 e2| |]; [|done..].
  cbn [is_cents].
  intros [->%Z.eqb_eq H1%Z.leb_le]%andb_true_iff
         [->%Z.eqb_eq H2%Z.leb_le]%andb_true_iff Hs.
  destruct (add_cents_unrounded s1 c1 s2 c2 H1 H2) as (s & c & -> & Hval).
  cbn [cents_value] in *. fold (signed s1 c1) in Hs. fold (signed s2 c2) in Hs.
  rewrite <- Hval in Hs. apply cents_small in Hs.
  exists (Finite s c (-2)). rewrite fix_cents by done.
  split; [done|]. split; [cbn; by apply Z.leb_le|done].
Qed.

(** The first addition of [sum], to the integer 0. *)
Lemma add_zero_cents x :
  is_cents x = true ->
  exists d, __add__ x (of_int 0) = Ok d /\ is_cents d = true
    /\ cents_value d = cents_value x.
Proof.
  destruct x as [s c e| |]; [|done..]. cbn [is_cents].
  intros [->%Z.eqb_eq H1%Z.leb_le]%andb_true_iff.
  unfold __add__, _check_nans, of_int. cbv beta iota.
  change (Z.abs_N 0) with 0%N. change (0 <? 0) with false.
  change (Z.min (-2) 0) with (-2). change (0 =? 0)%N with true.
  change (Z.max (-2) (-2 - prec - 1)) with (-2).
  destruct (N.eqb_spec c 0) as [->|Hc]; cbn [andb].
  - exists (Finite (s && false) 0 (-2)). split; [done|]. split; [done|].
    by destruct s.
  - exists (Finite s c (-2)). split; [|split; [cbn; by apply Z.leb_le|done]].
    unfold _rescale. apply N.eqb_neq in Hc. rewrite Hc.
    change (-2 <=? -2) with true. cbv beta iota.
    change (pow10 (-2 - -2)) with 1%N. rewrite N.mul_1_r. by apply fix_cents.
Qed.

Lemma foldl_add_cents acc ds :
  is_cents acc = true -> forallb is_cents ds = true ->
  Z.abs (cents_value acc) + sum_magnitudes ds < 10 ^ 28 ->
  exists d, foldl (fun acc x => a ← acc; __add__ a x) (Ok acc) ds = Ok d
    /\ is_cents d = true /\ cents_value d = cents_value acc + sum_cents ds.
Proof.
  revert acc. induction ds as [|x ds IH]; intros acc Ha Hds Hs.
  - exists acc. cbn. split; [done|]. split; [done|]. lia.
  - cbn in Hds. apply andb_true_iff in Hds as [Hx Hds].
    rewrite sum_magnitudes_cons in Hs. rewrite sum_cents_cons.
    pose proof (sum_magnitudes_nonneg ds) as Hnn.
    destruct (add_cents_small acc x Ha Hx) as (d & Hd & Hdc & Hdv); [lia|].
    cbn [foldl]. cbn [mbind res_bind]. rewrite Hd.
    destruct (IH d Hdc Hds) as (d' & Hd' & Hdc' & Hdv'); [lia|].
    exists d'. split; [done|]. split; [done|]. lia.
Qed.

(** The sum of values with two places whose magnitudes add up to at most
    28 digits is exact. *)
Lemma sum_cents_exact ds :
  forallb is_cents ds = true -> sum_magnitudes ds < 10 ^ 28 -> ds <> [] ->
  exists d, sum ds = Ok d /\ is_cents d = true /\ cents_value d = sum_cents ds.
Proof.
  intros Hds Hs Hne. destruct ds as [|x ds]; [done|].
  cbn in Hds. apply andb_true_iff in Hds as [Hx Hds].
  rewrite sum_magnitudes_cons in Hs. rewrite sum_cents_cons.
  pose proof (sum_magnitudes_nonneg ds) as Hnn.
  unfold sum. destruct (add_zero_cents x Hx) as (d & -> & Hdc & Hdv).
  cbn [mbind res_bind].
  destruct (foldl_add_cents d ds Hdc Hds) as (d' & Hd' & Hdc' & Hdv'); [lia|].
  exists d'. split; [done|]. split; [done|]. lia.
Qed.

Lemma fix_finite s c e d :
  _fix (Finite s c e) = Ok d -> exists c' e', d = Finite s c' e'.
Proof.
  unfold _fix.
  repeat (match goal with
          | |- context [if ?b then _ else _] => destruct b
          | |- context [let '(_, _) := ?p in _] => destruct p
          end);
    try done; intros [= <-]; by eexists _, _.
Qed.

Lemma truediv_finite s1 c1 e1 s2 c2 e2 d :
  __truediv__ (Finite s1 c1 e1) (Finite s2 c2 e2) = Ok d ->
  exists s c e, d = Finite s c e.
Proof.
  unfold __truediv__, _check_nans. cbv beta iota zeta.
  destruct (c2 =? 0)%N; [by destruct (c1 =? 0)%N|].
  destruct (c1 =? 0)%N.
  - intros (c' & e' & ->)%fix_finite. by eexists _, _, _.
  - destruct (if 0 <=? _ then _ else _) as [coeff remainder].
    destruct (remainder =? 0)%N.
    + destruct (strip_to_ideal _ _ _ _) as [coeff' exp'].
      intros (c' & e' & ->)%fix_finite. by eexists _, _, _.
    + intros (c' & e' & ->)%fix_finite. by eexists _, _, _.
Qed.

(** A percentage of a value with two places, rounded to two places, has
    two places. *)
Lemma percent_cents x s c e d :
  is_cents x = true ->
  round_half_up_2 (percent_of x (Finite s c e)) = Ok d -> is_cents d = true.
Proof.
  destruct x as [s1 c1 e1| |]; [|done..]. intros _.
  unfold round_half_up_2, percent_of.
  destruct (__mul__ _ _) as [m|] eqn:Em; [|done].
  apply mul_finite in Em as (s' & c' & e' & ->). cbn.
  destruct (__truediv__ _ _) as [q|] eqn:Eq; [|done].
  apply truediv_finite in Eq as (s'' & c'' & e'' & ->). cbn.
  apply quantize_finite.
Qed.

Lemma pct_of_text_is_finite text :
  is_nan (pct_of_text text) = false -> exists s c e, pct_of_text text = Finite s c e.
Proof.
  intros [->|(s & c & ->)]%pct_of_text_finite; by eexists _, _, _.
Qed.

(** X14.  On a ledger of values with two places whose line totals add up
    to fewer than 29 digits, and percentages that are not NaN, the totals
    the calculator computes are exact where they should be: the subtotal
    is the sum of the line totals, the taxable amount is the subtotal
    less the discount, and the grand total is the taxable amount plus the
    tax, to the cent; only the discount and the tax are rounded. *)
Theorem totals_are_exact (its : list Item) (dtext ttext : string) (T : Totals) :
  totals_of its dtext ttext T ->
  forallb item_cents its = true ->
  sum_magnitudes (total <$> its) < 10 ^ 28 ->
  is_nan (pct_of_text dtext) = false -> is_nan (pct_of_text ttext) = false ->
  cents_value (subtotal T) = sum_cents (total <$> its)
  /\ cents_value (taxable T) = cents_value (subtotal T) - cents_value (discount_amt T)
  /\ cents_value (grand T)
     = cents_value (subtotal T) - cents_value (discount_amt T) + cents_value (tax_amt T)
  /\ is_cents (subtotal T) && is_cents (discount_amt T) && is_cents (taxable T)
     && is_cents (tax_amt T) && is_cents (grand T) = true.
Proof.
  intros (Hs & Hdp & Htp & Hd & Ht & Hx & Hg) Hits Hsum Hnd Hnt.
  apply pct_of_text_is_finite in Hnd as (sd & cd & ed & Hdpct).
  apply pct_of_text_is_finite in Hnt as (st & ct & et & Htpct).
  rewrite Hdp, Hdpct in Hd. rewrite Htp, Htpct in Hx.
  assert (Hsub : is_cents (subtotal T) = true
                 /\ cents_value (subtotal T) = sum_cents (total <$> its)).
  { unfold items_subtotal in Hs. destruct its as [|it its]; [by injection Hs as <-|].
    assert (Hall : forallb is_cents (total <$> it :: its) = true).
    { clear -Hits. induction (it :: its) as [|x l IH]; [done|]. cbn in *.
      apply andb_true_iff in Hits as [Hx Hl]. unfold item_cents in Hx.
      apply andb_true_iff in Hx as [_ ->]. by apply IH. }
    destruct (sum_cents_exact (total <$> it :: its) Hall Hsum) as (d & Hd' & ? & ?);
      [done|].
    rewrite Hs in Hd'. by injection Hd' as <-. }
  destruct Hsub as [Hsc Hsv].
  pose proof (percent_cents _ _ _ _ _ Hsc Hd) as Hdc.
  destruct (sub_cents_exact _ _ _ Hsc Hdc Ht) as [Htc Htv].
  pose proof (percent_cents _ _ _ _ _ Htc Hx) as Hxc.
  destruct (add_cents_exact _ _ _ Htc Hxc Hg) as [Hgc Hgv].
  split; [done|]. split; [done|]. split; [lia|].
  by rewrite Hsc, Hdc, Htc, Hxc, Hgc.
Qed.

Lemma totals_are_exact_witness :
  cents_value (grand scenario_totals) = 60000 - 6000 + 9720.
Proof.
  assert (H1 : totals_of (IEEE.items scenario) "10" "18" scenario_totals)
    by (by vm_compute).
  assert (H2 : forallb item_cents (IEEE.items scenario) = true) by (by vm_compute).
  assert (H3 : sum_magnitudes (total <$> IEEE.items scenario) < 10 ^ 28)
    by (by vm_compute).
  assert (H4 : is_nan (pct_of_text "10") = false) by (by vm_compute).
  assert (H5 : is_nan (pct_of_text "18") = false) by (by vm_compute).
  destruct (totals_are_exact _ _ _ _ H1 H2 H3 H4 H5) as (_ & _ & -> & _).
  by vm_compute.
Defined.

(** ** Rounding half up *)

Lemma half_up_spec c k :
  half_up c k
  = (if (10 ^ k <=? 2 * (c mod 10 ^ k))%N then c / 10 ^ k + 1 else c / 10 ^ k)%N.
Proof.
  unfold half_up. set (P := (10 ^ k)%N).
  assert (HP : (0 < P)%N) by (unfold P; apply N.neq_0_lt_0, N.pow_nonzero; lia).
  pose proof (N.Div0.div_mod c P) as Hc.
  pose proof (N.mod_lt c P ltac:(lia)) as Hm.
  destruct (N.leb_spec P (2 * (c mod P))) as [Hup|Hdown]; symmetry.
  - apply (N.div_unique _ _ _ (2 * (c mod P) - P)); nia.
  - apply (N.div_unique _ _ _ (2 * (c mod P) + P)); nia.
Qed.

Lemma half_up_ge c k : (c / 10 ^ k <= half_up c k)%N.
Proof. rewrite half_up_spec. destruct (_ <=? _)%N; lia. Qed.

Lemma half_up_small c k : (2 * c < 10 ^ k)%N -> half_up c k = 0%N.
Proof. intros H. unfold half_up. apply N.div_small. lia. Qed.

Lemma pow10_to_N k : 0 <= k -> pow10 k = (10 ^ Z.to_N k)%N.
Proof. done. Qed.

(** [quantize] to two places, half up, of a value with more places. *)
Lemma quantize_half_up s c e :
  e < -2 -> (half_up c (Z.to_N (-2 - e)) < 10 ^ 28)%N ->
  quantize (Finite s c e) Decimal_0_01 ROUND_HALF_UP
  = Ok (Finite s (half_up c (Z.to_N (-2 - e))) (-2)).
Proof.
  intros He Hr. set (k := Z.to_N (-2 - e)) in *.
  assert (Hk : (1 <= k)%N) by (unfold k; lia).
  unfold quantize, _check_nans, Decimal_0_01. cbv beta iota.
  change (negb ((Etiny <=? -2) && (-2 <=? Emax))) with false. cbv beta iota.
  destruct (N.eqb_spec c 0) as [->|Hnz].
  { rewrite half_up_small by (apply N.neq_0_lt_0, N.pow_nonzero; lia). done. }
  assert (Hc : (c < 10 ^ (28 + k))%N).
  { pose proof (half_up_ge c k) as Hge. rewrite N.pow_add_r.
    assert (HP : (10 ^ k <> 0)%N) by (apply N.pow_nonzero; lia).
    pose proof (N.Div0.div_mod c (10 ^ k)) as Hdm.
    pose proof (N.mod_lt c (10 ^ k) HP) as Hm. nia. }
  pose proof (ndigits_le c (28 + k) ltac:(lia) Hc) as Hnd.
  unfold adjusted.
  destruct (Z.ltb_spec Emax (e + ndigits c - 1)); [unfold Emax, k in *; lia|].
  destruct (Z.ltb_spec prec (e + ndigits c - 1 - -2 + 1)); [unfold prec, k in *; lia|].
  assert (Hres : _rescale (Finite s c e) (-2) ROUND_HALF_UP
                 = Finite s (half_up c k) (-2)).
  { unfold _rescale. apply N.eqb_neq in Hnz. rewrite Hnz.
    destruct (Z.leb_spec (-2) e); [lia|].
    destruct (Z.ltb_spec (ndigits c + e - -2) 0) as [Hlow|Hhigh].
    - change (pow10 (-2 - (-2 - 1))) with 10%N.
      change (round_up ROUND_HALF_UP 1 (-2 - (-2 - 1))) with false.
      cbv beta iota. change (1 / 10)%N with 0%N.
      rewrite half_up_small; [done|].
      pose proof (ndigits_lt c) as Hlt.
      assert (10 ^ Z.to_N (ndigits c) <= 10 ^ (k - 1))%N
        by (apply N.pow_le_mono_r; unfold k; lia).
      replace k with (N.succ (k - 1)) by lia. rewrite N.pow_succ_r'. lia.
    - unfold round_up. rewrite pow10_to_N by lia. fold k.
      rewrite half_up_spec. by destruct (_ <=? _)%N. }
  rewrite Hres.
  pose proof (ndigits_le _ 28 ltac:(lia) Hr) as Hnr.
  destruct (Z.ltb_spec Emax (-2 + ndigits (half_up c k) - 1));
    [unfold Emax in *; lia|].
  destruct (Z.ltb_spec prec (ndigits (half_up c k))); [unfold prec in *; lia|].
  by apply fix_cents.
Qed.

Lemma ndigits_mul_pow c (j : N) :
  c <> 0%N -> ndigits (c * 10 ^ j) = ndigits c + Z.of_N j.
Proof.
  intros Hnz. pose proof (ndigits_lt c) as Hlt. pose proof (ndigits_ge c Hnz) as Hge.
  pose proof (ndigits_pos c) as Hpos.
  assert (HP : (10 ^ j <> 0)%N) by (apply N.pow_nonzero; lia).
  apply Z.le_antisymm.
  - replace (ndigits c + Z.of_N j) with (Z.of_N (Z.to_N (ndigits c) + j)) by lia.
    apply ndigits_le; [lia|]. rewrite N.pow_add_r. nia.
  - pose proof (ndigits_mono (c * 10 ^ j) (Z.to_N (ndigits c - 1) + j)) as H.
    rewrite N.pow_add_r in H. specialize (H ltac:(nia)). lia.
Qed.

(** [quantize] to two places of a value with at most two places. *)
Lemma quantize_widen s c e r :
  -2 <= e -> (c * 10 ^ Z.to_N (e + 2) < 10 ^ 28)%N ->
  quantize (Finite s c e) Decimal_0_01 r
  = Ok (Finite s (c * 10 ^ Z.to_N (e + 2)) (-2)).
Proof.
  intros He Hr. set (j := Z.to_N (e + 2)) in *.
  unfold quantize, _check_nans, Decimal_0_01. cbv beta iota.
  change (negb ((Etiny <=? -2) && (-2 <=? Emax))) with false. cbv beta iota.
  destruct (N.eqb_spec c 0) as [->|Hnz]; [done|].
  pose proof (ndigits_le _ 28 ltac:(lia) Hr) as Hnd.
  rewrite ndigits_mul_pow in Hnd by done.
  unfold adjusted.
  destruct (Z.ltb_spec Emax (e + ndigits c - 1)); [unfold Emax, j in *; lia|].
  destruct (Z.ltb_spec prec (e + ndigits c - 1 - -2 + 1)); [unfold prec, j in *; lia|].
  unfold _rescale. apply N.eqb_neq in Hnz. rewrite Hnz.
  destruct (Z.leb_spec (-2) e); [|lia].
  replace (pow10 (e - -2)) with (10 ^ j)%N by (unfold pow10, j; f_equal; lia).
  apply N.eqb_neq in Hnz.
  pose proof (ndigits_mul_pow c j Hnz) as Hnd'.
  destruct (Z.ltb_spec Emax (-2 + ndigits (c * 10 ^ j) - 1));
    [unfold Emax, j in *; lia|].
  destruct (Z.ltb_spec prec (ndigits (c * 10 ^ j))); [unfold prec, j in *; lia|].
  apply fix_cents. unfold prec. lia.
Qed.

(** X15.  What [D] returns on the text of a number: the number itself at
    two places when it has at most two, and else the number rounded to the
    nearest cent, a tie going away from zero (2.345 gives 2.35 and -0.005
    gives -0.01), in both cases provided the result has at most 28
    digits; and 0.00 on a text that is not the text of a number. *)
Theorem D_rounds_half_up (v : pyval) :
  (forall s c e,
     of_str (str v) = Ok (Finite s c e) ->
     (e < -2 -> (half_up c (Z.to_N (-2 - e)) < 10 ^ 28)%N ->
      IEEE.D v = Ok (Finite s (half_up c (Z.to_N (-2 - e))) (-2)))
     /\ (-2 <= e -> (c * 10 ^ Z.to_N (e + 2) < 10 ^ 28)%N ->
         IEEE.D v = Ok (Finite s (c * 10 ^ Z.to_N (e + 2)) (-2))))
  /\ (is_ok (of_str (str v)) = false -> IEEE.D v = Ok Decimal_0_00).
Proof.
  split.
  - intros s c e Hv. unfold IEEE.D. rewrite Hv. cbn [mbind res_bind]. split.
    + intros He Hr. by apply quantize_half_up.
    + intros He Hr. by apply quantize_widen.
  - intros H%of_str_raises. unfold IEEE.D. by rewrite H.
Qed.

Lemma D_rounds_half_up_witness :
  IEEE.D (VStr "2.345") = Ok (Finite false 235 (-2))
  /\ IEEE.D (VStr "-0.005") = Ok (Finite true 1 (-2))
  /\ IEEE.D (VStr "7.5") = Ok (Finite false 750 (-2)).
Proof.
  split; [|split].
  - apply (proj1 (proj1 (D_rounds_half_up (VStr "2.345")) false 2345%N (-3) eq_refl));
      by vm_compute.
  - apply (proj1 (proj1 (D_rounds_half_up (VStr "-0.005")) true 5%N (-3) eq_refl));
      by vm_compute.
  - apply (proj2 (proj1 (D_rounds_half_up (VStr "7.5")) false 75%N (-1) eq_refl));
      by vm_compute.
Defined.

(** ** The calculator in whole cents *)

Lemma fix_small s c e :
  ndigits c <= prec -> Etiny <= e <= 0 -> _fix (Finite s c e) = Ok (Finite s c e).
Proof.
  intros Hc He. unfold _fix. destruct (N.eqb_spec c 0) as [->|Hnz].
  - do 2 f_equal. unfold Etiny, Emin, Emax, prec in *. lia.
  - destruct (Z.ltb_spec Etop (ndigits c + e - prec)) as [H|_];
      [unfold Etop, Emax, prec in *; lia|].
    destruct (Z.ltb_spec (ndigits c + e - prec) Etiny) as [_|_].
    + destruct (Z.ltb_spec e Etiny); [lia|done].
    + destruct (Z.ltb_spec e (ndigits c + e - prec)); [lia|done].
Qed.

Lemma strip_to_ideal_zeros (j : nat) fuel c exp ideal :
  exp + Z.of_nat j <= ideal ->
  strip_to_ideal (j + fuel) (c * 10 ^ N.of_nat j) exp ideal
  = strip_to_ideal fuel c (exp + Z.of_nat j) ideal.
Proof.
  revert exp. induction j as [|j IH]; intros exp Hj.
  - cbn [Nat.add]. change (10 ^ N.of_nat 0)%N with 1%N.
    rewrite N.mul_1_r. f_equal. lia.
  - cbn [Nat.add strip_to_ideal].
    replace (N.of_nat (S j)) with (N.succ (N.of_nat j)) by lia.
    rewrite N.pow_succ_r'.
    replace (c * (10 * 10 ^ N.of_nat j))%N with (c * 10 ^ N.of_nat j * 10)%N by lia.
    rewrite N.Div0.mod_mul, N.div_mul by lia.
    destruct (Z.ltb_spec exp ideal); [|lia]. cbn.
    rewrite IH by lia. f_equal. lia.
Qed.

Lemma half_up_div10 c k : (c mod 10 = 0)%N -> half_up (c / 10) k = half_up c (N.succ k).
Proof.
  intros Hm. pose proof (N.Div0.div_mod c 10) as Hc. rewrite Hm in Hc.
  set (q := (c / 10)%N) in *. rewrite Hc, N.add_0_r.
  unfold half_up. rewrite N.pow_succ_r'.
  replace (2 * (10 * q) + 10 * 10 ^ k)%N with (10 * (2 * q + 10 ^ k))%N by lia.
  replace (2 * (10 * 10 ^ k))%N with (10 * (2 * 10 ^ k))%N by lia.
  rewrite N.Div0.div_mul_cancel_l by lia. done.
Qed.

Lemma ndigits_div10 c : ndigits (c / 10) <= ndigits c.
Proof.
  pose proof (ndigits_lt c) as Hlt. pose proof (ndigits_pos c) as Hpos.
  replace (ndigits c) with (Z.of_N (Z.to_N (ndigits c))) by lia.
  apply ndigits_le; [lia|].
  assert (c / 10 <= c)%N; [|lia]. apply N.Div0.div_le_upper_bound. lia.
Qed.

(** A hundredth of a value with four places that has at most 28 digits,
    rounded half up to two places. *)
Lemma hundredth_rounded s c :
  (c < 10 ^ 28)%N ->
  (q ← __truediv__ (Finite s c (-4)) Decimal_100;
   quantize q Decimal_0_01 ROUND_HALF_UP)
  = Ok (Finite s (half_up c 4) (-2)).
Proof.
  intros Hc. pose proof (ndigits_le c 28 ltac:(lia) Hc) as Hnd.
  pose proof (ndigits_pos c) as Hpos.
  assert (Hr : (half_up c 4 < 10 ^ 28)%N).
  { rewrite half_up_spec. pose proof (N.Div0.div_le_upper_bound c (10 ^ 4) c).
    change (10 ^ 4)%N with 10000%N in *.
    assert (c / 10000 <= c / 10)%N by (apply N.div_le_compat_l; lia).
    assert (c / 10 <= c)%N by (apply N.Div0.div_le_upper_bound; lia).
    destruct (_ <=? _)%N; [|lia].
    destruct (N.eq_dec c 0%N) as [->|Hnz]; [by vm_compute|].
    assert (c / 10 < c)%N by (apply N.div_lt; lia). lia. }
  unfold __truediv__, _check_nans, Decimal_100. cbv beta iota zeta.
  change (100 =? 0)%N with false. cbv beta iota. rewrite xorb_false_r.
  destruct (N.eqb_spec c 0) as [->|Hnz].
  { rewrite fix_small by (by vm_compute). cbn [mbind res_bind].
    by rewrite quantize_half_up by (by vm_compute). }
  change (ndigits 100) with 3.
  set (shift := 3 - ndigits c + prec + 1).
  assert (Hshift : 4 <= shift) by (unfold shift, prec in *; lia).
  destruct (Z.leb_spec 0 shift); [|lia].
  set (j := Z.to_nat (shift - 2)).
  assert (Hpow : pow10 shift = (10 ^ N.of_nat j * 100)%N).
  { unfold pow10. replace (Z.to_N shift) with (N.of_nat j + 2)%N by (unfold j; lia).
    by rewrite N.pow_add_r. }
  rewrite Hpow.
  replace (c * (10 ^ N.of_nat j * 100))%N with (c * 10 ^ N.of_nat j * 100)%N by lia.
  rewrite N.Div0.mod_mul, N.div_mul by lia.
  change (0 =? 0)%N with true. cbv beta iota.
  replace (Z.to_nat (-4 - 0 - (-4 - 0 - shift))) with (j + 2)%nat by (unfold j; lia).
  rewrite strip_to_ideal_zeros by (unfold j; lia).
  replace (-4 - 0 - shift + Z.of_nat j) with (-6) by (unfold j; lia).
  change (-4 - 0) with (-4).
  cbn [strip_to_ideal]. change (-6 <? -4) with true. cbn [andb].
  destruct (N.eqb_spec (c mod 10) 0) as [H1|H1].
  - change (-6 + 1) with (-5). change (-5 <? -4) with true. cbn [andb].
    destruct (N.eqb_spec ((c / 10) mod 10) 0) as [H2|H2].
    + change (-5 + 1) with (-4).
      rewrite fix_small;
        [|pose proof (ndigits_div10 c); pose proof (ndigits_div10 (c / 10)); lia
         |by vm_compute].
      cbn [mbind res_bind].
      assert (Heq : half_up (c / 10 / 10) (Z.to_N (-2 - -4)) = half_up c 4).
      { change (Z.to_N (-2 - -4)) with 2%N.
        rewrite (half_up_div10 (c / 10) 2) by done. change (N.succ 2) with 3%N.
        by rewrite (half_up_div10 c 3) by done. }
      rewrite quantize_half_up; rewrite ?Heq; done.
    + rewrite fix_small; [|pose proof (ndigits_div10 c); lia|by vm_compute].
      cbn [mbind res_bind].
      assert (Heq : half_up (c / 10) (Z.to_N (-2 - -5)) = half_up c 4).
      { change (Z.to_N (-2 - -5)) with 3%N. by rewrite (half_up_div10 c 3) by done. }
      rewrite quantize_half_up; rewrite ?Heq; done.
  - rewrite fix_small; [|done|by vm_compute]. cbn [mbind res_bind].
    by rewrite quantize_half_up.
Qed.

Lemma half_up_lt c : (c < 10 ^ 28)%N -> (half_up c 4 < 10 ^ 28)%N.
Proof.
  intros Hc. rewrite half_up_spec. change (10 ^ 4)%N with 10000%N.
  assert (c / 10000 <= c / 10)%N by (apply N.div_le_compat_l; lia).
  assert (c / 10 <= c)%N by (apply N.Div0.div_le_upper_bound; lia).
  destruct (_ <=? _)%N; [|lia].
  destruct (N.eq_dec c 0%N) as [->|Hnz]; [by vm_compute|].
  assert (c / 10 < c)%N by (apply N.div_lt; lia). lia.
Qed.

Lemma half_up_0 k : half_up 0 k = 0%N.
Proof. apply half_up_small. cbn. apply N.neq_0_lt_0, N.pow_nonzero. lia. Qed.

Lemma percent_in_cents_signed s1 c1 s2 c2 :
  signed (xorb s1 s2) (half_up (c1 * c2) 4)
  = percent_in_cents (signed s1 c1) (signed s2 c2).
Proof.
  unfold percent_in_cents.
  assert (Hm : Z.of_N (c1 * c2) = Z.of_N c1 * Z.of_N c2) by lia.
  destruct (N.eq_dec (c1 * c2)%N 0%N) as [H0|Hnz].
  - rewrite H0, half_up_0. rewrite H0 in Hm.
    assert (signed s1 c1 * signed s2 c2 = 0) as ->
      by (destruct s1, s2; unfold signed; lia).
    by destruct (xorb s1 s2).
  - assert (Hpos : 0 < Z.of_N c1 * Z.of_N c2) by lia.
    destruct s1, s2; unfold signed; cbn [xorb].
    + replace (- Z.of_N c1 * - Z.of_N c2) with (Z.of_N (c1 * c2)) by lia.
      rewrite Zabs2N.id, Z.sgn_pos by lia. lia.
    + replace (- Z.of_N c1 * Z.of_N c2) with (- Z.of_N (c1 * c2)) by lia.
      rewrite Zabs2N.inj_opp, Zabs2N.id, Z.sgn_neg by lia. lia.
    + replace (Z.of_N c1 * - Z.of_N c2) with (- Z.of_N (c1 * c2)) by lia.
      rewrite Zabs2N.inj_opp, Zabs2N.id, Z.sgn_neg by lia. lia.
    + replace (Z.of_N c1 * Z.of_N c2) with (Z.of_N (c1 * c2)) by lia.
      rewrite Zabs2N.id, Z.sgn_pos by lia. lia.
Qed.

(** A percentage of a value with two places, when the product of the
    two has at most 28 digits. *)
Lemma percent_of_cents x p :
  is_cents x = true -> p = Decimal_0 \/ is_cents p = true ->
  Z.abs (cents_value x * cents_value p) < 10 ^ 28 ->
  exists d, round_half_up_2 (percent_of x p) = Ok d /\ is_cents d = true
    /\ cents_value d = percent_in_cents (cents_value x) (cents_value p).
Proof.
  destruct x as [s1 c1 e1| |]; [|done..]. cbn [is_cents].
  intros [->%Z.eqb_eq H1%Z.leb_le]%andb_true_iff Hp Hb.
  unfold round_half_up_2, percent_of, __mul__.
  destruct Hp as [->|Hp].
  - unfold Decimal_0, _check_nans. cbv beta iota. rewrite N.mul_0_r.
    rewrite fix_small by (by vm_compute). cbn [mbind res_bind].
    unfold __truediv__, _check_nans, Decimal_100. cbv beta iota zeta.
    change (100 =? 0)%N with false. change (0 =? 0)%N with true. cbv beta iota.
    rewrite fix_small by (by vm_compute). cbn [mbind res_bind].
    rewrite quantize_cents_same by done.
    eexists. split; [done|]. split; [done|].
    cbn [cents_value]. unfold percent_in_cents. rewrite Z.mul_0_r. cbn.
    by destruct (xorb (xorb s1 false) false).
  - destruct p as [s2 c2 e2| |]; [|done..]. cbn [is_cents] in Hp.
    apply andb_true_iff in Hp as [->%Z.eqb_eq H2%Z.leb_le].
    unfold _check_nans. cbv beta iota. change (-2 + -2) with (-4).
    cbn [cents_value] in Hb. fold (signed s1 c1) in Hb. fold (signed s2 c2) in Hb.
    assert (Hc : (c1 * c2 < 10 ^ 28)%N).
    { assert (Z.of_N (c1 * c2) < 10 ^ 28); [|change (10 ^ 28)%N with (Z.to_N (10 ^ 28)); lia].
      destruct s1, s2; unfold signed in Hb; lia. }
    rewrite fix_small;
      [|by apply (ndigits_le _ 28); [lia|]|by vm_compute].
    cbn [mbind res_bind].
    pose proof (hundredth_rounded (xorb s1 s2) (c1 * c2) Hc) as Hh.
    cbn [mbind res_bind] in Hh. 
    destruct (__truediv__ _ _) as [q|]; [|done]. cbn [mbind res_bind] in *.
    rewrite Hh. eexists. split; [done|]. split.
    + cbn. apply Z.leb_le. apply (ndigits_le _ 28); [lia|]. by apply half_up_lt.
    + cbn [cents_value]. apply (percent_in_cents_signed s1 c1 s2 c2).
Qed.

Lemma add_cents_rounded x y :
  is_cents x = true -> is_cents y = true ->
  Z.abs (cents_value x + cents_value y) < 10 ^ 28 ->
  exists d, round_half_up_2 (__add__ x y) = Ok d /\ is_cents d = true
    /\ cents_value d = cents_value x + cents_value y.
Proof.
  intros Hx Hy Hb. destruct (add_cents_small x y Hx Hy Hb) as (d & Hd & Hdc & Hdv).
  exists d. unfold round_half_up_2. rewrite Hd. cbn [mbind res_bind].
  by rewrite quantize_cents_same.
Qed.

Lemma sub_cents_rounded x y :
  is_cents x = true -> is_cents y = true ->
  Z.abs (cents_value x - cents_value y) < 10 ^ 28 ->
  exists d, round_half_up_2 (__sub__ x y) = Ok d /\ is_cents d = true
    /\ cents_value d = cents_value x - cents_value y.
Proof.
  intros Hx Hy Hb. unfold __sub__.
  destruct x as [s1 c1 e1| |]; [|done..]. destruct y as [s2 c2 e2| |]; [|done..].
  cbn [_check_nans copy_negate].
  destruct (add_cents_rounded (Finite s1 c1 e1) (Finite (negb s2) c2 e2))
    as (d & Hd & Hdc & Hdv); [done|done| |].
  - cbn [cents_value] in *. destruct s1, s2; cbn [negb]; lia.
  - exists d. split; [done|]. split; [done|]. rewrite Hdv.
    cbn [cents_value]. destruct s1, s2; cbn [negb]; lia.
Qed.

Lemma sum_cents_le_magnitudes ds : Z.abs (sum_cents ds) <= sum_magnitudes ds.
Proof.
  induction ds as [|d ds IH]; [done|].
  rewrite sum_cents_cons, sum_magnitudes_cons. lia.
Qed.

Lemma forallb_item_cents_totals its :
  forallb item_cents its = true -> forallb is_cents (total <$> its) = true.
Proof.
  induction its as [|x l IH]; [done|]. cbn.
  intros [Hx Hl]%andb_true_iff. unfold item_cents in Hx.
  apply andb_true_iff in Hx as [_ ->]. by apply IH.
Qed.

(** The subtotal of a ledger of values with two places. *)
Lemma items_subtotal_exact its :
  forallb item_cents its = true -> sum_magnitudes (total <$> its) < 10 ^ 28 ->
  exists sub, items_subtotal its = Ok sub /\ is_cents sub = true
    /\ cents_value sub = sum_cents (total <$> its).
Proof.
  intros Hits Hsum. unfold items_subtotal. destruct its as [|it its].
  - by exists Decimal_0_00.
  - apply sum_cents_exact; [by apply forallb_item_cents_totals|done..].
Qed.

Lemma pct_of_text_cents text :
  is_nan (pct_of_text text) = false ->
  pct_of_text text = Decimal_0 \/ is_cents (pct_of_text text) = true.
Proof.
  unfold pct_of_text. destruct (IEEE.D (VStr text)) as [d|] eqn:E; [|by left].
  intros Hn. right. by apply D_checked in E.
Qed.

Lemma half_up_le c : (half_up c 4 <= c)%N.
Proof.
  destruct (N.eq_dec c 0%N) as [->|Hnz]; [by rewrite half_up_0|].
  unfold half_up. change (10 ^ 4)%N with 10000%N.
  apply N.Div0.div_le_upper_bound. lia.
Qed.

Lemma percent_in_cents_le S P : Z.abs (percent_in_cents S P) <= Z.abs (S * P).
Proof.
  unfold percent_in_cents. pose proof (half_up_le (Z.abs_N (S * P))) as H.
  rewrite Z.abs_mul.
  assert (Z.abs (Z.sgn (S * P)) <= 1) by (destruct (S * P); cbn; lia).
  assert (0 <= Z.of_N (half_up (Z.abs_N (S * P)) 4) <= Z.abs (S * P)) by lia.
  rewrite (Z.abs_eq (Z.of_N _)) by lia. nia.
Qed.

(** X16.  The calculator in whole cents.  On a ledger of values with two
    places whose line totals add up to less than 10^12 cents, with
    percentages that are numbers of at most 10000 (10^6 hundredths), the
    calculator completes, its totals have two places, and in cents: the
    subtotal is the sum of the line totals; the discount is the
    percentage of the subtotal rounded half up to the cent; the taxable
    amount is the subtotal less the discount; the tax is the percentage
    of the taxable amount rounded half up to the cent; the grand total is
    the taxable amount plus the tax.  The four totals are shown with two
    decimals and commas, and nothing else changes. *)
Theorem calculator_in_cents (a : IEEE.BillingApp) :
  forallb item_cents (IEEE.items a) = true ->
  sum_magnitudes (total <$> IEEE.items a) < 10 ^ 12 ->
  is_nan (pct_of_text (IEEE.discount_pct a)) = false ->
  is_nan (pct_of_text (IEEE.tax_pct a)) = false ->
  Z.abs (cents_value (pct_of_text (IEEE.discount_pct a))) <= 10 ^ 6 ->
  Z.abs (cents_value (pct_of_text (IEEE.tax_pct a))) <= 10 ^ 6 ->
  let S := sum_cents (total <$> IEEE.items a) in
  let D := percent_in_cents S (cents_value (pct_of_text (IEEE.discount_pct a))) in
  let Tax := percent_in_cents (S - D) (cents_value (pct_of_text (IEEE.tax_pct a))) in
  exists T,
    IEEE._recalc_totals a
    = (Ok T,
       with_totals (format_2f "," (subtotal T)) (format_2f "," (discount_amt T))
         (format_2f "," (tax_amt T)) (format_2f "," (grand T)) a)
    /\ cents_value (subtotal T) = S
    /\ cents_value (discount_amt T) = D
    /\ cents_value (taxable T) = S - D
    /\ cents_value (tax_amt T) = Tax
    /\ cents_value (grand T) = S - D + Tax
    /\ is_cents (subtotal T) && is_cents (discount_amt T) && is_cents (taxable T)
       && is_cents (tax_amt T) && is_cents (grand T) = true.
Proof.
  intros Hits Hsum Hnd Hnt Hbd Hbt S D Tax.
  pose proof (sum_cents_le_magnitudes (total <$> IEEE.items a)) as HS. fold S in HS.
  set (Pd := cents_value (pct_of_text (IEEE.discount_pct a))) in *.
  set (Pt := cents_value (pct_of_text (IEEE.tax_pct a))) in *.
  assert (HSP : Z.abs (S * Pd) < 10 ^ 18).
  { rewrite Z.abs_mul. change (10 ^ 18) with (10 ^ 12 * 10 ^ 6).
    assert (0 <= Z.abs Pd) by lia. nia. }
  pose proof (percent_in_cents_le S Pd) as HD. fold D in HD.
  assert (HTx : Z.abs (S - D) < 10 ^ 19).
  { change (10 ^ 19) with (10 * 10 ^ 18). change (10 ^ 12) with 1000000000000 in *.
    change (10 ^ 18) with 1000000000000000000 in *. lia. }
  assert (HTP : Z.abs ((S - D) * Pt) < 10 ^ 25).
  { rewrite Z.abs_mul. change (10 ^ 25) with (10 ^ 19 * 10 ^ 6).
    assert (0 <= Z.abs Pt) by lia. nia. }
  pose proof (percent_in_cents_le (S - D) Pt) as HTax. fold Tax in HTax.
  destruct (items_subtotal_exact (IEEE.items a) Hits) as (sub & Hs & Hsc & Hsv).
  { change (10 ^ 12) with 1000000000000 in *.
    change (10 ^ 28) with 10000000000000000000000000000. lia. }
  fold S in Hsv.
  destruct (percent_of_cents sub (pct_of_text (IEEE.discount_pct a)) Hsc
              (pct_of_text_cents _ Hnd)) as (da & Hda & Hdac & Hdav).
  { rewrite Hsv. fold Pd. change (10 ^ 18) with 1000000000000000000 in *.
    change (10 ^ 28) with 10000000000000000000000000000. lia. }
  rewrite Hsv in Hdav. fold Pd in Hdav. fold D in Hdav.
  destruct (sub_cents_rounded sub da Hsc Hdac) as (tx & Htx & Htxc & Htxv).
  { rewrite Hsv, Hdav. change (10 ^ 19) with 10000000000000000000 in *.
    change (10 ^ 28) with 10000000000000000000000000000. lia. }
  rewrite Hsv, Hdav in Htxv.
  destruct (percent_of_cents tx (pct_of_text (IEEE.tax_pct a)) Htxc
              (pct_of_text_cents _ Hnt)) as (ta & Hta & Htac & Htav).
  { rewrite Htxv. fold Pt. change (10 ^ 25) with 10000000000000000000000000 in *.
    change (10 ^ 28) with 10000000000000000000000000000. lia. }
  rewrite Htxv in Htav. fold Pt in Htav. fold Tax in Htav.
  destruct (add_cents_rounded tx ta Htxc Htac) as (gr & Hgr & Hgrc & Hgrv).
  { rewrite Htxv, Htav. change (10 ^ 19) with 10000000000000000000 in *.
    change (10 ^ 25) with 10000000000000000000000000 in *.
    change (10 ^ 28) with 10000000000000000000000000000. lia. }
  rewrite Htxv, Htav in Hgrv.
  exists (mkTotals sub (pct_of_text (IEEE.discount_pct a)) da
            (pct_of_text (IEEE.tax_pct a)) tx ta gr).
  split.
  - apply recalc_completes; [|by left]. by repeat split.
  - cbn [subtotal discount_amt taxable tax_amt grand].
    repeat (split; [done|]). by rewrite Hsc, Hdac, Htxc, Htac, Hgrc.
Qed.

Lemma calculator_in_cents_witness :
  exists T, (IEEE._recalc_totals scenario).1 = Ok T
    /\ cents_value (discount_amt T) = 6000 /\ cents_value (tax_amt T) = 9720
    /\ cents_value (grand T) = 63720.
Proof.
  assert (H1 : forallb item_cents (IEEE.items scenario) = true) by (by vm_compute).
  assert (H2 : sum_magnitudes (total <$> IEEE.items scenario) < 10 ^ 12)
    by (by vm_compute).
  assert (H3 : is_nan (pct_of_text (IEEE.discount_pct scenario)) = false)
    by (by vm_compute).
  assert (H4 : is_nan (pct_of_text (IEEE.tax_pct scenario)) = false)
    by (by vm_compute).
  assert (H5 : Z.abs (cents_value (pct_of_text (IEEE.discount_pct scenario))) <= 10 ^ 6)
    by (by vm_compute).
  assert (H6 : Z.abs (cents_value (pct_of_text (IEEE.tax_pct scenario))) <= 10 ^ 6)
    by (by vm_compute).
  destruct (calculator_in_cents scenario H1 H2 H3 H4 H5 H6)
    as (T & Hrun & _ & Hd & _ & Hx & Hg & _).
  exists T. split; [by rewrite Hrun|].
  rewrite Hd, Hx, Hg. clear. vm_compute. by repeat split.
Defined.

(** X17.  The line total of [add_item] in whole cents: for a quantity
    and a price with two places whose product has at most 28 digits, the
    line total is computed, has two places, and is the product of the two
    (in ten-thousandths) rounded half up to the cent, with the sign of the
    product. *)
Theorem line_total_in_cents (q p : Decimal) :
  is_cents q = true -> is_cents p = true ->
  Z.abs (cents_value q * cents_value p) < 10 ^ 28 ->
  exists t, line_total q p = Ok t /\ is_cents t = true
    /\ cents_value t
       = Z.sgn (cents_value q * cents_value p)
         * Z.of_N (half_up (Z.abs_N (cents_value q * cents_value p)) 2).
Proof.
  destruct q as [s1 c1 e1| |]; [|done..]. destruct p as [s2 c2 e2| |]; [|done..].
  cbn [is_cents].
  intros [->%Z.eqb_eq H1%Z.leb_le]%andb_true_iff
         [->%Z.eqb_eq H2%Z.leb_le]%andb_true_iff Hb.
  cbn [cents_value] in *. fold (signed s1 c1) in *. fold (signed s2 c2) in *.
  assert (Hm : Z.of_N (c1 * c2) = Z.of_N c1 * Z.of_N c2) by lia.
  assert (Hc : (c1 * c2 < 10 ^ 28)%N).
  { assert (Z.of_N (c1 * c2) < 10 ^ 28); [|change (10 ^ 28)%N with (Z.to_N (10 ^ 28)); lia].
    destruct s1, s2; unfold signed in Hb; lia. }
  assert (Hr : (half_up (c1 * c2) 2 < 10 ^ 28)%N).
  { destruct (N.eq_dec (c1 * c2)%N 0%N) as [->|Hnz]; [by vm_compute|].
    assert (half_up (c1 * c2) 2 <= c1 * c2)%N; [|lia].
    unfold half_up. change (10 ^ 2)%N with 100%N.
    apply N.Div0.div_le_upper_bound. lia. }
  unfold line_total, __mul__, _check_nans. cbv beta iota. change (-2 + -2) with (-4).
  rewrite fix_small; [|by apply (ndigits_le _ 28); [lia|]|by vm_compute].
  cbn [mbind res_bind]. rewrite quantize_half_up by done.
  change (Z.to_N (-2 - -4)) with 2%N.
  eexists. split; [done|]. split.
  { cbn. apply Z.leb_le. by apply (ndigits_le _ 28); [lia|]. }
  cbn [cents_value]. fold (signed (xorb s1 s2) (half_up (c1 * c2) 2)).
  destruct (N.eq_dec (c1 * c2)%N 0%N) as [H0|Hnz].
  - rewrite H0. rewrite H0 in Hm.
    assert (signed s1 c1 * signed s2 c2 = 0) as ->
      by (destruct s1, s2; unfold signed; lia).
    change (half_up 0 2) with 0%N. by destruct (xorb s1 s2).
  - assert (Hpos : 0 < Z.of_N c1 * Z.of_N c2) by lia.
    destruct s1, s2; unfold signed; cbn [xorb].
    + replace (- Z.of_N c1 * - Z.of_N c2) with (Z.of_N (c1 * c2)) by lia.
      rewrite Zabs2N.id, Z.sgn_pos by lia. lia.
    + replace (- Z.of_N c1 * Z.of_N c2) with (- Z.of_N (c1 * c2)) by lia.
      rewrite Zabs2N.inj_opp, Zabs2N.id, Z.sgn_neg by lia. lia.
    + replace (Z.of_N c1 * - Z.of_N c2) with (- Z.of_N (c1 * c2)) by lia.
      rewrite Zabs2N.inj_opp, Zabs2N.id, Z.sgn_neg by lia. lia.
    + replace (Z.of_N c1 * Z.of_N c2) with (Z.of_N (c1 * c2)) by lia.
      rewrite Zabs2N.id, Z.sgn_pos by lia. lia.
Qed.

Lemma line_total_in_cents_witness :
  exists t, line_total (Finite false 150 (-2)) (Finite false 333 (-2)) = Ok t
    /\ cents_value t = 500.
Proof.
  destruct (line_total_in_cents (Finite false 150 (-2)) (Finite false 333 (-2)))
    as (t & Ht & _ & Hv); [done|done|by vm_compute|].
  exists t. split; [done|]. rewrite Hv. by vm_compute.
Defined.

Lemma ROBOCEK_recalc_frame b :
  (ROBOCEK._recalc_totals b).2
  = ROBOCEK_with_totals (ROBOCEK.subtotal_var (ROBOCEK._recalc_totals b).2)
      (ROBOCEK.discount_amt_var (ROBOCEK._recalc_totals b).2)
      (ROBOCEK.tax_amt_var (ROBOCEK._recalc_totals b).2)
      (ROBOCEK.grand_total_var (ROBOCEK._recalc_totals b).2) b.
Proof.
  unfold ROBOCEK._recalc_totals. unfold_M.
  repeat (case_res; [|by destruct b]).
  by destruct b.
Qed.

Lemma ROBOCEK_recalc_with_totals b :
  exists s d t g, (ROBOCEK._recalc_totals b).2 = ROBOCEK_with_totals s d t g b.
Proof. eexists _, _, _, _. apply ROBOCEK_recalc_frame. Qed.

Lemma ROBOCEK_recalc_empty b :
  ROBOCEK.items b = [] -> ROBOCEK.discount_pct b = "0" -> ROBOCEK.tax_pct b = "18" ->
  ROBOCEK._recalc_totals b
  = (Ok zero_totals, ROBOCEK_with_totals "0.00" "0.00" "0.00" "0.00" b).
Proof.
  destruct b; cbn [ROBOCEK.items ROBOCEK.discount_pct ROBOCEK.tax_pct].
  intros -> -> ->. by vm_compute.
Qed.

(** X18.  In the second program too a reset that is not confirmed
    changes nothing, and a confirmed reset gives the application as it
    starts at the same readings of the clock (no item, no row, no
    recipient, the percentages 0 and 18, the four totals 0.00, the time
    stamp as invoice number and the date), but for the name of the vice
    president, the three item entry fields, the files written and the
    messages shown, which it keeps. *)
Theorem ROBOCEK_reset_invoice_starts_afresh (b : ROBOCEK.BillingApp) now now' :
  ROBOCEK.reset_invoice false now now' b = (Ok tt, b)
  /\ ROBOCEK.reset_invoice true now now' b
     = (Ok tt,
        ROBOCEK.set_vp_name (ROBOCEK.vp_name b)
          (ROBOCEK.set_item_name (ROBOCEK.item_name b)
             (ROBOCEK.set_item_qty (ROBOCEK.item_qty b)
                (ROBOCEK.set_item_price (ROBOCEK.item_price b)
                   (ROBOCEK.set_written (ROBOCEK.written b)
                      (ROBOCEK.set_messages (ROBOCEK.messages b)
                         (ROBOCEK.__init__ now now'))))))).
Proof.
  split; [reflexivity|].
  unfold ROBOCEK.reset_invoice, ROBOCEK.write_discount_pct, ROBOCEK.write_tax_pct.
  unfold_M. cbn [negb]. cbv beta iota.
  set (b1 := ROBOCEK.set_discount_pct "0" _).
  destruct (ROBOCEK_recalc_with_totals b1) as (s & d & t & g & ->).
  set (b2 := ROBOCEK.set_tax_pct "18" _).
  rewrite (ROBOCEK_recalc_empty b2) by (subst b2 b1; by destruct b).
  cbn [fst snd].
  set (b3 := ROBOCEK.set_date_var _ _).
  rewrite (ROBOCEK_recalc_empty b3) by (subst b3 b2 b1; by destruct b).
  subst b3 b2 b1. by destruct b.
Qed.

End Amounts.

(** ** The csv reader, character by character *)

Lemma string_of_list_ascii_snoc l c :
  string_of_list_ascii (l ++ [c]) = string_of_list_ascii l +:+ String c "".
Proof.
  induction l as [|x l IH]; [reflexivity|].
  change (string_of_list_ascii ((x :: l) ++ [c]))
    with (String x (string_of_list_ascii (l ++ [c]))).
  rewrite IH. reflexivity.
Qed.

Lemma parse_chars_snoc r s c :
  csv.parse_chars r (s +:+ String c "")
  = csv.parse_chars r s ≫= λ r', csv.parse_process_char r' (Some c).
Proof.
  revert r. induction s as [|x s IH]; intros r.
  - rewrite string_app_nil_l. cbn.
    by destruct (csv.parse_process_char r (Some c)).
  - rewrite string_app_cons. cbn.
    destruct (csv.parse_process_char r (Some x)); [apply IH|done].
Qed.

Lemma reader_from_raised s cur r0 e :
  cur <> [] ->
  csv.parse_chars r0 (string_of_list_ascii (rev cur)) = Raise e ->
  csv.reader_from r0 (csv.lines_from cur s) = ([], Some e).
Proof.
  revert cur. induction s as [|c s IH]; intros cur Hcur Hrun.
  - cbn. destruct cur; [done|]. cbn [csv.reader_from].
    unfold csv.parse_line. rewrite Hrun. reflexivity.
  - cbn [csv.lines_from].
    assert (Hrun' : csv.parse_chars r0 (string_of_list_ascii (rev (c :: cur))) = Raise e).
    { cbn [rev]. by rewrite string_of_list_ascii_snoc, parse_chars_snoc, Hrun. }
    destruct (Ascii.eqb c csv.LF).
    + cbn [csv.reader_from]. unfold csv.parse_line. rewrite Hrun'. reflexivity.
    + by apply IH.
Qed.

(** The reader of the lines of a text is the reader of the text. *)
Lemma reader_from_lines s cur r0 r :
  csv.parse_chars r0 (string_of_list_ascii (rev cur)) = Ok r ->
  csv.reader_from r0 (csv.lines_from cur s)
  = scan r (match cur with [] => false | _ => true end) s.
Proof.
  revert cur r0 r. induction s as [|c s IH]; intros cur r0 r Hrun.
  - cbn [csv.lines_from scan]. destruct cur as [|x cur].
    + cbn in Hrun. injection Hrun as ->. reflexivity.
    + cbn [csv.reader_from]. unfold csv.parse_line. rewrite Hrun.
      unfold mbind, res_bind.
      destruct (csv.parse_process_char r None) as [r'|]; [|reflexivity].
      unfold at_end. destruct (csv.state r'); reflexivity.
  - cbn [csv.lines_from scan].
    assert (Hrun' : csv.parse_chars r0 (string_of_list_ascii (rev (c :: cur)))
                    = csv.parse_process_char r (Some c)).
    { cbn [rev]. by rewrite string_of_list_ascii_snoc, parse_chars_snoc, Hrun. }
    destruct (csv.parse_process_char r (Some c)) as [r1|e] eqn:Hc.
    + destruct (Ascii.eqb c csv.LF).
      * cbn [csv.reader_from]. unfold csv.parse_line. rewrite Hrun'.
        unfold mbind, res_bind.
        destruct (csv.parse_process_char r1 None) as [r2|]; [|reflexivity].
        destruct (csv.state r2) eqn:Hst;
          first [ by rewrite (IH [] r2 r2)
                | by rewrite (IH [] csv.parse_reset csv.parse_reset) ].
      * by rewrite (IH (c :: cur) r0 r1).
    + destruct (Ascii.eqb c csv.LF).
      * cbn [csv.reader_from]. unfold csv.parse_line. rewrite Hrun'. reflexivity.
      * apply reader_from_raised; [done|]. by rewrite Hrun'.
Qed.

Lemma reader_scan text :
  csv.reader text = scan csv.parse_reset false (csv.universal_newlines text).
Proof. unfold csv.reader, csv.lines. by apply reader_from_lines. Qed.

(** ** What the writer writes, the reader reads *)

Lemma rev_chars_cons c s : rev_chars (String c s) = rev_chars s ++ [c].
Proof. reflexivity. Qed.

Lemma string_of_rev_chars s : string_of_list_ascii (rev (rev_chars s)) = s.
Proof.
  unfold rev_chars. by rewrite rev_involutive, string_of_list_ascii_of_string.
Qed.

Lemma special_false c :
  csv.special c = false ->
  Ascii.eqb c csv.delimiter = false /\ Ascii.eqb c csv.quotechar = false
  /\ csv.is_newline c = false /\ Ascii.eqb c csv.LF = false.
Proof.
  unfold csv.special, csv.is_newline.
  destruct (Ascii.eqb c csv.delimiter), (Ascii.eqb c csv.quotechar),
    (Ascii.eqb c csv.CR), (Ascii.eqb c csv.LF); done.
Qed.

Lemma step_IN_FIELD_plain c fld len fs :
  csv.special c = false -> (len < csv.field_limit)%N ->
  csv.parse_process_char (csv.mkReader csv.IN_FIELD fld len fs) (Some c)
  = Ok (csv.mkReader csv.IN_FIELD (c :: fld) (len + 1) fs).
Proof.
  intros (Hd & Hq & Hn & _)%special_false Hlen.
  unfold csv.parse_process_char, csv.parse_add_char. cbn.
  rewrite Hn, Hd. by destruct (N.leb_spec csv.field_limit len); [lia|].
Qed.

(** The rest of an unquoted field. *)
Lemma scan_plain f fld len fs rest :
  csv.has_special f = false ->
  (len + N.of_nat (String.length f) <= csv.field_limit)%N ->
  scan (csv.mkReader csv.IN_FIELD fld len fs) true (f +:+ rest)
  = scan (csv.mkReader csv.IN_FIELD (rev_chars f ++ fld)
            (len + N.of_nat (String.length f)) fs) true rest.
Proof.
  revert fld len. induction f as [|c f IH]; intros fld len Hsp Hlen.
  - rewrite string_app_nil_l. cbn. by rewrite N.add_0_r.
  - cbn in Hsp. apply orb_false_iff in Hsp as [Hc Hf].
    cbn [String.length] in Hlen.
    rewrite string_app_cons. cbn [scan].
    rewrite step_IN_FIELD_plain by (done || lia).
    destruct (special_false c Hc) as (_ & _ & _ & ->).
    rewrite IH by (done || lia).
    rewrite rev_chars_cons, <- app_assoc. cbn [app].
    cbn [String.length].
    by replace (len + N.of_nat (S (String.length f)))%N
      with (len + 1 + N.of_nat (String.length f))%N by lia.
Qed.

Lemma step_IN_QUOTED_quote fld len fs :
  csv.parse_process_char (csv.mkReader csv.IN_QUOTED_FIELD fld len fs)
    (Some csv.quotechar)
  = Ok (csv.mkReader csv.QUOTE_IN_QUOTED_FIELD fld len fs).
Proof. reflexivity. Qed.

Lemma step_IN_QUOTED_eol fld len fs :
  csv.parse_process_char (csv.mkReader csv.IN_QUOTED_FIELD fld len fs) None
  = Ok (csv.mkReader csv.IN_QUOTED_FIELD fld len fs).
Proof. reflexivity. Qed.

Lemma step_IN_QUOTED_other c fld len fs :
  Ascii.eqb c csv.quotechar = false -> (len < csv.field_limit)%N ->
  csv.parse_process_char (csv.mkReader csv.IN_QUOTED_FIELD fld len fs) (Some c)
  = Ok (csv.mkReader csv.IN_QUOTED_FIELD (c :: fld) (len + 1) fs).
Proof.
  intros Hq Hlen. unfold csv.parse_process_char, csv.parse_add_char. cbn.
  rewrite Hq. by destruct (N.leb_spec csv.field_limit len); [lia|].
Qed.

Lemma step_QUOTE_quote fld len fs :
  (len < csv.field_limit)%N ->
  csv.parse_process_char (csv.mkReader csv.QUOTE_IN_QUOTED_FIELD fld len fs)
    (Some csv.quotechar)
  = Ok (csv.mkReader csv.IN_QUOTED_FIELD (csv.quotechar :: fld) (len + 1) fs).
Proof.
  intros Hlen. unfold csv.parse_process_char, csv.parse_add_char. cbn.
  by destruct (N.leb_spec csv.field_limit len); [lia|].
Qed.

(** The rest of a quoted field, up to its closing quote. *)
Lemma scan_quoted f fld len fs inline rest :
  (len + N.of_nat (String.length f) <= csv.field_limit)%N ->
  scan (csv.mkReader csv.IN_QUOTED_FIELD fld len fs) inline
    (csv.double_quotes f +:+ String csv.quotechar rest)
  = scan (csv.mkReader csv.QUOTE_IN_QUOTED_FIELD (rev_chars f ++ fld)
            (len + N.of_nat (String.length f)) fs) true rest.
Proof.
  revert fld len inline. induction f as [|c f IH]; intros fld len inline Hlen.
  - rewrite string_app_nil_l. cbn [csv.double_quotes scan].
    rewrite step_IN_QUOTED_quote.
    change (Ascii.eqb csv.quotechar csv.LF) with false. cbv iota.
    cbn [String.length rev_chars]. by rewrite N.add_0_r.
  - cbn [String.length] in Hlen. cbn [csv.double_quotes String.length].
    replace (len + N.of_nat (S (String.length f)))%N
      with (len + 1 + N.of_nat (String.length f))%N by lia.
    rewrite rev_chars_cons, <- app_assoc. cbn [app].
    destruct (Ascii.eqb c csv.quotechar) eqn:Hq.
    + apply Ascii.eqb_eq in Hq as ->.
      rewrite !string_app_cons. cbn [scan].
      rewrite step_IN_QUOTED_quote.
      change (Ascii.eqb csv.quotechar csv.LF) with false. cbv iota.
      rewrite step_QUOTE_quote by lia. by rewrite IH by lia.
    + rewrite string_app_cons. cbn [scan].
      rewrite step_IN_QUOTED_other by (done || lia).
      destruct (Ascii.eqb c csv.LF).
      * rewrite step_IN_QUOTED_eol. cbn [csv.state]. by rewrite IH by lia.
      * by rewrite IH by lia.
Qed.

Lemma step_holding_delimiter r fs f :
  holding r fs f ->
  csv.parse_process_char r (Some csv.delimiter)
  = Ok (csv.mkReader csv.START_FIELD [] 0 (fs ++ [f])).
Proof.
  destruct r as [st fld len fs']. intros (Hfs & Hf & Hst). cbn in *. subst.
  by destruct Hst as [->|[->| ->]].
Qed.

Lemma step_holding_LF r fs f :
  holding r fs f ->
  csv.parse_process_char r (Some csv.LF)
  = Ok (csv.mkReader csv.EAT_CRNL [] 0 (fs ++ [f])).
Proof.
  destruct r as [st fld len fs']. intros (Hfs & Hf & Hst). cbn in *. subst.
  by destruct Hst as [->|[->| ->]].
Qed.

Lemma step_START_FIELD_plain c fs :
  csv.special c = false ->
  csv.parse_process_char (csv.mkReader csv.START_FIELD [] 0 fs) (Some c)
  = Ok (csv.mkReader csv.IN_FIELD [c] 1 fs).
Proof.
  intros (Hd & Hq & Hn & _)%special_false.
  unfold csv.parse_process_char, csv.parse_add_char. cbn. by rewrite Hn, Hq, Hd.
Qed.

(** One field as the writer wrote it. *)
Lemma scan_field f fs inline :
  fits f = true ->
  exists r inl, holding r fs f
    /\ forall s, scan (csv.mkReader csv.START_FIELD [] 0 fs) inline
                   (csv.join_append f +:+ s)
                 = scan r inl s.
Proof.
  intros Hfit%N.leb_le. unfold csv.join_append.
  destruct (csv.has_special f) eqn:Hsp.
  - eexists (csv.mkReader csv.QUOTE_IN_QUOTED_FIELD (rev_chars f ++ []) _ fs), true.
    split.
    + split; [done|]. split; [|by right; right]. cbn [csv.field].
      by rewrite app_nil_r, string_of_rev_chars.
    + intros s. rewrite string_app_cons. cbn [scan].
      change (csv.parse_process_char (csv.mkReader csv.START_FIELD [] 0 fs)
                (Some csv.quotechar))
        with (Ok (csv.mkReader csv.IN_QUOTED_FIELD [] 0 fs)).
      change (Ascii.eqb csv.quotechar csv.LF) with false. cbv iota.
      rewrite string_app_assoc, string_app_cons, string_app_nil_l.
      by rewrite scan_quoted by (by rewrite N.add_0_l).
  - destruct f as [|c f].
    + exists (csv.mkReader csv.START_FIELD [] 0 fs), inline.
      split; [|done]. split; [done|]. split; [done|by left].
    + cbn in Hsp. apply orb_false_iff in Hsp as [Hc Hf].
      cbn [String.length] in Hfit.
      eexists (csv.mkReader csv.IN_FIELD (rev_chars f ++ [c]) _ fs), true.
      split.
      * split; [done|]. split; [|by right; left]. cbn [csv.field].
        by rewrite <- rev_chars_cons, string_of_rev_chars.
      * intros s. rewrite string_app_cons. cbn [scan].
        rewrite step_START_FIELD_plain by done.
        destruct (special_false c Hc) as (_ & _ & _ & ->).
        by rewrite scan_plain by (done || lia).
Qed.

(** The fields of a record as the writer wrote them, then the line end. *)
Lemma scan_fields r fs inline rest :
  r <> [] -> forallb fits r = true ->
  scan (csv.mkReader csv.START_FIELD [] 0 fs) inline
    (csv.join_fields r +:+ String csv.LF rest)
  = csv.yield (fs ++ r) (scan csv.parse_reset false rest).
Proof.
  revert fs inline. induction r as [|f r IH]; intros fs inline Hne Hfit; [done|].
  cbn in Hfit. apply andb_true_iff in Hfit as [Hf Hr].
  destruct (scan_field f fs inline Hf) as (r' & inl & Hhold & Hscan).
  destruct r as [|f2 r].
  - cbn [csv.join_fields]. rewrite Hscan. cbn [scan].
    rewrite (step_holding_LF r' fs f) by done.
    change (Ascii.eqb csv.LF csv.LF) with true. cbv iota.
    by change (csv.parse_process_char (csv.mkReader csv.EAT_CRNL [] 0 (fs ++ [f])) None)
      with (Ok (csv.mkReader csv.START_RECORD [] 0 (fs ++ [f]))).
  - change (csv.join_fields (f :: f2 :: r))
      with (csv.join_append f +:+ String csv.delimiter (csv.join_fields (f2 :: r))).
    rewrite string_app_assoc, Hscan, string_app_cons. cbn [scan].
    rewrite (step_holding_delimiter r' fs f) by done.
    change (Ascii.eqb csv.delimiter csv.LF) with false. cbv iota.
    rewrite IH by done. by rewrite <- app_assoc.
Qed.

Lemma writerow_record_line r :
  csv.writerow r = record_line r +:+ csv.lineterminator.
Proof. by destruct r as [|[|] [|]]. Qed.

Lemma no_CR_app s t : no_CR (s +:+ t) = no_CR s && no_CR t.
Proof. apply text_forallb_app. Qed.

Lemma no_CR_double_quotes f : no_CR f = true -> no_CR (csv.double_quotes f) = true.
Proof.
  induction f as [|c f IH]; [done|]. cbn.
  intros [Hc Hf]%andb_true_iff. destruct (Ascii.eqb c csv.quotechar); cbn.
  - by apply IH.
  - rewrite Hc. by apply IH.
Qed.

Lemma no_CR_join_append f : no_CR f = true -> no_CR (csv.join_append f) = true.
Proof.
  intros Hf. unfold csv.join_append. destruct (csv.has_special f); [|done].
  change (no_CR (String csv.quotechar ?s)) with (no_CR s).
  rewrite no_CR_app, no_CR_double_quotes by done. done.
Qed.

Lemma no_CR_join_fields r : forallb no_CR r = true -> no_CR (csv.join_fields r) = true.
Proof.
  induction r as [|f r IH]; [done|]. cbn [forallb].
  intros [Hf Hr]%andb_true_iff. destruct r as [|f2 r].
  - by apply no_CR_join_append.
  - change (csv.join_fields (f :: f2 :: r))
      with (csv.join_append f +:+ String csv.delimiter (csv.join_fields (f2 :: r))).
    rewrite no_CR_app, no_CR_join_append by done.
    change (no_CR (String csv.delimiter ?s)) with (no_CR s). by apply IH.
Qed.

Lemma no_CR_record_line r : forallb no_CR r = true -> no_CR (record_line r) = true.
Proof.
  intros H. destruct r as [|[|c f] [|f2 r]]; try done;
    by apply no_CR_join_fields.
Qed.

(** A text without carriage return, then the line end of the writer. *)
Lemma universal_newlines_line s t :
  no_CR s = true ->
  csv.universal_newlines (s +:+ csv.lineterminator +:+ t)
  = s +:+ String csv.LF (csv.universal_newlines t).
Proof.
  induction s as [|c s IH]; [done|]. cbn.
  intros [Hc Hs]%andb_true_iff. rewrite !string_app_cons.
  cbn [csv.universal_newlines]. apply negb_true_iff in Hc. rewrite Hc.
  by rewrite IH.
Qed.

Lemma is_newline_first_plain c : csv.special c = false -> csv.is_newline c = false.
Proof. by intros (_ & _ & ? & _)%special_false. Qed.

Lemma scan_start_record c s inline :
  csv.is_newline c = false ->
  scan csv.parse_reset inline (String c s)
  = scan (csv.mkReader csv.START_FIELD [] 0 []) inline (String c s).
Proof.
  intros Hn. cbn [scan].
  assert (csv.parse_process_char csv.parse_reset (Some c)
          = csv.parse_process_char (csv.mkReader csv.START_FIELD [] 0 []) (Some c))
    as ->; [|done].
  unfold csv.parse_process_char. cbn. by rewrite Hn.
Qed.

Lemma record_line_first r rest :
  r <> [] -> r <> [EmptyString] ->
  exists c s, csv.join_fields r +:+ rest = String c s /\ csv.is_newline c = false.
Proof.
  intros Hne Hne'. destruct r as [|f r]; [done|].
  assert (Hfirst : forall rest', exists c s,
            (f <> EmptyString \/ exists c' s', rest' = String c' s' /\ csv.is_newline c' = false) ->
            csv.join_append f +:+ rest' = String c s /\ csv.is_newline c = false).
  { intros rest'. unfold csv.join_append. destruct (csv.has_special f) eqn:Hsp.
    - eexists _, _. intros _. by rewrite string_app_cons.
    - destruct f as [|c f].
      + destruct rest' as [|c' s'].
        * exists "a"%char, EmptyString. by intros [?|(? & ? & ? & ?)].
        * exists c', s'. intros [?|(? & ? & [= <- <-] & ?)]; done.
      + cbn in Hsp. apply orb_false_iff in Hsp as [Hc _].
        exists c, (f +:+ rest'). intros _. split; [done|].
        by apply is_newline_first_plain. }
  destruct r as [|f2 r].
  - destruct (Hfirst rest) as (c & s & H). exists c, s. apply H. left.
    by intros ->.
  - change (csv.join_fields (f :: f2 :: r))
      with (csv.join_append f +:+ String csv.delimiter (csv.join_fields (f2 :: r))).
    rewrite string_app_assoc.
    destruct (Hfirst (String csv.delimiter (csv.join_fields (f2 :: r)) +:+ rest))
      as (c & s & H).
    exists c, s. apply H. right. by eexists _, _.
Qed.

(** One record as the writer wrote it, read back. *)
Lemma scan_record r inline rest :
  r <> [] -> forallb fits r = true ->
  scan csv.parse_reset inline (record_line r +:+ String csv.LF rest)
  = csv.yield r (scan csv.parse_reset false rest).
Proof.
  intros Hne Hfit.
  destruct (decide (r = [EmptyString])) as [->|Hne'].
  - cbn [record_line]. rewrite !string_app_cons, string_app_nil_l. reflexivity.
  - assert (record_line r = csv.join_fields r) as ->.
    { by destruct r as [|[|] [|]]. }
    destruct (record_line_first r (String csv.LF rest) Hne Hne') as (c & s & Heq & Hc).
    rewrite Heq, scan_start_record, <- Heq by done.
    by rewrite scan_fields.
Qed.

(** The reader gives back the records the writer wrote. *)
Lemma reader_written_records records :
  forallb readable_record records = true ->
  csv.reader (written_records records) = (records, None).
Proof.
  intros H. rewrite reader_scan.
  induction records as [|r records IH]; [done|].
  cbn in H. apply andb_true_iff in H as [Hr Hrs].
  unfold readable_record in Hr.
  apply andb_true_iff in Hr as [[Hne Hfit]%andb_true_iff Hcr].
  cbn [written_records foldr]. rewrite writerow_record_line, string_app_assoc.
  rewrite universal_newlines_line by (by apply no_CR_record_line).
  rewrite scan_record by (done || by destruct r).
  fold (written_records records). by rewrite IH.
Qed.

Lemma master_db_set_master_db db a : IEEE.master_db (IEEE.set_master_db db a) = db.
Proof. reflexivity. Qed.

Lemma master_row_set_master_db db a :
  IEEE.master_row (IEEE.set_master_db db a) = IEEE.master_row a.
Proof. reflexivity. Qed.

Lemma append_invoice_Content old a :
  IEEE.items a <> [] ->
  append_invoice (Content old) a
  = Content (old +:+ csv.writerow (IEEE.master_row a)).
Proof.
  intros Hi. unfold append_invoice, IEEE.save_to_master_db. unfold_M.
  change (IEEE.items (IEEE.set_master_db ?d a)) with (IEEE.items a).
  destruct (IEEE.items a); [done|]. reflexivity.
Qed.

Lemma append_invoice_Absent a :
  IEEE.items a <> [] ->
  append_invoice Absent a
  = Content (csv.writerow IEEE.master_header +:+ csv.writerow (IEEE.master_row a)).
Proof.
  intros Hi. unfold append_invoice, IEEE.save_to_master_db. unfold_M.
  change (IEEE.items (IEEE.set_master_db ?d a)) with (IEEE.items a).
  destruct (IEEE.items a); [done|]. reflexivity.
Qed.

Lemma append_invoice_no_items db a : IEEE.items a = [] -> append_invoice db a = db.
Proof.
  intros Hi. unfold append_invoice, IEEE.save_to_master_db. unfold_M.
  change (IEEE.items (IEEE.set_master_db ?d a)) with (IEEE.items a).
  by rewrite Hi.
Qed.

Lemma has_items a : recorded_readably a = true -> IEEE.items a <> [].
Proof. unfold recorded_readably. by destruct (IEEE.items a). Qed.

Lemma foldl_append_invoice old invoices :
  forallb recorded_readably invoices = true ->
  foldl append_invoice (Content old) invoices
  = Content (old +:+ written_records (IEEE.master_row <$> invoices)).
Proof.
  revert old. induction invoices as [|a invoices IH]; intros old H.
  - cbn. by rewrite string_app_nil_r.
  - cbn in H. apply andb_true_iff in H as [Ha H]. cbn [foldl].
    rewrite append_invoice_Content by (by apply has_items).
    rewrite IH by done. by rewrite string_app_assoc.
Qed.

(** The text of the master database after the invoices. *)
Lemma ledger_after_text a invoices :
  forallb recorded_readably (a :: invoices) = true ->
  ledger_after (a :: invoices)
  = Content (written_records (IEEE.master_header :: (IEEE.master_row <$> a :: invoices))).
Proof.
  intros H. pose proof H as H'.
  cbn in H. apply andb_true_iff in H as [Ha H].
  unfold ledger_after. cbn [foldl].
  rewrite append_invoice_Absent by (by apply has_items).
  rewrite foldl_append_invoice by done.
  by rewrite string_app_assoc.
Qed.

Lemma readable_master_rows invoices :
  forallb recorded_readably invoices = true ->
  forallb readable_record (IEEE.master_row <$> invoices) = true.
Proof.
  induction invoices as [|a invoices IH]; [done|]. cbn.
  intros [[_ Ha]%andb_true_iff H]%andb_true_iff. rewrite Ha. by apply IH.
Qed.

Lemma readable_master_header : readable_record IEEE.master_header = true.
Proof. by vm_compute. Qed.

(** The records read back from the master database. *)
Lemma reader_ledger_after a invoices :
  forallb recorded_readably (a :: invoices) = true ->
  exists text, ledger_after (a :: invoices) = Content text
    /\ csv.reader text
       = (IEEE.master_header :: (IEEE.master_row <$> a :: invoices), None).
Proof.
  intros H. eexists. split; [by apply ledger_after_text|].
  apply reader_written_records. cbn [forallb].
  rewrite readable_master_header. by apply readable_master_rows.
Qed.

Lemma master_row_not_empty a : IEEE.master_row a <> [].
Proof. done. Qed.

Lemma filter_master_rows (invoices : list IEEE.BillingApp) :
  filter (λ row : list string, row ≠ []) (IEEE.master_row <$> invoices)
  = IEEE.master_row <$> invoices.
Proof.
  induction invoices as [|a invoices IH]; [done|].
  rewrite fmap_cons, filter_cons_True by done. by rewrite IH.
Qed.

Lemma history_row_master_row a :
  IEEE.history_row (csv.dict_row IEEE.master_header (IEEE.master_row a))
  = shown_columns a.
Proof. by vm_compute. Qed.

Lemma DictReader_ledger_after a invoices :
  forallb recorded_readably (a :: invoices) = true ->
  exists text, ledger_after (a :: invoices) = Content text
    /\ csv.DictReader text
       = (csv.dict_row IEEE.master_header ∘ IEEE.master_row <$> a :: invoices, None).
Proof.
  intros H. destruct (reader_ledger_after a invoices H) as (text & Ht & Hr).
  exists text. split; [done|]. unfold csv.DictReader. rewrite Hr.
  by rewrite filter_master_rows, list_fmap_compose.
Qed.

Lemma history_rows_shown (invoices : list IEEE.BillingApp) :
  IEEE.history_row <$> (csv.dict_row IEEE.master_header ∘ IEEE.master_row <$> invoices)
  = shown_columns <$> invoices.
Proof.
  rewrite <- list_fmap_compose. apply list_fmap_ext. intros _ a _.
  apply history_row_master_row.
Qed.

(** What the history table shows of the invoices saved. *)
Lemma refresh_history_ledger_after invoices tree b :
  forallb recorded_readably invoices = true ->
  IEEE.master_db b = ledger_after invoices ->
  IEEE.refresh_history tree b = (Ok (shown_columns <$> invoices), b).
Proof.
  intros H Hdb. unfold IEEE.refresh_history. unfold_M. rewrite Hdb.
  destruct invoices as [|a invoices]; [reflexivity|].
  destruct (DictReader_ledger_after a invoices H) as (text & -> & ->).
  by rewrite history_rows_shown.
Qed.

(** C7 (as stated, refuted): the invoice of a recipient whose name has a
    carriage return is saved into a new master database; the record read
    back has a line feed in its place, in the reader and in the history
    table. *)
Lemma C7_counterexample :
  exists text row,
    length (IEEE.items cr_invoice) = 1%nat
    /\ ledger_after [cr_invoice] = Content text
    /\ csv.reader text = ([IEEE.master_header; row], None)
    /\ IEEE.master_row cr_invoice !! 2%nat = Some cr_name
    /\ row !! 2%nat = Some lf_name
    /\ cr_name <> lf_name
    /\ (IEEE.refresh_history [] (IEEE.set_master_db (Content text) cr_invoice)).1
       = Ok [[Some "1"; Some "2024-12-01 12:34:56"; Some lf_name; Some ""; Some "1";
              Some "20.00"; Some "0.00"; Some "3.60"; Some "23.60"]].
Proof.
  eexists _, _. split; [by vm_compute|].
  split; [vm_compute; reflexivity|].
  split; [vm_compute; reflexivity|].
  split; [by vm_compute|]. split; [by vm_compute|].
  split; [by vm_compute|]. by vm_compute.
Qed.

(** C7 (amended): invoices that each have an item, and in whose thirteen
    recorded fields there is no carriage return and no field longer than
    131072 characters, are saved one after the other, there being no
    master database at first.  Read back, the database gives the header
    and then one record per invoice, equal field for field to the record
    saved, in the order of saving; the dictionaries of [csv.DictReader]
    are those of these records, and [refresh_history] shows their nine
    columns in the same order and reports no error. *)
Theorem C7_ledger_round_trip (invoices : list IEEE.BillingApp) :
  forallb recorded_readably invoices = true ->
  (forall text, ledger_after invoices = Content text ->
     csv.reader text = (IEEE.master_header :: (IEEE.master_row <$> invoices), None)
     /\ csv.DictReader text
        = (csv.dict_row IEEE.master_header ∘ IEEE.master_row <$> invoices, None))
  /\ (invoices <> [] -> exists text, ledger_after invoices = Content text)
  /\ (forall tree b,
        IEEE.master_db b = ledger_after invoices ->
        IEEE.refresh_history tree b = (Ok (shown_columns <$> invoices), b)
        /\ length (shown_columns <$> invoices) = length invoices).
Proof.
  intros H. split; [|split].
  - intros text Ht. destruct invoices as [|a invoices]; [done|].
    destruct (reader_ledger_after a invoices H) as (text1 & Ht1 & Hr).
    destruct (DictReader_ledger_after a invoices H) as (text2 & Ht2 & Hd).
    rewrite Ht in Ht1, Ht2. injection Ht1 as <-. injection Ht2 as <-. done.
  - intros Hne. destruct invoices as [|a invoices]; [done|].
    destruct (reader_ledger_after a invoices H) as (text & Ht & _). by exists text.
  - intros tree b Hb. split; [by apply refresh_history_ledger_after|].
    by rewrite length_fmap.
Qed.

Lemma C7_ledger_round_trip_witness :
  forallb recorded_readably [pen_invoice; cable_invoice] = true
  /\ (IEEE.refresh_history []
        (IEEE.set_master_db (ledger_after [pen_invoice; cable_invoice]) fresh)).1
     = Ok [shown_columns pen_invoice; shown_columns cable_invoice].
Proof.
  assert (H : forallb recorded_readably [pen_invoice; cable_invoice] = true)
    by (by vm_compute).
  split; [exact H|].
  destruct (C7_ledger_round_trip [pen_invoice; cable_invoice] H) as (_ & _ & Hr).
  destruct (Hr [] (IEEE.set_master_db (ledger_after [pen_invoice; cable_invoice]) fresh)
              eq_refl) as [-> _].
  reflexivity.
Defined.

(** ** More on the invoice numbers *)

Lemma int_raises s e : Text.int s = Raise e -> e = ValueError.
Proof.
  unfold Text.int.
  destruct (match Text.strip s with
            | String "-" r => (true, r)
            | String "+" r => (false, r)
            | r => (false, r)
            end) as [neg body].
  destruct (Text.int_digits false 0%N body); [done|]. by intros [= <-].
Qed.

(** The generator on a store whose last identifier is not a number. *)
Lemma gen_invoice_no_not_numeric text rows r s now :
  csv.DictReader text = (rows, None) -> last rows = Some r ->
  csv.get r "Invoice No" "" = Some s ->
  Text.nonempty s = true -> Text.all_decimal s = false ->
  IEEE._gen_invoice_no (Content text) now = datetime.strftime_compact now.
Proof.
  intros Hread Hlast Hget Hne Hdec. unfold IEEE._gen_invoice_no.
  rewrite Hread, (foldl_last_row _ _ r) by done. rewrite Hget, Hne.
  destruct (Text.isdigit s) eqn:Hd; [|done].
  destruct (Text.int s) as [n|e] eqn:Hint.
  - apply int_isdigit in Hint as [Hall _]; [|done]. congruence.
  - by apply int_raises in Hint as ->.
Qed.

(** X5.  When the master database reads to its end and the identifier of
    its last record is not empty and is not made of decimal digits only
    (a letter, a sign, a space or a superscript digit is among its
    characters), the generator returns the time stamp of the clock,
    year, month, day, hour, minute and second. *)
Theorem gen_invoice_no_timestamp text rows r s now :
  csv.DictReader text = (rows, None) -> last rows = Some r ->
  csv.get r "Invoice No" "" = Some s ->
  Text.nonempty s = true -> Text.all_decimal s = false ->
  IEEE._gen_invoice_no (Content text) now = datetime.strftime_compact now
  /\ Text.all_decimal (IEEE._gen_invoice_no (Content text) now) = true.
Proof.
  intros Hread Hlast Hget Hne Hdec.
  rewrite (gen_invoice_no_not_numeric text rows r s now) by done.
  split; [done|]. apply strftime_compact_digits.
Qed.

Lemma gen_invoice_no_timestamp_witness :
  IEEE._gen_invoice_no (Content db_ending_INV7) noon = "20241201123456".
Proof.
  pose proof (gen_invoice_no_timestamp db_ending_INV7
    (csv.DictReader db_ending_INV7).1
    (csv.dict_row ["Invoice No"; "Date"] ["INV-7"; "2024-12-01 09:45:00"])
    "INV-7" noon) as H.
  destruct H as [-> _]; vm_compute; reflexivity.
Defined.







Lemma str_N_inj n m : Text.str_N n = Text.str_N m -> n = m.
Proof.
  intros H. destruct (str_N_spec n) as (_ & _ & <- & _).
  destruct (str_N_spec m) as (_ & _ & <- & _). by rewrite H.
Qed.

Lemma str_N_length_1 n : (n < 10)%N -> String.length (Text.str_N n) = 1%nat.
Proof.
  intros Hn. destruct (str_N_spec n) as (Hne & _ & _ & _ & Hlow).
  destruct (N.eq_dec n 0%N) as [->|Hn0]; [reflexivity|].
  specialize (Hlow Hn0).
  destruct (String.length (Text.str_N n)) as [|[|k]] eqn:Hlen; [|done|].
  - by destruct (Text.str_N n).
  - exfalso. assert (10 ^ 2 <= 10 ^ N.of_nat (S (S k)))%N
      by (apply N.pow_le_mono_r; lia).
    change (10 ^ 2)%N with 100%N in *. lia.
Qed.

Lemma str_N_length_2 n : (10 <= n < 100)%N -> String.length (Text.str_N n) = 2%nat.
Proof.
  intros Hn. destruct (str_N_spec n) as (Hne & _ & _ & Hup & Hlow).
  specialize (Hlow ltac:(lia)).
  destruct (String.length (Text.str_N n)) as [|[|[|k]]] eqn:Hlen; [| |done|].
  - cbn in Hup. lia.
  - change (10 ^ N.of_nat 1)%N with 10%N in Hup. lia.
  - exfalso. assert (10 ^ 3 <= 10 ^ N.of_nat (S (S (S k))))%N
      by (apply N.pow_le_mono_r; lia).
    change (10 ^ 3)%N with 1000%N in *. lia.
Qed.

Lemma pad2_length n : (n < 100)%N -> String.length (datetime.pad2 n) = 2%nat.
Proof.
  intros Hn. unfold datetime.pad2. destruct (N.ltb_spec n 10).
  - cbn. by rewrite str_N_length_1.
  - apply str_N_length_2. lia.
Qed.

Lemma pad2_value n : Text.digits_value (datetime.pad2 n) = n.
Proof.
  unfold datetime.pad2. destruct (n <? 10)%N; [|apply str_N_spec].
  change (Text.digits_value (String "0" ?s)) with (Text.digits_value s).
  apply str_N_spec.
Qed.

Lemma pad2_inj n m : datetime.pad2 n = datetime.pad2 m -> n = m.
Proof. intros H. by rewrite <- (pad2_value n), <- (pad2_value m), H. Qed.

Lemma string_app_inj_l (s1 s2 t1 t2 : string) :
  String.length s1 = String.length s2 ->
  s1 +:+ t1 = s2 +:+ t2 -> s1 = s2 /\ t1 = t2.
Proof.
  revert s2. induction s1 as [|c s1 IH]; intros [|c2 s2] Hlen; try done.
  rewrite !string_app_cons. intros [= -> H].
  destruct (IH s2) as [-> ->]; [by injection Hlen|done..].
Qed.

Lemma string_app_inj_r (s1 s2 t1 t2 : string) :
  String.length t1 = String.length t2 ->
  s1 +:+ t1 = s2 +:+ t2 -> s1 = s2 /\ t1 = t2.
Proof.
  intros Hlen H. apply string_app_inj_l; [|done].
  apply (f_equal String.length) in H. rewrite !string_app_length in H. lia.
Qed.

Lemma clock_reading_bounds now :
  clock_reading now = true ->
  (1 <= datetime.year now <= 9999 /\ datetime.month now < 100
   /\ datetime.day now < 100 /\ datetime.hour now < 100
   /\ datetime.minute now < 100 /\ datetime.second now < 100)%N.
Proof.
  unfold clock_reading. rewrite !andb_true_iff, !N.leb_le. lia.
Qed.

Lemma strftime_compact_inj now1 now2 :
  clock_reading now1 = true -> clock_reading now2 = true ->
  datetime.strftime_compact now1 = datetime.strftime_compact now2 -> now1 = now2.
Proof.
  intros (_ & H1 & H2 & H3 & H4 & H5)%clock_reading_bounds
         (_ & G1 & G2 & G3 & G4 & G5)%clock_reading_bounds.
  unfold datetime.strftime_compact. intros H.
  apply string_app_inj_r in H as [Hy H];
    [|by rewrite !string_app_length, !pad2_length].
  apply string_app_inj_l in H as [Hm H]; [|by rewrite !pad2_length].
  apply string_app_inj_l in H as [Hd H]; [|by rewrite !pad2_length].
  apply string_app_inj_l in H as [Hh H]; [|by rewrite !pad2_length].
  apply string_app_inj_l in H as [Hmi Hs]; [|by rewrite !pad2_length].
  apply str_N_inj in Hy. apply pad2_inj in Hm, Hd, Hh, Hmi, Hs.
  destruct now1, now2; cbn in *. by subst.
Qed.

Lemma str_N_length_4 n : (1000 <= n <= 9999)%N -> String.length (Text.str_N n) = 4%nat.
Proof.
  intros Hn. destruct (str_N_spec n) as (Hne & _ & _ & Hup & Hlow).
  specialize (Hlow ltac:(lia)).
  destruct (String.length (Text.str_N n)) as [|[|[|[|[|k]]]]] eqn:Hlen; [| | | |done|].
  - cbn in Hup. lia.
  - change (10 ^ N.of_nat 1)%N with 10%N in Hup. lia.
  - change (10 ^ N.of_nat 2)%N with 100%N in Hup. lia.
  - change (10 ^ N.of_nat 3)%N with 1000%N in Hup. lia.
  - exfalso. assert (10 ^ 5 <= 10 ^ N.of_nat (S (S (S (S (S k))))))%N
      by (apply N.pow_le_mono_r; lia).
    change (10 ^ 5)%N with 100000%N in *. lia.
Qed.

(** X7.  The invoice number of the second program is the time stamp of
    the clock: a string of decimal digits, fourteen of them from the year
    1000 on, that tells the second it was made in: two readings of the
    clock that give the same number are the same reading, so two invoices
    get the same number only when made within one second. *)
Theorem ROBOCEK_invoice_no_tells_the_second (now1 now2 : datetime.datetime) :
  clock_reading now1 = true -> clock_reading now2 = true ->
  Text.all_decimal (ROBOCEK._gen_invoice_no now1) = true
  /\ ((1000 <= datetime.year now1)%N ->
      String.length (ROBOCEK._gen_invoice_no now1) = 14%nat)
  /\ (ROBOCEK._gen_invoice_no now1 = ROBOCEK._gen_invoice_no now2 <-> now1 = now2).
Proof.
  intros H1 H2. split; [apply strftime_compact_digits|]. split.
  - intros Hy. apply clock_reading_bounds in H1 as (Hy' & ? & ? & ? & ? & ?).
    unfold ROBOCEK._gen_invoice_no, datetime.strftime_compact.
    rewrite !string_app_length, !pad2_length, str_N_length_4 by lia. done.
  - split; [|by intros ->]. by apply strftime_compact_inj.
Qed.

Lemma ROBOCEK_invoice_no_tells_the_second_witness :
  ROBOCEK._gen_invoice_no noon = "20241201123456"
  /\ String.length (ROBOCEK._gen_invoice_no noon) = 14%nat.
Proof.
  split; [by vm_compute|].
  assert (H : clock_reading noon = true) by (by vm_compute).
  destruct (ROBOCEK_invoice_no_tells_the_second noon noon H H) as (_ & Hlen & _).
  apply Hlen. vm_compute. discriminate.
Defined.

(** X8.  The history window shows the invoices saved: when invoices
    with readable records have been saved one after the other into a new
    master database, [view_invoice_history] opens its window on one row
    per invoice, in the order of saving, with nine of the thirteen fields
    recorded, shows no message, and a refresh of that window gives the
    same rows; when no invoice has been saved there is no database, the
    window is not opened and a message says so. *)
Theorem history_window_shows_saved_invoices (invoices : list IEEE.BillingApp)
    (a : IEEE.BillingApp) tree :
  forallb recorded_readably invoices = true ->
  IEEE.master_db a = ledger_after invoices ->
  (invoices <> [] ->
   IEEE.view_invoice_history a
   = (Ok tt, IEEE.set_history_tree (Some (shown_columns <$> invoices)) a)
   /\ IEEE.refresh_history tree (IEEE.view_invoice_history a).2
      = (Ok (shown_columns <$> invoices), (IEEE.view_invoice_history a).2))
  /\ (invoices = [] ->
      IEEE.view_invoice_history a
      = (Ok tt,
         IEEE.set_messages
           (IEEE.messages a
              ++ [mkMessage showinfo "No History"
                    "No invoice history found. Generate some invoices first!" None])
           a)).
Proof.
  intros Hr Hdb. split.
  - intros Hne. destruct invoices as [|a0 rest]; [done|].
    destruct (DictReader_ledger_after a0 rest Hr) as (text & Ht & Hd).
    assert (Hview : IEEE.view_invoice_history a
                    = (Ok tt, IEEE.set_history_tree
                                (Some (shown_columns <$> a0 :: rest)) a)).
    { unfold IEEE.view_invoice_history. unfold_M. rewrite Hdb, Ht, Hd.
      by rewrite history_rows_shown. }
    split; [done|]. rewrite Hview. cbn [snd].
    apply refresh_history_ledger_after; [done|]. by destruct a.
  - intros ->. unfold IEEE.view_invoice_history. unfold_M. by rewrite Hdb.
Qed.

Lemma history_window_shows_saved_invoices_witness :
  IEEE.history_tree
    (IEEE.view_invoice_history
       (IEEE.set_master_db (ledger_after [pen_invoice; cable_invoice]) fresh)).2
  = Some [shown_columns pen_invoice; shown_columns cable_invoice].
Proof.
  assert (H : forallb recorded_readably [pen_invoice; cable_invoice] = true)
    by (by vm_compute).
  destruct (history_window_shows_saved_invoices [pen_invoice; cable_invoice]
              (IEEE.set_master_db (ledger_after [pen_invoice; cable_invoice]) fresh)
              [] H eq_refl) as [Hview _].
  destruct (Hview ltac:(done)) as [-> _]. reflexivity.
Defined.

(** ** The invoice saved as CSV *)


Lemma written_records_app l1 l2 :
  written_records (l1 ++ l2) = written_records l1 +:+ written_records l2.
Proof.
  induction l1 as [|r l1 IH]; [done|]. cbn [app written_records foldr].
  fold (written_records (l1 ++ l2)). fold (written_records l1).
  by rewrite IH, string_app_assoc.
Qed.





